(** * live-canvas: the authoritative synchronisation engine

    A shallow embedding of [server.js] (the WebSocket server: connection,
    message and close handlers over the in-memory [canvasState]) and of the
    connection life cycle and snapshot handling of [public/canvas.js]
    (class [CollaborativeCanvas]).

    JavaScript values are embedded as a small JSON-like datatype, the two
    [Map]s of the server as an insertion-ordered map ([users], whose
    iteration order is observable through [Array.from(users.values())]) and
    a [gmap] ([connectedClients], only ever read by key), and the handlers
    as programs of a state-and-exception monad: state mutations made before
    a [throw] persist, exactly as under the [try]/[catch] of the source. *)

From Stdlib Require Import ZArith Lia.
From stdpp Require Import base option list gmap strings.

Local Set Warnings "-register-all".

(** ** The handler monad: state and exceptions *)

Inductive JSError := TypeError | SyntaxError.

Inductive Completion (A : Type) :=
  | Normal (a : A)
  | Throw (e : JSError).
Arguments Normal {A} a.
Arguments Throw {A} e.

Section Monad.
Context {S : Type}.

Definition M (A : Type) : Type := S → Completion A * S.

Definition ret {A} (a : A) : M A := λ w, (Normal a, w).

Definition bind {A B} (m : M A) (k : A → M B) : M B :=
  λ w, match m w with
       | (Normal a, w') => k a w'
       | (Throw e, w') => (Throw e, w')
       end.

Definition throw {A} (e : JSError) : M A := λ w, (Throw e, w).

(** [try { m } catch (error) { h error }] *)
Definition try_catch (m : M unit) (h : JSError → M unit) : M unit :=
  λ w, match m w with
       | (Normal a, w') => (Normal a, w')
       | (Throw e, w') => h e w'
       end.

Definition gets {A} (f : S → A) : M A := λ w, (Normal (f w), w).
Definition modify (f : S → S) : M unit := λ w, (Normal tt, f w).

Fixpoint forEach {A} (l : list A) (f : A → M unit) : M unit :=
  match l with
  | [] => ret tt
  | a :: l' => bind (f a) (λ _, forEach l' f)
  end.
End Monad.
Arguments M : clear implicits.

Global Instance M_ret {S} : MRet (M S) := @ret S.
Global Instance M_bind {S} : MBind (M S) := λ A B k m, @bind S A B m k.

(** ** JavaScript values *)

(** Numbers are IEEE doubles in the source.  The server never computes
    with the numbers it receives: it stores and forwards them and tests
    them for truthiness.  They are kept abstract, with the operations the
    code needs: integer literals and the [ToBoolean] test (false at [0],
    [-0] and [NaN]).  [str_trim] is [String.prototype.trim]. *)
Class JSRuntime (Num : Type) := {
  num_of_Z : Z → Num;
  num_falsy : Num → bool;
  str_trim : string → string
}.

Inductive JSValue (Num : Type) : Type :=
  | JUndefined
  | JNull
  | JBool (b : bool)
  | JNum (n : Num)
  | JStr (s : string)
  | JArr (l : list (JSValue Num))
  | JObj (fields : list (string * JSValue Num)).
Arguments JUndefined {Num}.
Arguments JNull {Num}.
Arguments JBool {Num} b.
Arguments JNum {Num} n.
Arguments JStr {Num} s.
Arguments JArr {Num} l.
Arguments JObj {Num} fields.

(** ToBoolean. *)
Definition truthy `{JSRuntime Num} (v : JSValue Num) : bool :=
  match v with
  | JUndefined | JNull => false
  | JBool b => b
  | JNum n => negb (num_falsy n)
  | JStr s => negb (bool_decide (s = ""))
  | JArr _ | JObj _ => true
  end.

(** [a || b] *)
Definition js_or `{JSRuntime Num} (a b : JSValue Num) : JSValue Num :=
  if truthy a then a else b.

(** Own-property lookup in a parsed object, whose keys are listed once. *)
Fixpoint field_lookup {Num} (k : string) (fields : list (string * JSValue Num))
  : JSValue Num :=
  match fields with
  | [] => JUndefined
  | (k', v) :: rest => if decide (k = k') then v else field_lookup k rest
  end.

(** [undefined] and [null]: the values a property read throws on. *)
Definition nullish {Num} (v : JSValue Num) : bool :=
  match v with
  | JUndefined | JNull => true
  | _ => false
  end.

(** What [v.k] evaluates to when it does not throw. *)
Definition prop {Num} (v : JSValue Num) (k : string) : JSValue Num :=
  match v with
  | JObj fields => field_lookup k fields
  | _ => JUndefined
  end.

(** [s === v] for a string [s] held by the server and a received value. *)
Definition str_strict_eq {Num} (s : string) (v : JSValue Num) : bool :=
  match v with
  | JStr s' => bool_decide (s = s')
  | _ => false
  end.

(** [a === b] for two values that are each a string or [undefined]. *)
Definition opt_strict_eq (a b : option string) : bool := bool_decide (a = b).

(** ** Insertion-ordered maps (the JavaScript [Map]) *)

Module JSMap.
Section JSMap.
Context {K V : Type} `{EqDecision K}.

Definition t := list (K * V).

Definition empty : t := [].

Fixpoint get (k : K) (m : t) : option V :=
  match m with
  | [] => None
  | (k', v) :: m' => if decide (k = k') then Some v else get k m'
  end.

(** [set] keeps the position of a key that is already present and
    appends a new key at the end. *)
Fixpoint set (k : K) (v : V) (m : t) : t :=
  match m with
  | [] => [(k, v)]
  | (k', v') :: m' =>
      if decide (k = k') then (k, v) :: m' else (k', v') :: set k v m'
  end.

Fixpoint delete (k : K) (m : t) : t :=
  match m with
  | [] => []
  | (k', v') :: m' =>
      if decide (k = k') then m' else (k', v') :: delete k m'
  end.

(** Mutation of the object stored under [k] (the map holds a reference). *)
Fixpoint alter (f : V → V) (k : K) (m : t) : t :=
  match m with
  | [] => []
  | (k', v') :: m' =>
      if decide (k = k') then (k', f v') :: m' else (k', v') :: alter f k m'
  end.

Definition keys (m : t) : list K := m.*1.
Definition values (m : t) : list V := m.*2.

(** A [Map] never holds a key twice. *)
Definition wf (m : t) : Prop := NoDup (keys m).
End JSMap.
Arguments t : clear implicits.
End JSMap.

(** ** Data model *)

Definition Ws := nat.

Inductive ReadyState := CONNECTING | OPEN | CLOSING | CLOSED.

Global Instance ReadyState_eq_dec : EqDecision ReadyState.
Proof. solve_decision. Defined.

Section Model.
Context {Num : Type}.

Record Point := mkPoint { pt_x : JSValue Num; pt_y : JSValue Num }.

Record Stroke := mkStroke {
  stroke_id : string;
  stroke_userId : option string;
  stroke_color : JSValue Num;
  stroke_width : JSValue Num;
  stroke_points : list Point;
  stroke_timestamp : Num
}.

Record UserInfo := mkUserInfo {
  user_id : string;
  user_socketId : string;
  user_color : string;
  user_cursor : Point
}.

Record CanvasState := mkCanvasState {
  strokes : list Stroke;
  users : JSMap.t string UserInfo
}.

Record ChatMessage := mkChatMessage {
  chat_id : string;
  chat_userId : option string;
  chat_userColor : string;
  chat_message : string;
  chat_timestamp : JSValue Num
}.

(** Server-to-client messages, [{ type, data }]. *)
Inductive ServerMsg :=
  | MsgCanvasState (strokes : list Stroke) (users : list UserInfo)
  | MsgUserInfo (u : UserInfo)
  | MsgUserJoined (u : UserInfo)
  | MsgUserLeft (userId : string)
  | MsgDrawStart (s : Stroke)
  | MsgDrawContinue (strokeId x y : JSValue Num)
  | MsgDrawEnd (strokeId : JSValue Num)
  | MsgCursorMove (userId : option string) (x y : JSValue Num) (color : string)
  | MsgClearCanvas
  | MsgChatMessage (m : ChatMessage)
  | MsgUserTyping (userId : option string) (typing : JSValue Num).

Inductive LogLine :=
  | LogUserConnected (connectionId : string)
  | LogUserDisconnected (connectionId : string)
  | LogChat (userId : option string)
  | LogUnknownType
  | LogParseError (e : JSError).

(** The state the handlers of [server.js] share: [canvasState],
    [connectedClients], and the [wss.clients] set of the socket server with
    each socket's [readyState]. *)
Record Server := mkServer {
  canvasState : CanvasState;
  connectedClients : gmap Ws string;
  wss_clients : list (Ws * ReadyState)
}.

(** What a handler leaves behind: the state, the frames written to
    sockets (in order) and the console. *)
Record World := mkWorld {
  server : Server;
  outbox : list (Ws * ServerMsg);
  console : list LogLine
}.

Definition set_strokes (f : list Stroke → list Stroke) (w : World) : World :=
  let s := server w in
  let c := canvasState s in
  mkWorld (mkServer (mkCanvasState (f (strokes c)) (users c))
                    (connectedClients s) (wss_clients s))
          (outbox w) (console w).

Definition set_users
    (f : JSMap.t string UserInfo → JSMap.t string UserInfo) (w : World) : World :=
  let s := server w in
  let c := canvasState s in
  mkWorld (mkServer (mkCanvasState (strokes c) (f (users c)))
                    (connectedClients s) (wss_clients s))
          (outbox w) (console w).

Definition set_connectedClients
    (f : gmap Ws string → gmap Ws string) (w : World) : World :=
  let s := server w in
  mkWorld (mkServer (canvasState s) (f (connectedClients s)) (wss_clients s))
          (outbox w) (console w).

Definition add_outbox (o : list (Ws * ServerMsg)) (w : World) : World :=
  mkWorld (server w) (outbox w ++ o) (console w).

Definition add_console (l : LogLine) (w : World) : World :=
  mkWorld (server w) (outbox w) (console w ++ [l]).

End Model.

Arguments Point : clear implicits.
Arguments Stroke : clear implicits.
Arguments UserInfo : clear implicits.
Arguments CanvasState : clear implicits.
Arguments ChatMessage : clear implicits.
Arguments ServerMsg : clear implicits.
Arguments Server : clear implicits.
Arguments World : clear implicits.

(** ** The server: [server.js] *)

Section ServerHandlers.
Context {Num : Type} `{RT : JSRuntime Num}.

Local Abbreviation SM := (M (World Num)).

(** [v.k]: a [TypeError] on [undefined] and [null].  The handlers read
    only the properties [type], [data], [x], [y], [color], [width],
    [strokeId], [message], [timestamp] and [typing], none of which a
    boolean, number, string or array has. *)
Definition get_prop (v : JSValue Num) (k : string) : SM (JSValue Num) :=
  match v with
  | JUndefined | JNull => throw TypeError
  | JObj fields => ret (field_lookup k fields)
  | JBool _ | JNum _ | JStr _ | JArr _ => ret JUndefined
  end.

(** A received frame, by what [JSON.parse] makes of it. *)
Inductive Inbound :=
  | Unparseable
  | Parsed (v : JSValue Num).

Definition JSON_parse (message : Inbound) : SM (JSValue Num) :=
  match message with
  | Unparseable => throw SyntaxError
  | Parsed v => ret v
  end.

(** The values the handlers draw from outside: [uuidv4()] (at most two
    calls per event), [Math.floor(Math.random() * colors.length)] and
    [Date.now()]. *)
Record Oracle := mkOracle {
  uuid_a : string;
  uuid_b : string;
  random_index : nat;
  now : Num
}.

(** The variables a connection's handlers close over. *)
Record Closure := mkClosure {
  connectionId : string;
  userColor : string
}.

Definition colors : list string :=
  ["#FF6B6B"; "#4ECDC4"; "#45B7D1"; "#96CEB4"; "#FFEAA7";
   "#DDA0DD"; "#98D8C8"; "#F7DC6F"; "#BB8FCE"; "#85C1E9"].

(** [colors[i]] for the index [i] drawn, which lies below [colors.length]. *)
Definition generateUserColor (i : nat) : string := nth i colors "".

(** [Array.prototype.find], returning the position of the element found:
    the caller mutates the object the array holds there. *)
Fixpoint find_index {A} (p : A → SM bool) (l : list A) : SM (option nat) :=
  match l with
  | [] => ret None
  | a :: l' =>
      b ← p a;
      if b : bool then ret (Some 0%nat)
      else r ← find_index p l'; ret (S <$> r)
  end.

(** [client.send(JSON.stringify(message))] *)
Definition send (ws : Ws) (message : ServerMsg Num) : SM unit :=
  modify (add_outbox [(ws, message)]).

Definition console_log (l : LogLine) : SM unit := modify (add_console l).

(** [ws.readyState]; a socket that has left [wss.clients] is closed. *)
Fixpoint readyState_in (ws : Ws) (cs : list (Ws * ReadyState)) : ReadyState :=
  match cs with
  | [] => CLOSED
  | (c, rs) :: cs' => if decide (ws = c) then rs else readyState_in ws cs'
  end.

Definition is_open (rs : ReadyState) : bool := bool_decide (rs = OPEN).

Definition broadcast (message : ServerMsg Num) (excludeWs : option Ws)
  : SM unit :=
  cs ← gets (λ w, wss_clients (server w));
  forEach cs (λ '(client, rs),
    if bool_decide (Some client ≠ excludeWs) && is_open rs
    then send client message
    else ret tt).

Definition sendToClient (ws : Ws) (message : ServerMsg Num) : SM unit :=
  rs ← gets (λ w, readyState_in ws (wss_clients (server w)));
  if is_open rs then send ws message else ret tt.

(** [users.get(userId)] where [userId] may be [undefined]. *)
Definition users_get (userId : option string) (m : JSMap.t string (UserInfo Num))
  : option (UserInfo Num) :=
  k ← userId; JSMap.get k m.

Definition push_point (p : Point Num) (s : Stroke Num) : Stroke Num :=
  mkStroke (stroke_id s) (stroke_userId s) (stroke_color s) (stroke_width s)
           (stroke_points s ++ [p]) (stroke_timestamp s).

Definition set_cursor (p : Point Num) (u : UserInfo Num) : UserInfo Num :=
  mkUserInfo (user_id u) (user_socketId u) (user_color u) p.

(** [if (userId)] *)
Definition id_truthy (userId : option string) : bool :=
  match userId with
  | Some s => negb (bool_decide (s = ""))
  | None => false
  end.

(** [wss.on('connection', (ws, req) => ...)], up to the registration of
    the socket's handlers; returns what those handlers close over. *)
Definition on_connection (ws : Ws) (o : Oracle) : SM Closure :=
  let connectionId := uuid_a o in
  console_log (LogUserConnected connectionId);;
  let userId := uuid_b o in
  let userColor := generateUserColor (random_index o) in
  let userInfo :=
    mkUserInfo userId connectionId userColor
               (mkPoint (JNum (num_of_Z 0)) (JNum (num_of_Z 0))) in
  modify (set_users (JSMap.set userId userInfo));;
  modify (set_connectedClients (<[ws := userId]>));;
  cst ← gets (λ w, canvasState (server w));
  sendToClient ws (MsgCanvasState (strokes cst) (JSMap.values (users cst)));;
  sendToClient ws (MsgUserInfo userInfo);;
  broadcast (MsgUserJoined userInfo) (Some ws);;
  mret (mkClosure connectionId userColor).

Definition case_draw_start (ws : Ws) (cl : Closure) (o : Oracle)
    (userId : option string) (data : JSValue Num) : SM unit :=
  let id := uuid_a o in
  c ← get_prop data "color";
  wd ← get_prop data "width";
  x ← get_prop data "x";
  y ← get_prop data "y";
  let stroke :=
    mkStroke id userId (js_or c (JStr (userColor cl)))
             (js_or wd (JNum (num_of_Z 2))) [mkPoint x y] (now o) in
  modify (set_strokes (λ l, l ++ [stroke]));;
  cs ← gets (λ w, wss_clients (server w));
  forEach cs (λ '(client, rs),
    if is_open rs then send client (MsgDrawStart stroke) else ret tt).

Definition case_draw_continue (ws : Ws) (userId : option string)
    (data : JSValue Num) : SM unit :=
  ss ← gets (λ w, strokes (canvasState (server w)));
  currentStroke ← find_index (λ stroke,
      if opt_strict_eq (stroke_userId stroke) userId
      then sid ← get_prop data "strokeId";
           mret (str_strict_eq (stroke_id stroke) sid)
      else mret false) ss;
  match currentStroke with
  | Some i =>
      x ← get_prop data "x";
      y ← get_prop data "y";
      modify (set_strokes (alter (push_point (mkPoint x y)) i));;
      cs ← gets (λ w, wss_clients (server w));
      forEach cs (λ '(client, rs),
        if is_open rs
        then sid ← get_prop data "strokeId";
             x ← get_prop data "x";
             y ← get_prop data "y";
             send client (MsgDrawContinue sid x y)
        else ret tt)
  | None => ret tt
  end.

Definition case_draw_end (data : JSValue Num) : SM unit :=
  cs ← gets (λ w, wss_clients (server w));
  forEach cs (λ '(client, rs),
    if is_open rs
    then sid ← get_prop data "strokeId"; send client (MsgDrawEnd sid)
    else ret tt).

Definition case_cursor_move (ws : Ws) (userId : option string)
    (data : JSValue Num) : SM unit :=
  cursorUser ← gets (λ w, users_get userId (users (canvasState (server w))));
  match cursorUser, userId with
  | Some u, Some k =>
      x ← get_prop data "x";
      y ← get_prop data "y";
      modify (set_users (JSMap.alter (set_cursor (mkPoint x y)) k));;
      x ← get_prop data "x";
      y ← get_prop data "y";
      broadcast (MsgCursorMove userId x y (user_color u)) (Some ws)
  | _, _ => ret tt
  end.

Definition case_clear_canvas : SM unit :=
  modify (set_strokes (λ _, []));;
  cs ← gets (λ w, wss_clients (server w));
  forEach cs (λ '(client, rs),
    if is_open rs then send client MsgClearCanvas else ret tt).

(** [data.message.trim()]: only a string has the method. *)
Definition call_trim (v : JSValue Num) : SM string :=
  match v with
  | JStr s => ret (str_trim s)
  | _ => throw TypeError
  end.

Definition case_chat_message (o : Oracle) (userId : option string)
    (data : JSValue Num) : SM unit :=
  chatUser ← gets (λ w, users_get userId (users (canvasState (server w))));
  match chatUser with
  | Some u =>
      m ← get_prop data "message";
      if truthy m then
        t ← call_trim m;
        if negb (bool_decide (t = "")) then
          let id := uuid_a o in
          ts ← get_prop data "timestamp";
          let chatMessage :=
            mkChatMessage id userId (user_color u) t (js_or ts (JNum (now o))) in
          broadcast (MsgChatMessage chatMessage) None;;
          console_log (LogChat userId)
        else ret tt
      else ret tt
  | None => ret tt
  end.

Definition case_user_typing (ws : Ws) (userId : option string)
    (data : JSValue Num) : SM unit :=
  if id_truthy userId then
    ty ← get_prop data "typing";
    broadcast (MsgUserTyping userId ty) (Some ws)
  else ret tt.

(** The body of the [try] block of [ws.on('message', ...)]. *)
Definition message_body (ws : Ws) (cl : Closure) (o : Oracle)
    (message : Inbound) : SM unit :=
  parsed ← JSON_parse message;
  type ← get_prop parsed "type";
  data ← get_prop parsed "data";
  userId ← gets (λ w, connectedClients (server w) !! ws);
  if str_strict_eq "draw-start" type then case_draw_start ws cl o userId data
  else if str_strict_eq "draw-continue" type then case_draw_continue ws userId data
  else if str_strict_eq "draw-end" type then case_draw_end data
  else if str_strict_eq "cursor-move" type then case_cursor_move ws userId data
  else if str_strict_eq "clear-canvas" type then case_clear_canvas
  else if str_strict_eq "chat-message" type then case_chat_message o userId data
  else if str_strict_eq "user-typing" type then case_user_typing ws userId data
  else console_log LogUnknownType.

(** [ws.on('message', (message) => { try { ... } catch (error) { ... } })] *)
Definition on_message (ws : Ws) (cl : Closure) (o : Oracle)
    (message : Inbound) : SM unit :=
  try_catch (message_body ws cl o message)
            (λ error, console_log (LogParseError error)).

(** [ws.on('close', () => ...)] *)
Definition on_close (ws : Ws) (cl : Closure) : SM unit :=
  console_log (LogUserDisconnected (connectionId cl));;
  userId ← gets (λ w, connectedClients (server w) !! ws);
  match userId with
  | Some k =>
      if id_truthy userId then
        modify (set_users (JSMap.delete k));;
        modify (set_connectedClients (delete ws));;
        broadcast (MsgUserLeft k) None
      else ret tt
  | None => ret tt
  end.

End ServerHandlers.
Arguments Oracle : clear implicits.
Arguments Inbound : clear implicits.

(** ** The socket server around the handlers

    The [ws] package owns the sockets: it adds a socket to [wss.clients]
    (open) before it emits ['connection'], lets a socket pass through
    [CLOSING], and on close removes it from [wss.clients] before the
    socket's own ['close'] listeners run; a closed socket emits nothing
    more.  An exception that escapes a listener ends the process. *)

Section System.
Context {Num : Type} `{RT : JSRuntime Num}.

Record System := mkSystem {
  world : World Num;
  handlers : gmap Ws Closure;
  next_ws : Ws;
  crashed : bool
}.

Inductive Event :=
  | EvConnection (o : Oracle Num)
  | EvMessage (ws : Ws) (o : Oracle Num) (message : Inbound Num)
  | EvClosing (ws : Ws)
  | EvClose (ws : Ws).

Definition set_clients
    (f : list (Ws * ReadyState) → list (Ws * ReadyState)) (w : World Num)
  : World Num :=
  let s := server w in
  mkWorld (mkServer (canvasState s) (connectedClients s) (f (wss_clients s)))
          (outbox w) (console w).

Definition clients_add (ws : Ws) : World Num → World Num :=
  set_clients (λ cs, cs ++ [(ws, OPEN)]).

Definition clients_closing (ws : Ws) : World Num → World Num :=
  set_clients (map (λ c, if decide (c.1 = ws) then (c.1, CLOSING) else c)).

Definition clients_delete (ws : Ws) : World Num → World Num :=
  set_clients (filter (λ c, c.1 ≠ ws)).

(** [canvasState] and [connectedClients] as the module creates them. *)
Definition initial_world : World Num :=
  mkWorld (mkServer (mkCanvasState [] JSMap.empty) ∅ []) [] [].

Definition initial : System := mkSystem initial_world ∅ 0%nat false.

Definition finish {A} (sys : System) (hs : gmap Ws Closure) (n : Ws)
    (r : Completion A * World Num) (k : A → gmap Ws Closure) : System :=
  match r with
  | (Normal a, w') => mkSystem w' (k a) n false
  | (Throw _, w') => mkSystem w' hs n true
  end.

Definition step (ev : Event) (sys : System) : System :=
  if crashed sys then sys else
  match ev with
  | EvConnection o =>
      let ws := next_ws sys in
      finish sys (handlers sys) (S ws)
             (on_connection ws o (clients_add ws (world sys)))
             (λ cl, <[ws := cl]> (handlers sys))
  | EvMessage ws o message =>
      match handlers sys !! ws with
      | Some cl =>
          finish sys (handlers sys) (next_ws sys)
                 (on_message ws cl o message (world sys))
                 (λ _, handlers sys)
      | None => sys
      end
  | EvClosing ws =>
      match handlers sys !! ws with
      | Some _ =>
          mkSystem (clients_closing ws (world sys)) (handlers sys)
                   (next_ws sys) false
      | None => sys
      end
  | EvClose ws =>
      match handlers sys !! ws with
      | Some cl =>
          finish sys (delete ws (handlers sys)) (next_ws sys)
                 (on_close ws cl (clients_delete ws (world sys)))
                 (λ _, delete ws (handlers sys))
      | None => sys
      end
  end.

Definition run (evs : list Event) (sys : System) : System :=
  foldl (λ s ev, step ev s) sys evs.

(** The point a drawing message carries, with the session it is processed
    for: that of a ['draw-start'] or ['draw-continue'] with a payload. *)
Definition carried_point (userId : option string) (message : Inbound Num)
  : list (option string * Point Num) :=
  match message with
  | Parsed v =>
      let type := prop v "type" in
      let data := prop v "data" in
      if negb (nullish data)
         && (str_strict_eq "draw-start" type
             || str_strict_eq "draw-continue" type)
      then [(userId, mkPoint (prop data "x") (prop data "y"))]
      else []
  | Unparseable => []
  end.

(** The points an event submits: those of a message that reaches a
    handler. *)
Definition submitted (sys : System) (ev : Event)
  : list (option string * Point Num) :=
  match ev with
  | EvMessage ws _ message =>
      match handlers sys !! ws with
      | Some _ =>
          carried_point (connectedClients (server (world sys)) !! ws) message
      | None => []
      end
  | _ => []
  end.

Fixpoint submissions (evs : list Event) (sys : System)
  : list (option string * Point Num) :=
  match evs with
  | [] => []
  | ev :: evs' => submitted sys ev ++ submissions evs' (step ev sys)
  end.

End System.
Arguments System : clear implicits.
Arguments Event : clear implicits.

(** ** The client: [public/canvas.js], class [CollaborativeCanvas]

    The connection life cycle ([connectWebSocket], [attemptReconnect]) and
    the snapshot handler ([handleCanvasState]).  The page ([index.html])
    is a parameter: an element the code looks up may be missing.  The
    class defines [updateConnectionStatus] and [redrawCanvas] twice; the
    later definition of each is the method.  Drawing on the canvas
    context changes no field modelled here. *)

Section Client.
Context {Num : Type}.

Record Dom := mkDom {
  (** [#connectionStatus]: [textContent] and [className] *)
  el_connectionStatus : option (string * string);
  (** [#connection-error]: [style.display] and [textContent] *)
  el_connection_error : option (string * string);
  (** [#userCount]: the count and the noun of its [textContent] *)
  el_userCount : option (nat * string)
}.

Record Client := mkClient {
  reconnectAttempts : Z;
  maxReconnectAttempts : Z;
  reconnectDelay : Z;
  canvasStrokes : list (Stroke Num);
  connectedUsers : JSMap.t string (UserInfo Num);
  (** the delay of every [setTimeout(() => this.connectWebSocket(), delay)]
      made so far, in order *)
  timeouts : list Z;
  dom : Dom
}.

Local Abbreviation CM := (M Client).

Definition set_reconnectAttempts (n : Z) (c : Client) : Client :=
  mkClient n (maxReconnectAttempts c) (reconnectDelay c) (canvasStrokes c)
           (connectedUsers c) (timeouts c) (dom c).

Definition set_canvasStrokes (l : list (Stroke Num)) (c : Client) : Client :=
  mkClient (reconnectAttempts c) (maxReconnectAttempts c) (reconnectDelay c) l
           (connectedUsers c) (timeouts c) (dom c).

Definition set_connectedUsers
    (f : JSMap.t string (UserInfo Num) → JSMap.t string (UserInfo Num))
    (c : Client) : Client :=
  mkClient (reconnectAttempts c) (maxReconnectAttempts c) (reconnectDelay c)
           (canvasStrokes c) (f (connectedUsers c)) (timeouts c) (dom c).

Definition setTimeout (delay : Z) (c : Client) : Client :=
  mkClient (reconnectAttempts c) (maxReconnectAttempts c) (reconnectDelay c)
           (canvasStrokes c) (connectedUsers c) (timeouts c ++ [delay]) (dom c).

Definition set_dom (f : Dom → Dom) (c : Client) : Client :=
  mkClient (reconnectAttempts c) (maxReconnectAttempts c) (reconnectDelay c)
           (canvasStrokes c) (connectedUsers c) (timeouts c) (f (dom c)).

(** The method in force (the second definition in the class): it writes
    to the element without testing that it exists. *)
Definition updateConnectionStatus (connected : bool) : CM unit :=
  status ← gets (λ c, el_connectionStatus (dom c));
  match status with
  | None => throw TypeError
  | Some _ =>
      let badge :=
        if connected then ("Connected", "status-badge connected")
        else ("Disconnected", "status-badge disconnected") in
      modify (set_dom (λ d,
        mkDom (Some badge) (el_connection_error d) (el_userCount d)))
  end.

Definition connection_error_text : string :=
  "Unable to connect to server. Please refresh the page.".

Definition showConnectionError : CM unit :=
  errorElement ← gets (λ c, el_connection_error (dom c));
  match errorElement with
  | Some _ =>
      modify (set_dom (λ d,
        mkDom (el_connectionStatus d) (Some ("block", connection_error_text))
              (el_userCount d)))
  | None => ret tt
  end.

Definition updateUserCount : CM unit :=
  userCount ← gets (λ c, el_userCount (dom c));
  count ← gets (λ c, length (connectedUsers c));
  match userCount with
  | None => throw TypeError
  | Some _ =>
      modify (set_dom (λ d,
        mkDom (el_connectionStatus d) (el_connection_error d)
              (Some (count, if decide (count = 1%nat) then "User" else "Users"))))
  end.

(** The counter and the delay are JavaScript numbers; every value they
    take here is an integer far below 2^53, where the arithmetic of
    doubles is exact.  The counter is positive when the power is taken. *)
Definition attemptReconnect : CM unit :=
  c ← gets (λ c, c);
  if (reconnectAttempts c <? maxReconnectAttempts c)%Z then
    modify (set_reconnectAttempts (reconnectAttempts c + 1));;
    c ← gets (λ c, c);
    let delay := (reconnectDelay c * 2 ^ (reconnectAttempts c - 1))%Z in
    modify (setTimeout delay)
  else
    showConnectionError.

(** [connectWebSocket]; [created] tells whether [new WebSocket(wsUrl)]
    returned a socket.  Assigning the four handlers changes no field. *)
Definition connectWebSocket (created : bool) : CM unit :=
  try_catch (if created then ret tt else throw SyntaxError)
            (λ _, attemptReconnect).

Definition onopen : CM unit :=
  modify (set_reconnectAttempts 0);;
  updateConnectionStatus true.

Definition onclose : CM unit :=
  updateConnectionStatus false;;
  attemptReconnect.

Definition onerror : CM unit :=
  updateConnectionStatus false.

Definition redrawCanvas : CM unit := ret tt.

(** [handleCanvasState(data)], for [data = { strokes, users }]. *)
Definition handleCanvasState
    (data_strokes : list (Stroke Num)) (data_users : list (UserInfo Num))
  : CM unit :=
  modify (set_canvasStrokes data_strokes);;
  modify (set_connectedUsers (λ _, JSMap.empty));;
  forEach data_users (λ user,
    modify (set_connectedUsers (JSMap.set (user_id user) user)));;
  updateUserCount;;
  redrawCanvas.

(** [socket.onmessage] for a ['canvas-state'] frame: the handler runs
    inside [try]/[catch]. *)
Definition onmessage_canvas_state
    (data_strokes : list (Stroke Num)) (data_users : list (UserInfo Num))
  : CM unit :=
  try_catch (handleCanvasState data_strokes data_users) (λ _, ret tt).

Inductive ClientEvent :=
  | CeOpen
  | CeClose
  | CeError
  | CeTimeout (created : bool)
  | CeCanvasState (data_strokes : list (Stroke Num))
                  (data_users : list (UserInfo Num)).

(** The browser runs a handler to its end or to the exception that
    escapes it; the fields keep what was written. *)
Definition client_step (ev : ClientEvent) (c : Client) : Client :=
  snd (match ev with
       | CeOpen => onopen c
       | CeClose => onclose c
       | CeError => onerror c
       | CeTimeout created => connectWebSocket created c
       | CeCanvasState ss us => onmessage_canvas_state ss us c
       end).

Definition client_run (evs : list ClientEvent) (c : Client) : Client :=
  foldl (λ c ev, client_step ev c) c evs.

(** The fields the constructor sets, and its call of [connectWebSocket],
    on a page where the set-up calls before it return. *)
Definition constructed (page : Dom) (created : bool) : Client :=
  snd (connectWebSocket created
         (mkClient 0 10 1000 [] JSMap.empty [] page)).

(** [n] connection losses in a row, each retry opening a socket that
    closes again before it opens. *)
Definition losses (n : nat) (c : Client) : Client :=
  client_run (concat (replicate n [CeClose; CeTimeout true])) c.

(** What holds of the client after its constructor and any sequence of
    events, on a page that has the status badge. *)
Definition client_inv (c : Client) : Prop :=
  maxReconnectAttempts c = 10%Z
  ∧ reconnectDelay c = 1000%Z
  ∧ (0 ≤ reconnectAttempts c ≤ 10)%Z
  ∧ is_Some (el_connectionStatus (dom c)).

(** The banner once [showConnectionError] has run, where the page has one. *)
Definition error_shown (before : option (string * string))
  : option (string * string) :=
  (λ _, ("block", connection_error_text)) <$> before.

(** The delays of the first [n] retries after [a] failed attempts. *)
Definition backoff (a : Z) (n : nat) : list Z :=
  map (λ i, 1000 * 2 ^ (a + Z.of_nat i))%Z (seq 0 n).

End Client.
Arguments Client : clear implicits.
Arguments ClientEvent : clear implicits.

(** ** Vocabulary of the statements *)

Section Vocabulary.
Context {Num : Type} `{RT : JSRuntime Num}.

(** The frame [JSON.stringify({ type, data })] of a client. *)
Definition envelope (type : string) (data : JSValue Num) : Inbound Num :=
  Parsed (JObj [("type", JStr type); ("data", data)]).

(** The message kinds the [switch] knows. *)
Definition recognized (type : JSValue Num) : bool :=
  str_strict_eq "draw-start" type || str_strict_eq "draw-continue" type
  || str_strict_eq "draw-end" type || str_strict_eq "cursor-move" type
  || str_strict_eq "clear-canvas" type || str_strict_eq "chat-message" type
  || str_strict_eq "user-typing" type.

(** A frame that does not parse, parses to [null], or has a type the
    [switch] does not know. *)
Definition malformed (message : Inbound Num) : Prop :=
  match message with
  | Unparseable => True
  | Parsed v => nullish v = true ∨ recognized (prop v "type") = false
  end.

(** The sockets of [wss.clients] that are open, in iteration order. *)
Definition open_clients (cs : list (Ws * ReadyState)) : list Ws :=
  (filter (λ c, c.2 = OPEN) cs).*1.

(** One frame to every open socket. *)
Definition to_all (cs : list (Ws * ReadyState)) (message : ServerMsg Num)
  : list (Ws * ServerMsg Num) :=
  map (λ c, (c, message)) (open_clients cs).

(** One frame to every open socket but [ws]. *)
Definition to_others (ws : Ws) (cs : list (Ws * ReadyState))
    (message : ServerMsg Num) : list (Ws * ServerMsg Num) :=
  map (λ c, (c, message)) (filter (λ c, c ≠ ws) (open_clients cs)).

(** The stroke a ['draw-continue'] from the session [userId] names. *)
Definition owned_by (userId : option string) (strokeId : JSValue Num)
    (s : Stroke Num) : Prop :=
  stroke_userId s = userId ∧ JStr (stroke_id s) = strokeId.

(** The same test, as the callback of [strokes.find] computes it. *)
Definition ownedb (userId : option string) (strokeId : JSValue Num)
    (s : Stroke Num) : bool :=
  opt_strict_eq (stroke_userId s) userId && str_strict_eq (stroke_id s) strokeId.

(** The callback of [strokes.find]. *)
Definition find_callback (userId : option string) (data : JSValue Num) (stroke : Stroke Num)
  : M (World Num) bool :=
  if opt_strict_eq (stroke_userId stroke) userId
  then sid ← get_prop data "strokeId";
       mret (str_strict_eq (stroke_id stroke) sid)
  else mret false.

(** A program that leaves the server state as it is: it may write
    frames and console lines, and it may throw. *)
Definition srv_pure {A} (m : M (World Num) A) : Prop :=
  ∀ w, server (m w).2 = server w.

(** [i] is the position of the first such stroke. *)
Definition first_owned (userId : option string) (strokeId : JSValue Num)
    (ss : list (Stroke Num)) (i : nat) : Prop :=
  (∃ s, ss !! i = Some s ∧ owned_by userId strokeId s) ∧
  ∀ j s', (j < i)%nat → ss !! j = Some s' → ¬ owned_by userId strokeId s'.

(** Every session is stored under its own id, once. *)
Definition users_ok (m : JSMap.t string (UserInfo Num)) : Prop :=
  JSMap.wf m ∧ Forall (λ e, user_id e.2 = e.1) m.

(** What one message may do to the strokes: nothing, clear them, append
    a stroke of one submitted point, or append a submitted point to a
    stroke of the submitting session. *)
Definition strokes_effect (log : list (option string * Point Num))
    (ss ss' : list (Stroke Num)) : Prop :=
  ss' = ss
  ∨ ss' = []
  ∨ (∃ st p, ss' = ss ++ [st] ∧ stroke_points st = [p]
             ∧ (stroke_userId st, p) ∈ log)
  ∨ (∃ i st p, ss !! i = Some st ∧ ss' = alter (push_point p) i ss
               ∧ (stroke_userId st, p) ∈ log).

(** What one message may do to the server state. *)
Definition message_effect (log : list (option string * Point Num))
    (s s' : Server Num) : Prop :=
  connectedClients s' = connectedClients s
  ∧ wss_clients s' = wss_clients s
  ∧ (users (canvasState s') = users (canvasState s)
     ∨ ∃ p k, users (canvasState s')
              = JSMap.alter (set_cursor p) k (users (canvasState s)))
  ∧ strokes_effect log (strokes (canvasState s)) (strokes (canvasState s')).

(** Every point of every stroke was submitted for the stroke's owner. *)
Definition points_from_owner (log : list (option string * Point Num))
    (ss : list (Stroke Num)) : Prop :=
  ∀ s p, s ∈ ss → p ∈ stroke_points s → (stroke_userId s, p) ∈ log.

Definition strokes_of (sys : System Num) : list (Stroke Num) :=
  strokes (canvasState (server (world sys))).

Definition users_of (sys : System Num) : JSMap.t string (UserInfo Num) :=
  users (canvasState (server (world sys))).

(** What holds of the server after any sequence of events: no exception
    has escaped a handler, the sessions map is well keyed, and every
    socket of [wss.clients] was created before the next one. *)
Definition sys_inv (sys : System Num) : Prop :=
  crashed sys = false
  ∧ users_ok (users_of sys)
  ∧ Forall (λ c, (c.1 < next_ws sys)%nat) (wss_clients (server (world sys))).

End Vocabulary.

(** ** Everything one message can do *)

Section Outcomes.
Context {Num : Type} `{RT : JSRuntime Num}.

(** The [type] and the [data] of a frame, [undefined] where there is none. *)
Definition message_type (message : Inbound Num) : JSValue Num :=
  match message with
  | Parsed v => prop v "type"
  | Unparseable => JUndefined
  end.

Definition message_data (message : Inbound Num) : JSValue Num :=
  match message with
  | Parsed v => prop v "data"
  | Unparseable => JUndefined
  end.

(** The outcomes of [ws.on('message', ...)], one per path through the
    handler: what the message changes in the server state and which
    frames it writes, from the world [w] before to the world [w'] after. *)
Inductive message_outcome (ws : Ws) (o : Oracle Num) (message : Inbound Num)
    (w w' : World Num) : Prop :=
  | outcome_dropped :
      server w' = server w →
      outbox w' = outbox w →
      message_outcome ws o message w w'
  | outcome_draw_start (st : Stroke Num) (p : Point Num) :
      message_type message = JStr "draw-start" →
      nullish (message_data message) = false →
      stroke_id st = uuid_a o →
      stroke_userId st = connectedClients (server w) !! ws →
      stroke_points st = [p] →
      server w' = server (set_strokes (λ l, l ++ [st]) w) →
      outbox w' =
        outbox w ++ to_all (wss_clients (server w)) (MsgDrawStart st) →
      message_outcome ws o message w w'
  | outcome_draw_continue (i : nat) (sid x y : JSValue Num) :
      message_type message = JStr "draw-continue" →
      nullish (message_data message) = false →
      first_owned (connectedClients (server w) !! ws) sid
                  (strokes (canvasState (server w))) i →
      server w' =
        server (set_strokes (alter (push_point (mkPoint x y)) i) w) →
      outbox w' =
        outbox w
        ++ to_all (wss_clients (server w)) (MsgDrawContinue sid x y) →
      message_outcome ws o message w w'
  | outcome_draw_end (sid : JSValue Num) :
      message_type message = JStr "draw-end" →
      nullish (message_data message) = false →
      server w' = server w →
      outbox w' =
        outbox w ++ to_all (wss_clients (server w)) (MsgDrawEnd sid) →
      message_outcome ws o message w w'
  | outcome_cursor_move (k : string) (u : UserInfo Num) (x y : JSValue Num) :
      message_type message = JStr "cursor-move" →
      nullish (message_data message) = false →
      connectedClients (server w) !! ws = Some k →
      JSMap.get k (users (canvasState (server w))) = Some u →
      server w' =
        server (set_users (JSMap.alter (set_cursor (mkPoint x y)) k) w) →
      outbox w' =
        outbox w
        ++ to_others ws (wss_clients (server w))
             (MsgCursorMove (Some k) x y (user_color u)) →
      message_outcome ws o message w w'
  | outcome_clear_canvas :
      message_type message = JStr "clear-canvas" →
      server w' = server (set_strokes (λ _, []) w) →
      outbox w' =
        outbox w ++ to_all (wss_clients (server w)) MsgClearCanvas →
      message_outcome ws o message w w'
  | outcome_chat_message (k : string) (u : UserInfo Num) (m : ChatMessage Num) :
      message_type message = JStr "chat-message" →
      nullish (message_data message) = false →
      connectedClients (server w) !! ws = Some k →
      JSMap.get k (users (canvasState (server w))) = Some u →
      chat_id m = uuid_a o →
      chat_userId m = Some k →
      chat_userColor m = user_color u →
      chat_message m ≠ "" →
      server w' = server w →
      outbox w' =
        outbox w ++ to_all (wss_clients (server w)) (MsgChatMessage m) →
      message_outcome ws o message w w'
  | outcome_user_typing (k : string) (typing : JSValue Num) :
      message_type message = JStr "user-typing" →
      nullish (message_data message) = false →
      connectedClients (server w) !! ws = Some k →
      k ≠ "" →
      server w' = server w →
      outbox w' =
        outbox w
        ++ to_others ws (wss_clients (server w))
             (MsgUserTyping (Some k) typing) →
      message_outcome ws o message w w'.

(** The frames an event adds to the outbox. *)
Definition emitted (ev : Event Num) (sys : System Num)
  : list (Ws * ServerMsg Num) :=
  drop (length (outbox (world sys))) (outbox (world (step ev sys))).

(** The identifiers [uuidv4()] returns to the message handlers of a
    sequence of events. *)
Definition drawn_ids (evs : list (Event Num)) : list string :=
  omap (λ ev, match ev with
              | EvMessage _ o _ => Some (uuid_a o)
              | _ => None
              end) evs.

Definition stroke_ids (ss : list (Stroke Num)) : list string :=
  stroke_id <$> ss.

(** An event that clears the canvas: a message of type ['clear-canvas']. *)
Definition clears (ev : Event Num) : Prop :=
  match ev with
  | EvMessage _ _ message => message_type message = JStr "clear-canvas"
  | _ => False
  end.

(** One stroke as it was and as it is after more points were appended:
    the same id, owner, colour, width and time, and the old points first. *)
Definition stroke_grown (s s' : Stroke Num) : Prop :=
  stroke_id s' = stroke_id s
  ∧ stroke_userId s' = stroke_userId s
  ∧ stroke_color s' = stroke_color s
  ∧ stroke_width s' = stroke_width s
  ∧ stroke_timestamp s' = stroke_timestamp s
  ∧ stroke_points s `prefix_of` stroke_points s'.

(** The strokes as they were and as they are later, no clear between:
    every old stroke is still at its place, grown, and new ones follow. *)
Definition strokes_grown (ss ss' : list (Stroke Num)) : Prop :=
  ∃ kept added, ss' = kept ++ added ∧ Forall2 stroke_grown ss kept.

End Outcomes.

(** ** The client's copy of the drawing: [public/canvas.js], the rest of
    [CollaborativeCanvas]

    The handlers of the server's frames and the drawing actions of the
    user.  A stroke object received in a ['draw-start'] frame is stored
    three times: in [canvasStrokes], in [currentStroke] and in
    [activeStrokes].  Only its [points] are ever mutated, and they are
    read through [canvasStrokes] alone, so the other two references are
    kept as the fields that never change.  The map [userCursors] holds
    elements of the page; the methods that touch nothing else
    ([updateRemoteCursor], [removeUserCursor], the drawing on the canvas
    context) change no field here.  The class has no method
    [showTypingIndicator]. *)

Section CanvasHandlers.
Context {Num : Type}.

Record StrokeRef := mkStrokeRef {
  ref_id : string;
  ref_userId : option string;
  ref_color : JSValue Num;
  ref_width : JSValue Num
}.

Definition ref_of (s : Stroke Num) : StrokeRef :=
  mkStrokeRef (stroke_id s) (stroke_userId s) (stroke_color s) (stroke_width s).

Record Canvas := mkCanvas {
  client : Client Num;
  isDrawing : bool;
  currentStroke : option StrokeRef;
  canvas_userColor : string;
  userInfo : option (UserInfo Num);
  activeStrokes : JSMap.t string StrokeRef;
  chatOpen : bool;
  (** [#chatMessages]: the messages shown, each with its [own] mark *)
  el_chatMessages : option (list (bool * ChatMessage Num));
  (** whether the page has [#toggleChat] *)
  el_toggleChat : bool;
  (** the frames given to [socket.send], as [{ type, data }], in order *)
  sent : list (string * JSValue Num);
  (** the errors [socket.onmessage] has caught and logged *)
  logged : list JSError
}.

Local Abbreviation CVM := (M Canvas).

Definition set_client (f : Client Num → Client Num) (cv : Canvas) : Canvas :=
  mkCanvas (f (client cv)) (isDrawing cv) (currentStroke cv)
           (canvas_userColor cv) (userInfo cv) (activeStrokes cv) (chatOpen cv)
           (el_chatMessages cv) (el_toggleChat cv) (sent cv) (logged cv).

Definition set_isDrawing (b : bool) (cv : Canvas) : Canvas :=
  mkCanvas (client cv) b (currentStroke cv)
           (canvas_userColor cv) (userInfo cv) (activeStrokes cv) (chatOpen cv)
           (el_chatMessages cv) (el_toggleChat cv) (sent cv) (logged cv).

Definition set_currentStroke (r : option StrokeRef) (cv : Canvas) : Canvas :=
  mkCanvas (client cv) (isDrawing cv) r
           (canvas_userColor cv) (userInfo cv) (activeStrokes cv) (chatOpen cv)
           (el_chatMessages cv) (el_toggleChat cv) (sent cv) (logged cv).

Definition set_userInfo (u : UserInfo Num) (cv : Canvas) : Canvas :=
  mkCanvas (client cv) (isDrawing cv) (currentStroke cv)
           (user_color u) (Some u) (activeStrokes cv) (chatOpen cv)
           (el_chatMessages cv) (el_toggleChat cv) (sent cv) (logged cv).

Definition set_activeStrokes
    (f : JSMap.t string StrokeRef → JSMap.t string StrokeRef) (cv : Canvas)
  : Canvas :=
  mkCanvas (client cv) (isDrawing cv) (currentStroke cv)
           (canvas_userColor cv) (userInfo cv) (f (activeStrokes cv))
           (chatOpen cv) (el_chatMessages cv) (el_toggleChat cv) (sent cv)
           (logged cv).

Definition add_chat (line : bool * ChatMessage Num) (cv : Canvas) : Canvas :=
  mkCanvas (client cv) (isDrawing cv) (currentStroke cv)
           (canvas_userColor cv) (userInfo cv) (activeStrokes cv) (chatOpen cv)
           ((λ l, l ++ [line]) <$> el_chatMessages cv) (el_toggleChat cv)
           (sent cv) (logged cv).

Definition add_sent (frame : string * JSValue Num) (cv : Canvas) : Canvas :=
  mkCanvas (client cv) (isDrawing cv) (currentStroke cv)
           (canvas_userColor cv) (userInfo cv) (activeStrokes cv) (chatOpen cv)
           (el_chatMessages cv) (el_toggleChat cv) (sent cv ++ [frame])
           (logged cv).

Definition add_logged (e : JSError) (cv : Canvas) : Canvas :=
  mkCanvas (client cv) (isDrawing cv) (currentStroke cv)
           (canvas_userColor cv) (userInfo cv) (activeStrokes cv) (chatOpen cv)
           (el_chatMessages cv) (el_toggleChat cv) (sent cv)
           (logged cv ++ [e]).

(** A method that works on the connection fields, the stroke list and
    the users map. *)
Definition in_client {A} (m : M (Client Num) A) : CVM A :=
  λ cv, let r := m (client cv) in (r.1, set_client (λ _, r.2) cv).

(** [this.userInfo?.id] *)
Definition userInfo_id (cv : Canvas) : option string :=
  user_id <$> userInfo cv.

(** [sendMessage(type, data)]; [open] tells whether [this.socket] is a
    socket whose [readyState] is [OPEN].  Otherwise it warns on the
    console. *)
Definition sendMessage (open : bool) (type : string) (data : JSValue Num)
  : CVM unit :=
  if open then modify (add_sent (type, data)) else ret tt.

Definition handleUserInfo (u : UserInfo Num) : CVM unit :=
  modify (set_userInfo u).

Definition handleUserJoined (u : UserInfo Num) : CVM unit :=
  in_client (modify (set_connectedUsers (JSMap.set (user_id u) u)));;
  in_client updateUserCount.

Definition removeUserCursor (userId : string) : CVM unit := ret tt.

Definition handleUserLeft (userId : string) : CVM unit :=
  in_client (modify (set_connectedUsers (JSMap.delete userId)));;
  removeUserCursor userId;;
  in_client updateUserCount.

(** [drawStrokeStart(stroke)]; the path begins at [stroke.points[0]]. *)
Definition drawStrokeStart (stroke : Stroke Num) : CVM unit :=
  ui ← gets userInfo;
  match ui with
  | Some u =>
      if opt_strict_eq (stroke_userId stroke) (Some (user_id u))
      then modify (set_currentStroke (Some (ref_of stroke)))
      else ret tt
  | None => ret tt
  end;;
  modify (set_activeStrokes (JSMap.set (stroke_id stroke) (ref_of stroke)));;
  match stroke_points stroke with
  | [] => throw TypeError
  | _ :: _ => ret tt
  end.

Definition handleDrawStart (stroke : Stroke Num) : CVM unit :=
  in_client (modify (λ c, set_canvasStrokes (canvasStrokes c ++ [stroke]) c));;
  id ← gets userInfo_id;
  (if opt_strict_eq (stroke_userId stroke) id
   then modify (set_currentStroke (Some (ref_of stroke)))
   else ret tt);;
  drawStrokeStart stroke.

Definition drawStrokeContinue (strokeId x y : JSValue Num) : CVM unit :=
  ret tt.

(** [canvasStrokes.find(s => s.id === data.strokeId)], then the push onto
    the points of the stroke found. *)
Definition handleDrawContinue (strokeId x y : JSValue Num) : CVM unit :=
  in_client (modify (λ c,
    match list_find (λ s, str_strict_eq (stroke_id s) strokeId = true)
                    (canvasStrokes c) with
    | Some (i, _) =>
        set_canvasStrokes
          (alter (push_point (mkPoint x y)) i (canvasStrokes c)) c
    | None => c
    end));;
  drawStrokeContinue strokeId x y.

(** A key of [activeStrokes] is a string; no other value is found. *)
Definition handleDrawEnd (strokeId : JSValue Num) : CVM unit :=
  active ← gets activeStrokes;
  match strokeId with
  | JStr id =>
      if bool_decide (is_Some (JSMap.get id active))
      then modify (set_activeStrokes (JSMap.delete id))
      else ret tt
  | _ => ret tt
  end.

Definition updateRemoteCursor (userId : option string) (x y : JSValue Num)
    (color : string) : CVM unit := ret tt.

Definition handleCursorMove (userId : option string) (x y : JSValue Num)
    (color : string) : CVM unit := updateRemoteCursor userId x y color.

(** [clearCanvas(emit)] wipes the canvas context and, with [emit], asks
    the server to clear. *)
Definition clearCanvas (open emit : bool) : CVM unit :=
  if emit then sendMessage open "clear-canvas" (JObj []) else ret tt.

Definition handleClearCanvas (open : bool) : CVM unit :=
  in_client (modify (set_canvasStrokes []));;
  clearCanvas open false.

Definition showChatNotification : CVM unit :=
  toggleChat ← gets el_toggleChat;
  if toggleChat : bool then ret tt else throw TypeError.

(** [displayChatMessage(data)]: the name shown is ['You'] or ends in
    [data.userId.slice(-6)]. *)
Definition displayChatMessage (data : ChatMessage Num) : CVM unit :=
  chatMessages ← gets el_chatMessages;
  id ← gets userInfo_id;
  let own := opt_strict_eq (chat_userId data) id in
  (if own then ret tt
   else match chat_userId data with
        | Some _ => ret tt
        | None => throw TypeError
        end);;
  match chatMessages with
  | None => throw TypeError
  | Some _ =>
      modify (add_chat (own, data));;
      chatOpen ← gets chatOpen;
      if chatOpen : bool then ret tt else showChatNotification
  end.

Definition handleChatMessage (data : ChatMessage Num) : CVM unit :=
  displayChatMessage data.

(** [this.showTypingIndicator] is [undefined]; the call throws. *)
Definition handleUserTyping (userId : option string) (typing : JSValue Num)
  : CVM unit := throw TypeError.

Definition handleServerMessage (open : bool) (message : ServerMsg Num)
  : CVM unit :=
  match message with
  | MsgCanvasState ss us => in_client (handleCanvasState ss us)
  | MsgUserInfo u => handleUserInfo u
  | MsgUserJoined u => handleUserJoined u
  | MsgUserLeft userId => handleUserLeft userId
  | MsgDrawStart stroke => handleDrawStart stroke
  | MsgDrawContinue strokeId x y => handleDrawContinue strokeId x y
  | MsgDrawEnd strokeId => handleDrawEnd strokeId
  | MsgCursorMove userId x y color => handleCursorMove userId x y color
  | MsgClearCanvas => handleClearCanvas open
  | MsgChatMessage m => handleChatMessage m
  | MsgUserTyping userId typing => handleUserTyping userId typing
  end.

(** [socket.onmessage] for a frame of the server, given as [JSON.parse]
    returns it. *)
Definition socket_onmessage (message : ServerMsg Num) : CVM unit :=
  try_catch (handleServerMessage true message)
            (λ error, modify (add_logged error)).

(** The browser delivers frames one at a time, in order. *)
Definition receive (message : ServerMsg Num) (cv : Canvas) : Canvas :=
  (socket_onmessage message cv).2.

Definition deliver (messages : list (ServerMsg Num)) (cv : Canvas) : Canvas :=
  foldl (λ cv message, receive message cv) cv messages.

(** The drawing actions, on a page that has the [#brushSize] input; [x]
    and [y] are what [getCanvasCoordinates] returned, [width] is
    [parseInt] of the value of that input. *)
Definition startDrawing (open : bool) (x y width : JSValue Num) : CVM unit :=
  if open then
    modify (set_isDrawing true);;
    color ← gets canvas_userColor;
    sendMessage open "draw-start"
      (JObj [("x", x); ("y", y); ("color", JStr color); ("width", width)])
  else ret tt.

Definition continueDrawing (open : bool) (x y : JSValue Num) : CVM unit :=
  drawing ← gets isDrawing;
  current ← gets currentStroke;
  match current with
  | Some stroke =>
      if drawing && open
      then sendMessage open "draw-continue"
             (JObj [("strokeId", JStr (ref_id stroke)); ("x", x); ("y", y)])
      else ret tt
  | None => ret tt
  end.

Definition stopDrawing (open : bool) : CVM unit :=
  drawing ← gets isDrawing;
  current ← gets currentStroke;
  match current with
  | Some stroke =>
      if drawing : bool then
        modify (set_isDrawing false);;
        sendMessage open "draw-end" (JObj [("strokeId", JStr (ref_id stroke))]);;
        modify (set_currentStroke None)
      else ret tt
  | None => ret tt
  end.

(** The object the constructor builds, around the connection fields. *)
Definition new_canvas (c : Client Num) (chatMessages toggleChat : bool)
  : Canvas :=
  mkCanvas c false None "#000000" None JSMap.empty false
           (if chatMessages then Some [] else None) toggleChat [] [].

End CanvasHandlers.
Arguments StrokeRef : clear implicits.
Arguments Canvas : clear implicits.

(** ** The wire: [JSON.stringify] at the sender, [JSON.parse] at the
    receiver

    A frame is written as JSON text and parsed again, and the text does
    not hold every value: a number that is [NaN] or infinite is written
    as [null], [-0] is written as [0], a property whose value is
    [undefined] is left out (and reads as [undefined] again), and
    [undefined] in an array is written as [null].  What a number becomes
    is a parameter beside the other operations on numbers. *)

Class JSONRuntime (Num : Type) := {
  (** [JSON.parse(JSON.stringify(n))]: the number itself for a finite [n]
      other than [-0], [0] for [-0], and [None], for [null], otherwise *)
  json_number : Num → option Num
}.

Section Wire.
Context {Num : Type} `{JR : JSONRuntime Num}.

(** [JSON.parse(JSON.stringify(v))] for a value read from a property; the
    keys of an object are written in the order it lists them. *)
Fixpoint json_value (v : JSValue Num) : JSValue Num :=
  match v with
  | JUndefined => JUndefined
  | JNull => JNull
  | JBool b => JBool b
  | JNum n =>
      match json_number n with
      | Some n' => JNum n'
      | None => JNull
      end
  | JStr s => JStr s
  | JArr l =>
      JArr (map (λ e, match e with
                      | JUndefined => JNull
                      | _ => json_value e
                      end) l)
  | JObj fields =>
      JObj ((fix written (fs : list (string * JSValue Num)) :=
               match fs with
               | [] => []
               | (k, e) :: fs' =>
                   match e with
                   | JUndefined => written fs'
                   | _ => (k, json_value e) :: written fs'
                   end
               end) fields)
  end.

Definition json_point (p : Point Num) : Point Num :=
  mkPoint (json_value (pt_x p)) (json_value (pt_y p)).

(** The [timestamp] of a stroke is a [Date.now()]; the statements about
    the wire take it to be a number that is carried unchanged. *)
Definition json_stroke (s : Stroke Num) : Stroke Num :=
  mkStroke (stroke_id s) (stroke_userId s) (json_value (stroke_color s))
           (json_value (stroke_width s)) (json_point <$> stroke_points s)
           (stroke_timestamp s).

Definition json_user (u : UserInfo Num) : UserInfo Num :=
  mkUserInfo (user_id u) (user_socketId u) (user_color u)
             (json_point (user_cursor u)).

Definition json_chat (m : ChatMessage Num) : ChatMessage Num :=
  mkChatMessage (chat_id m) (chat_userId m) (chat_userColor m)
                (chat_message m) (json_value (chat_timestamp m)).

(** The frame the client's [JSON.parse] returns for the frame the server
    gave to [JSON.stringify]. *)
Definition json_frame (message : ServerMsg Num) : ServerMsg Num :=
  match message with
  | MsgCanvasState ss us =>
      MsgCanvasState (json_stroke <$> ss) (json_user <$> us)
  | MsgUserInfo u => MsgUserInfo (json_user u)
  | MsgUserJoined u => MsgUserJoined (json_user u)
  | MsgUserLeft userId => MsgUserLeft userId
  | MsgDrawStart stroke => MsgDrawStart (json_stroke stroke)
  | MsgDrawContinue strokeId x y =>
      MsgDrawContinue (json_value strokeId) (json_value x) (json_value y)
  | MsgDrawEnd strokeId => MsgDrawEnd (json_value strokeId)
  | MsgCursorMove userId x y color =>
      MsgCursorMove userId (json_value x) (json_value y) color
  | MsgClearCanvas => MsgClearCanvas
  | MsgChatMessage m => MsgChatMessage (json_chat m)
  | MsgUserTyping userId typing => MsgUserTyping userId (json_value typing)
  end.

(** A number the wire carries unchanged. *)
Definition carried (n : Num) : Prop := json_number n = Some n.

End Wire.

(** ** One client and the server *)

Section Sync.
Context {Num : Type} `{RT : JSRuntime Num} `{JR : JSONRuntime Num}.

(** The frames written to the socket [ws], in the order of writing. *)
Definition inbox (ws : Ws) (frames : list (Ws * ServerMsg Num))
  : list (ServerMsg Num) :=
  (filter (λ f, f.1 = ws) frames).*2.

(** The frames a sequence of events adds to the outbox. *)
Definition emitted_run (evs : list (Event Num)) (sys : System Num)
  : list (Ws * ServerMsg Num) :=
  drop (length (outbox (world sys))) (outbox (world (run evs sys))).

(** An event that takes the socket [ws] out of the open state. *)
Definition closes (ws : Ws) (ev : Event Num) : Prop :=
  match ev with
  | EvClosing c | EvClose c => c = ws
  | _ => False
  end.

Definition stays_open (ws : Ws) (evs : list (Event Num)) : Prop :=
  Forall (λ ev, ¬ closes ws ev) evs.

(** A session without its cursor: the key, the id, the connection id and
    the colour. *)
Definition session_of (e : string * UserInfo Num)
  : string * string * string * string :=
  (e.1, user_id e.2, user_socketId e.2, user_color e.2).

Definition sessions (m : JSMap.t string (UserInfo Num))
  : list (string * string * string * string) :=
  session_of <$> m.

(** The frames the client behind the socket [ws] receives, parsed, in
    the order of writing. *)
Definition arrives (ws : Ws) (frames : list (Ws * ServerMsg Num))
  : list (ServerMsg Num) :=
  json_frame <$> inbox ws frames.

(** The clock of an event: what [Date.now()] returns to its handler is
    a number the wire carries. *)
Definition clock_carried (ev : Event Num) : Prop :=
  match ev with
  | EvMessage _ o _ => carried (now o)
  | _ => True
  end.

(** The client behind the open socket [ws] has received every frame
    written to it, and holds the strokes of the server as the wire
    carries them and the sessions of the server. *)
Definition synced (ws : Ws) (sys : System Num) (cv : Canvas Num) : Prop :=
  sys_inv sys
  ∧ (ws < next_ws sys)%nat
  ∧ (ws, OPEN) ∈ wss_clients (server (world sys))
  ∧ NoDup (wss_clients (server (world sys))).*1
  ∧ canvasStrokes (client cv) = json_stroke <$> strokes_of sys
  ∧ sessions (connectedUsers (client cv)) = sessions (users_of sys)
  ∧ userInfo_id cv = connectedClients (server (world sys)) !! ws.

(** A frame of the client as the server parses it.  [JSON.stringify]
    and [JSON.parse] give back the object when its numbers are finite. *)
Definition on_wire (frame : string * JSValue Num) : Inbound Num :=
  envelope frame.1 frame.2.




End Sync.

(** ** A runtime to evaluate with

    Integers for numbers.  Strings are taken as UTF-8 text, and [trim]
    strips, at both ends, the white space and the line terminators of
    ECMAScript: U+0009 to U+000D, U+0020, U+00A0, U+1680, U+2000 to
    U+200A, U+2028, U+2029, U+202F, U+205F, U+3000 and U+FEFF. *)

(** The characters [trim] strips, by the bytes that encode them. *)
Definition blank1 (a : nat) : bool :=
  (9 <=? a)%nat && (a <=? 13)%nat || (a =? 32)%nat.

Definition blank2 (a b : nat) : bool := (a =? 194)%nat && (b =? 160)%nat.

Definition blank3 (a b c : nat) : bool :=
  (a =? 225)%nat && (b =? 154)%nat && (c =? 128)%nat
  || (a =? 226)%nat && (b =? 128)%nat
     && ((128 <=? c)%nat && (c <=? 138)%nat
         || (c =? 168)%nat || (c =? 169)%nat || (c =? 175)%nat)
  || (a =? 226)%nat && (b =? 129)%nat && (c =? 159)%nat
  || (a =? 227)%nat && (b =? 128)%nat && (c =? 128)%nat
  || (a =? 239)%nat && (b =? 187)%nat && (c =? 191)%nat.

(** The string without the blanks it starts with; with [back], the
    string is read from its end and the bytes of a character come in
    reverse. *)
Fixpoint drop_blanks (back : bool) (s : string) : string :=
  match s with
  | String a s1 =>
      if blank1 (Ascii.nat_of_ascii a) then drop_blanks back s1
      else
        match s1 with
        | String b s2 =>
            if (if back
                then blank2 (Ascii.nat_of_ascii b) (Ascii.nat_of_ascii a)
                else blank2 (Ascii.nat_of_ascii a) (Ascii.nat_of_ascii b))
            then drop_blanks back s2
            else
              match s2 with
              | String c s3 =>
                  if (if back
                      then blank3 (Ascii.nat_of_ascii c) (Ascii.nat_of_ascii b)
                                  (Ascii.nat_of_ascii a)
                      else blank3 (Ascii.nat_of_ascii a) (Ascii.nat_of_ascii b)
                                  (Ascii.nat_of_ascii c))
                  then drop_blanks back s3
                  else s
              | EmptyString => s
              end
        | EmptyString => s
        end
  | EmptyString => s
  end.

Definition trim_blanks (s : string) : string :=
  String.rev (drop_blanks true (String.rev (drop_blanks false s))).

Global Instance Z_runtime : JSRuntime Z := {
  num_of_Z := λ z, z;
  num_falsy := λ z, bool_decide (z = 0%Z);
  str_trim := trim_blanks
}.

(** Every integer is carried. *)
Global Instance Z_json : JSONRuntime Z := {
  json_number := λ z, Some z
}.

(** Two sessions, the first of which has begun a stroke. *)
Definition ex_oA : Oracle Z := mkOracle "conn-a" "user-a" 0 1000%Z.
Definition ex_oB : Oracle Z := mkOracle "conn-b" "user-b" 1 2000%Z.
Definition ex_oS : Oracle Z := mkOracle "stroke-1" "" 0 3000%Z.
Definition ex_clA : Closure := mkClosure "conn-a" "#FF6B6B".
Definition ex_clB : Closure := mkClosure "conn-b" "#4ECDC4".

Definition ex_begin : JSValue Z :=
  JObj [("x", JNum 10%Z); ("y", JNum 10%Z);
        ("color", JStr "#FF0000"); ("width", JNum 3%Z)].

Definition ex_begin_no_colour : JSValue Z :=
  JObj [("x", JNum 10%Z); ("y", JNum 10%Z);
        ("color", JStr ""); ("width", JNum 3%Z)].

Definition ex_continue : JSValue Z :=
  JObj [("strokeId", JStr "stroke-1"); ("x", JNum 11%Z); ("y", JNum 12%Z)].

Definition ex_end : JSValue Z := JObj [("strokeId", JStr "stroke-1")].

Definition ex_cursor : JSValue Z := JObj [("x", JNum 5%Z); ("y", JNum 6%Z)].

Definition ex_stroke : Stroke Z :=
  mkStroke "stroke-1" (Some "user-a") (JStr "#FF0000") (JNum 3%Z)
           [mkPoint (JNum 10%Z) (JNum 10%Z)] 3000%Z.

Definition ex_joined : list (Event Z) := [EvConnection ex_oA; EvConnection ex_oB].

Definition ex_trace : list (Event Z) :=
  ex_joined ++ [EvMessage 0%nat ex_oS (envelope "draw-start" ex_begin)].

Definition ex_sys : System Z := run ex_trace initial.

(** A page with the status badge and the error banner. *)
Definition ex_page : Dom :=
  mkDom (Some ("", "")) (Some ("none", "")) (Some (0%nat, "Users")).

(** A third session, which draws, and what the page of a client holds. *)
Definition ex_oC : Oracle Z := mkOracle "conn-c" "user-c" 2 4000%Z.
Definition ex_oT : Oracle Z := mkOracle "id-2" "" 0 5000%Z.

Definition ex_later : list (Event Z) :=
  [EvMessage 2%nat ex_oS (envelope "draw-start" ex_begin);
   EvMessage 2%nat ex_oT (envelope "draw-continue" ex_continue);
   EvClose 0%nat].

Definition ex_chat : JSValue Z :=
  JObj [("message", JStr " hi "); ("timestamp", JNum 42%Z)].

Definition ex_blank : JSValue Z := JObj [("message", JStr "   ")].


Definition ex_userA : UserInfo Z :=
  mkUserInfo "user-a" "conn-a" "#FF6B6B" (mkPoint (JNum 0%Z) (JNum 0%Z)).

Definition ex_canvas : Canvas Z :=
  new_canvas (constructed ex_page true) true true.

Definition ex_canvas_a : Canvas Z := receive (MsgUserInfo ex_userA) ex_canvas.

(** A page without the status badge. *)
Definition ex_bare_page : Dom := mkDom None None None.

Definition ex_oU : Oracle Z := mkOracle "id-3" "" 0 6000%Z.

(** The first session begins a stroke and continues it, the second moves
    its cursor, and the first closes with the stroke in progress. *)
Definition ex_in_progress : list (Event Z) :=
  ex_trace
  ++ [EvMessage 0%nat ex_oT (envelope "draw-continue" ex_continue);
      EvMessage 1%nat ex_oU (envelope "cursor-move" ex_cursor)].

Definition ex_stroke2 : Stroke Z :=
  mkStroke "stroke-1" (Some "user-a") (JStr "#FF0000") (JNum 3%Z)
           [mkPoint (JNum 10%Z) (JNum 10%Z); mkPoint (JNum 11%Z) (JNum 12%Z)]
           3000%Z.

(** Numbers with an infinity, to evaluate the wire with: a client may
    send [1e999], which [JSON.parse] reads as [Infinity]. *)
Inductive ExtNum := Finite (z : Z) | Infinite.

Global Instance ExtNum_runtime : JSRuntime ExtNum := {
  num_of_Z := Finite;
  num_falsy := λ n, match n with
                    | Finite z => bool_decide (z = 0%Z)
                    | Infinite => false
                    end;
  str_trim := trim_blanks
}.

Global Instance ExtNum_json : JSONRuntime ExtNum := {
  json_number := λ n, match n with
                      | Finite _ => Some n
                      | Infinite => None
                      end
}.

Definition ex_far_oA : Oracle ExtNum :=
  mkOracle "conn-a" "user-a" 0 (Finite 1000).

Definition ex_far_oS : Oracle ExtNum :=
  mkOracle "stroke-1" "" 0 (Finite 3000).

Definition ex_far_begin : JSValue ExtNum :=
  JObj [("x", JNum Infinite); ("y", JNum (Finite 10));
        ("color", JStr "#FF0000"); ("width", JNum (Finite 3))].

Definition ex_far_later : list (Event ExtNum) :=
  [EvMessage 0%nat ex_far_oS (envelope "draw-start" ex_far_begin)].

Definition ex_far_canvas : Canvas ExtNum :=
  new_canvas (constructed ex_page true) true true.

(** ** Facts about the insertion-ordered map *)

Section JSMapFacts.
Context {K V : Type} `{EqDecision K}.
Implicit Types m : JSMap.t K V.

Lemma jsmap_set_fresh k v m :
  k ∉ JSMap.keys m → JSMap.set k v m = m ++ [(k, v)].
Proof.
  unfold JSMap.keys. induction m as [|[k' v'] m IH]; intros Hk; [done|].
  csimpl in *. apply not_elem_of_cons in Hk as [Hne Hk].
  rewrite decide_False by done. by rewrite IH.
Qed.

Lemma jsmap_keys_set k v m :
  JSMap.keys (JSMap.set k v m) =
  if decide (k ∈ JSMap.keys m) then JSMap.keys m else JSMap.keys m ++ [k].
Proof.
  unfold JSMap.keys. induction m as [|[k' v'] m IH]; [done|].
  csimpl. destruct (decide (k = k')) as [->|Hne]; csimpl.
  - rewrite decide_True by left. done.
  - rewrite IH. destruct (decide (k ∈ m.*1)) as [Hin|Hin].
    + rewrite decide_True by (by right). done.
    + rewrite decide_False; [done|]. by apply not_elem_of_cons.
Qed.

Lemma jsmap_wf_set k v m : JSMap.wf m → JSMap.wf (JSMap.set k v m).
Proof.
  unfold JSMap.wf. intros Hm. rewrite jsmap_keys_set. case_decide; [done|].
  apply NoDup_app. split_and!; [done| |apply NoDup_singleton].
  intros x Hx ->%list_elem_of_singleton. done.
Qed.

Lemma jsmap_elem_of_set k v m e :
  e ∈ JSMap.set k v m → e = (k, v) ∨ e ∈ m.
Proof.
  induction m as [|[k' v'] m IH]; csimpl.
  - intros ->%list_elem_of_singleton. by left.
  - case_decide; rewrite !elem_of_cons; intros [->|Hin]; auto.
    destruct (IH Hin); auto.
Qed.

Lemma jsmap_get_set k v m : JSMap.get k (JSMap.set k v m) = Some v.
Proof.
  induction m as [|[k' v'] m IH]; csimpl.
  - by rewrite decide_True.
  - destruct (decide (k = k')) as [->|Hne]; csimpl.
    + by rewrite decide_True.
    + by rewrite decide_False.
Qed.

Lemma jsmap_delete_sublist k m : sublist (JSMap.delete k m) m.
Proof.
  induction m as [|[k' v'] m IH]; csimpl; [done|].
  case_decide; [by apply sublist_cons | by apply sublist_skip].
Qed.

Lemma jsmap_wf_delete k m : JSMap.wf m → JSMap.wf (JSMap.delete k m).
Proof.
  unfold JSMap.wf, JSMap.keys. intros Hm.
  apply (sublist_NoDup _ _ Hm), fmap_sublist, jsmap_delete_sublist.
Qed.

Lemma jsmap_get_None k m : k ∉ JSMap.keys m → JSMap.get k m = None.
Proof.
  unfold JSMap.keys. induction m as [|[k' v'] m IH]; [done|].
  csimpl. intros Hk. apply not_elem_of_cons in Hk as [Hne Hk].
  rewrite decide_False by done. by apply IH.
Qed.

Lemma jsmap_get_delete k m :
  JSMap.wf m → JSMap.get k (JSMap.delete k m) = None.
Proof.
  unfold JSMap.wf, JSMap.keys. induction m as [|[k' v'] m IH]; [done|].
  csimpl. intros [Hk Hm]%NoDup_cons. destruct (decide (k = k')) as [->|Hne].
  - by apply jsmap_get_None.
  - csimpl. rewrite decide_False by done. by apply IH.
Qed.

Lemma jsmap_keys_alter f k m : JSMap.keys (JSMap.alter f k m) = JSMap.keys m.
Proof.
  unfold JSMap.keys. induction m as [|[k' v'] m IH]; [done|].
  csimpl. case_decide; csimpl; [done|]. by rewrite IH.
Qed.

Lemma jsmap_get_alter f k m :
  JSMap.get k (JSMap.alter f k m) = f <$> JSMap.get k m.
Proof.
  induction m as [|[k' v'] m IH]; [done|].
  csimpl. destruct (decide (k = k')) as [->|Hne]; csimpl.
  - by rewrite decide_True.
  - by rewrite decide_False.
Qed.

Lemma jsmap_Forall_alter (P : K * V → Prop) f k m :
  (∀ k' v, P (k', v) → P (k', f v)) →
  Forall P m → Forall P (JSMap.alter f k m).
Proof.
  intros Hf. induction 1 as [|[k' v'] m HP Hm IH]; csimpl; [done|].
  case_decide; constructor; auto.
Qed.

Lemma jsmap_Forall_delete (P : K * V → Prop) k m :
  Forall P m → Forall P (JSMap.delete k m).
Proof.
  induction 1 as [|[k' v'] m HP Hm IH]; csimpl; [done|].
  case_decide; [done|]. by constructor.
Qed.

Lemma jsmap_Forall_set (P : K * V → Prop) k v m :
  P (k, v) → Forall P m → Forall P (JSMap.set k v m).
Proof.
  intros Hkv. induction 1 as [|[k' v'] m HP Hm IH]; csimpl.
  - by constructor.
  - case_decide; by constructor.
Qed.

Lemma jsmap_get_alter_ne f k k' m :
  k' ≠ k → JSMap.get k' (JSMap.alter f k m) = JSMap.get k' m.
Proof.
  intros Hne. induction m as [|[k1 v1] m IH]; [done|]. simpl.
  destruct (decide (k = k1)) as [->|Hk]; simpl.
  - by rewrite !decide_False.
  - destruct (decide (k' = k1)); [done|exact IH].
Qed.

Lemma jsmap_get_delete_ne k k' m :
  k' ≠ k → JSMap.get k' (JSMap.delete k m) = JSMap.get k' m.
Proof.
  intros Hne. induction m as [|[k1 v1] m IH]; [done|]. simpl.
  destruct (decide (k = k1)) as [->|Hk]; simpl.
  - by rewrite decide_False.
  - destruct (decide (k' = k1)); [done|exact IH].
Qed.

End JSMapFacts.

(** ** Running the monad *)

Ltac run_monad :=
  unfold mbind, M_bind, mret, M_ret, bind, ret, gets, modify, send,
    console_log, throw; simpl.

Section MonadFacts.
Context {Num : Type} `{RT : JSRuntime Num}.
Implicit Types w : World Num.

Lemma add_outbox_nil w : add_outbox [] w = w.
Proof. destruct w; unfold add_outbox; simpl. by rewrite app_nil_r. Qed.

Lemma add_outbox_app o1 o2 w :
  add_outbox o2 (add_outbox o1 w) = add_outbox (o1 ++ o2) w.
Proof. unfold add_outbox; simpl. by rewrite app_assoc. Qed.

Lemma get_prop_ok (v : JSValue Num) k w :
  nullish v = false → get_prop v k w = (Normal (prop v k), w).
Proof. by destruct v. Qed.

Lemma get_prop_nullish (v : JSValue Num) k w :
  nullish v = true → get_prop v k w = (Throw TypeError, w).
Proof. by destruct v. Qed.

(** A loop whose body only writes frames writes their concatenation. *)
Lemma forEach_sends {A} (f : A → M (World Num) unit)
    (g : A → list (Ws * ServerMsg Num)) (l : list A) w :
  (∀ a w', f a w' = (Normal tt, add_outbox (g a) w')) →
  forEach l f w = (Normal tt, add_outbox (concat (map g l)) w).
Proof.
  intros Hf. revert w. induction l as [|a l IH]; intros w; simpl.
  - by rewrite add_outbox_nil.
  - unfold bind. rewrite Hf, IH. by rewrite add_outbox_app.
Qed.

Lemma concat_map_open (cs : list (Ws * ReadyState)) (message : ServerMsg Num) :
  concat (map (λ c : Ws * ReadyState,
                 if is_open c.2 then [(c.1, message)] else []) cs)
  = to_all cs message.
Proof.
  unfold to_all, open_clients. induction cs as [|[c rs] cs IH]; [done|].
  simpl. rewrite IH. rewrite filter_cons. simpl. unfold is_open.
  case_bool_decide; case_decide; done.
Qed.

Lemma concat_map_others ws (cs : list (Ws * ReadyState))
    (message : ServerMsg Num) :
  concat (map (λ c : Ws * ReadyState,
                 if bool_decide (Some c.1 ≠ Some ws) && is_open c.2
                 then [(c.1, message)] else []) cs)
  = to_others ws cs message.
Proof.
  unfold to_others, open_clients. induction cs as [|[c rs] cs IH]; [done|].
  simpl. rewrite IH. rewrite filter_cons. simpl. unfold is_open.
  case_bool_decide as H1; case_bool_decide as H2; case_decide; simpl;
    try done; rewrite ?filter_cons; try case_decide; simpl; try congruence; done.
Qed.

Lemma broadcast_all (message : ServerMsg Num) w :
  broadcast message None w
  = (Normal tt, add_outbox (to_all (wss_clients (server w)) message) w).
Proof.
  unfold broadcast, mbind, M_bind, bind, gets. simpl.
  rewrite (forEach_sends _
    (λ c : Ws * ReadyState, if is_open c.2 then [(c.1, message)] else [])).
  - by rewrite concat_map_open.
  - intros [c rs] w'. simpl.
    destruct (is_open rs); [done|]. by rewrite add_outbox_nil.
Qed.

Lemma broadcast_others (message : ServerMsg Num) ws w :
  broadcast message (Some ws) w
  = (Normal tt, add_outbox (to_others ws (wss_clients (server w)) message) w).
Proof.
  unfold broadcast, mbind, M_bind, bind, gets. simpl.
  rewrite (forEach_sends _
    (λ c : Ws * ReadyState,
       if bool_decide (Some c.1 ≠ Some ws) && is_open c.2
       then [(c.1, message)] else [])).
  - by rewrite concat_map_others.
  - intros [c rs] w'. simpl.
    destruct (bool_decide _ && is_open rs); [done|]. by rewrite add_outbox_nil.
Qed.

End MonadFacts.

(** ** The message handler, case by case *)

Section CaseFacts.
Context {Num : Type} `{RT : JSRuntime Num}.
Implicit Types w : World Num.
Implicit Types data : JSValue Num.

Lemma str_strict_eq_true s (v : JSValue Num) :
  str_strict_eq s v = true ↔ JStr s = v.
Proof.
  destruct v; simpl; try (split; [done | intros; discriminate]).
  rewrite bool_decide_eq_true. split; congruence.
Qed.

Lemma ownedb_true userId (strokeId : JSValue Num) (s : Stroke Num) :
  ownedb userId strokeId s = true ↔ owned_by userId strokeId s.
Proof.
  unfold ownedb, owned_by, opt_strict_eq.
  rewrite andb_true_iff, bool_decide_eq_true, str_strict_eq_true. done.
Qed.

(** The body of a message whose frame parsed to something other than
    [null]: the [switch] on its [type]. *)
Lemma message_body_parsed ws cl o (v : JSValue Num) w :
  nullish v = false →
  message_body ws cl o (Parsed v) w =
  let type := prop v "type" in
  let data := prop v "data" in
  let userId := connectedClients (server w) !! ws in
  (if str_strict_eq "draw-start" type then case_draw_start ws cl o userId data
   else if str_strict_eq "draw-continue" type then case_draw_continue ws userId data
   else if str_strict_eq "draw-end" type then case_draw_end data
   else if str_strict_eq "cursor-move" type then case_cursor_move ws userId data
   else if str_strict_eq "clear-canvas" type then case_clear_canvas
   else if str_strict_eq "chat-message" type then case_chat_message o userId data
   else if str_strict_eq "user-typing" type then case_user_typing ws userId data
   else console_log LogUnknownType) w.
Proof.
  intros Hv. unfold message_body. run_monad.
  by rewrite !(get_prop_ok v) by done.
Qed.

Lemma message_body_bad ws cl o (message : Inbound Num) w :
  match message with Unparseable => True | Parsed v => nullish v = true end →
  ∃ e, message_body ws cl o message w = (Throw e, w).
Proof.
  destruct message as [|v]; intros Hv; unfold message_body; run_monad.
  - by eexists.
  - rewrite get_prop_nullish by done. by eexists.
Qed.

Lemma draw_start_ok ws cl o userId data w :
  nullish data = false →
  case_draw_start ws cl o userId data w =
  let stroke :=
    mkStroke (uuid_a o) userId
             (js_or (prop data "color") (JStr (userColor cl)))
             (js_or (prop data "width") (JNum (num_of_Z 2)))
             [mkPoint (prop data "x") (prop data "y")] (now o) in
  (Normal tt,
   add_outbox (to_all (wss_clients (server w)) (MsgDrawStart stroke))
              (set_strokes (λ l, l ++ [stroke]) w)).
Proof.
  intros Hd. unfold case_draw_start. run_monad.
  rewrite !(get_prop_ok data) by done. simpl.
  set (stroke := mkStroke _ _ _ _ _ _).
  rewrite (forEach_sends _ (λ c : Ws * ReadyState,
    if is_open c.2 then [(c.1, MsgDrawStart stroke)] else [])).
  - by rewrite concat_map_open.
  - intros [c rs] w'. simpl. destruct (is_open rs); [done|].
    by rewrite add_outbox_nil.
Qed.

Lemma draw_start_nullish ws cl o userId data w :
  nullish data = true →
  case_draw_start ws cl o userId data w = (Throw TypeError, w).
Proof.
  intros Hd. unfold case_draw_start. run_monad.
  by rewrite get_prop_nullish by done.
Qed.

Lemma find_index_ownedb userId data ss w :
  nullish data = false →
  find_index (find_callback userId data) ss w =
  (Normal (fst <$> list_find (λ s, ownedb userId (prop data "strokeId") s = true) ss), w).
Proof.
  intros Hd. revert w. induction ss as [|s ss IH]; intros w; [done|].
  cbn [find_index list_find].
  assert (find_callback userId data s w =
          (Normal (ownedb userId (prop data "strokeId") s), w)) as Hcb.
  { unfold find_callback, ownedb.
    destruct (opt_strict_eq (stroke_userId s) userId); [|done].
    run_monad. by rewrite get_prop_ok by done. }
  unfold mbind, M_bind, bind. rewrite Hcb.
  destruct (ownedb userId (prop data "strokeId") s) eqn:Ho.
  - by rewrite decide_True by done.
  - rewrite decide_False by done. run_monad. rewrite IH.
    by destruct (list_find _ ss) as [[??]|].
Qed.

Lemma list_find_first_owned userId (strokeId : JSValue Num) (ss : list (Stroke Num)) i :
  first_owned userId strokeId ss i →
  fst <$> list_find (λ s, ownedb userId strokeId s = true) ss = Some i.
Proof.
  intros [(s & Hs & Ho) Hfirst].
  assert (list_find (λ s, ownedb userId strokeId s = true) ss = Some (i, s))
    as ->; [|done].
  apply list_find_Some. split_and!; [done|by apply ownedb_true|].
  intros j s' Hj Hlt Hb. apply ownedb_true in Hb. by eapply Hfirst.
Qed.

Lemma list_find_none_owned userId (strokeId : JSValue Num) (ss : list (Stroke Num)) :
  (∀ s, s ∈ ss → ¬ owned_by userId strokeId s) →
  fst <$> list_find (λ s, ownedb userId strokeId s = true) ss = None.
Proof.
  intros Hno.
  assert (list_find (λ s, ownedb userId strokeId s = true) ss = None)
    as ->; [|done].
  apply list_find_None, Forall_forall. intros s Hs Hb.
  apply ownedb_true in Hb. by eapply Hno.
Qed.

(** With nothing to read from, the search throws at the first stroke of
    the sender, and finds nothing when there is none. *)
Lemma find_index_nullish userId data ss w :
  nullish data = true →
  find_index (find_callback userId data) ss w =
  (if bool_decide (Exists (λ s, stroke_userId s = userId) ss)
   then Throw TypeError else Normal None, w).
Proof.
  intros Hd. revert w. induction ss as [|s ss IH]; intros w.
  - done.
  - cbn [find_index]. unfold mbind, M_bind, bind, find_callback at 1.
    unfold opt_strict_eq at 1.
    destruct (decide (stroke_userId s = userId)) as [Hu|Hu].
    + rewrite (bool_decide_eq_true_2 _ Hu). run_monad.
      rewrite get_prop_nullish by done.
      rewrite bool_decide_eq_true_2; [done|]. by left.
    + rewrite (bool_decide_eq_false_2 _ Hu). run_monad.
      rewrite IH. case_bool_decide as He.
      * rewrite bool_decide_eq_true_2; [done|]. by right.
      * rewrite bool_decide_eq_false_2; [done|].
        rewrite Exists_cons. tauto.
Qed.

Lemma case_draw_continue_unfold ws userId data w :
  case_draw_continue ws userId data w =
  match find_index (find_callback userId data)
                   (strokes (canvasState (server w))) w with
  | (Normal (Some i), w') =>
      (x ← get_prop data "x";
       y ← get_prop data "y";
       modify (set_strokes (alter (push_point (mkPoint x y)) i));;
       cs ← gets (λ w, wss_clients (server w));
       forEach cs (λ '(client, rs),
         if is_open rs
         then sid ← get_prop data "strokeId";
              x ← get_prop data "x";
              y ← get_prop data "y";
              send client (MsgDrawContinue sid x y)
         else ret tt)) w'
  | (Normal None, w') => (Normal tt, w')
  | (Throw e, w') => (Throw e, w')
  end.
Proof.
  unfold case_draw_continue. run_monad. unfold find_callback.
  destruct (find_index _ _ w) as [[[i|]|e] w']; done.
Qed.

Lemma draw_continue_found ws userId data w i :
  nullish data = false →
  first_owned userId (prop data "strokeId") (strokes (canvasState (server w))) i →
  case_draw_continue ws userId data w =
  (Normal tt,
   add_outbox
     (to_all (wss_clients (server w))
        (MsgDrawContinue (prop data "strokeId") (prop data "x") (prop data "y")))
     (set_strokes
        (alter (push_point (mkPoint (prop data "x") (prop data "y"))) i) w)).
Proof.
  intros Hd Hi. rewrite case_draw_continue_unfold.
  rewrite find_index_ownedb by done.
  rewrite (list_find_first_owned _ _ _ i) by done.
  run_monad. rewrite !(get_prop_ok data) by done. simpl.
  rewrite (forEach_sends _ (λ c : Ws * ReadyState,
    if is_open c.2
    then [(c.1, MsgDrawContinue (prop data "strokeId") (prop data "x")
                                (prop data "y"))]
    else [])).
  - by rewrite concat_map_open.
  - intros [c rs] w'. simpl. destruct (is_open rs).
    + by rewrite !(get_prop_ok data) by done.
    + by rewrite add_outbox_nil.
Qed.

Lemma draw_continue_not_found ws userId data w :
  nullish data = false →
  (∀ s, s ∈ strokes (canvasState (server w)) →
        ¬ owned_by userId (prop data "strokeId") s) →
  case_draw_continue ws userId data w = (Normal tt, w).
Proof.
  intros Hd Hno. rewrite case_draw_continue_unfold.
  rewrite find_index_ownedb by done.
  by rewrite list_find_none_owned by done.
Qed.

Lemma draw_continue_nullish ws userId data w :
  nullish data = true →
  ∃ r, case_draw_continue ws userId data w = (r, w).
Proof.
  intros Hd. rewrite case_draw_continue_unfold.
  rewrite find_index_nullish by done. case_bool_decide; by eexists.
Qed.

(** *** Programs that leave the server state alone *)

Lemma srv_pure_ret {A} (a : A) : srv_pure (@ret (World Num) A a).
Proof. done. Qed.

Lemma srv_pure_throw {A} e : srv_pure (@throw (World Num) A e).
Proof. done. Qed.

Lemma srv_pure_gets {A} (f : World Num → A) : srv_pure (gets f).
Proof. done. Qed.

Lemma srv_pure_bind {A B} (m : M (World Num) A) (k : A → M (World Num) B) :
  srv_pure m → (∀ a, srv_pure (k a)) → srv_pure (bind m k).
Proof.
  intros Hm Hk w. unfold bind. specialize (Hm w).
  destruct (m w) as [[a|e] w']; simpl in *; [|done].
  by rewrite Hk.
Qed.

Lemma srv_pure_mbind {A B} (m : M (World Num) A) (k : A → M (World Num) B) :
  srv_pure m → (∀ a, srv_pure (k a)) → srv_pure (m ≫= k).
Proof. apply srv_pure_bind. Qed.

Lemma srv_pure_send ws (message : ServerMsg Num) : srv_pure (send ws message).
Proof. done. Qed.

Lemma srv_pure_console_log l : srv_pure (@console_log Num l).
Proof. done. Qed.

Lemma srv_pure_get_prop (v : JSValue Num) k : srv_pure (get_prop v k).
Proof. by destruct v. Qed.

Lemma srv_pure_call_trim (v : JSValue Num) : srv_pure (call_trim v).
Proof. by destruct v. Qed.

Lemma srv_pure_forEach {A} (l : list A) (f : A → M (World Num) unit) :
  (∀ a, srv_pure (f a)) → srv_pure (forEach l f).
Proof.
  intros Hf. induction l as [|a l IH]; [done|].
  simpl. apply srv_pure_bind; [apply Hf | by intros _].
Qed.

Lemma srv_pure_if {A} (b : bool) (m1 m2 : M (World Num) A) :
  srv_pure m1 → srv_pure m2 → srv_pure (if b then m1 else m2).
Proof. by destruct b. Qed.

Lemma srv_pure_broadcast (message : ServerMsg Num) ex :
  srv_pure (broadcast message ex).
Proof.
  apply srv_pure_mbind; [apply srv_pure_gets|]. intros cs.
  apply srv_pure_forEach. intros [c rs].
  apply srv_pure_if; [apply srv_pure_send | apply srv_pure_ret].
Qed.

Lemma srv_pure_try_catch (m : M (World Num) unit) h :
  srv_pure m → (∀ e, srv_pure (h e)) → srv_pure (try_catch m h).
Proof.
  intros Hm Hh w. unfold try_catch. specialize (Hm w).
  destruct (m w) as [[a|e] w']; simpl in *; [done|].
  by rewrite Hh.
Qed.

Create HintDb srv_pure.
#[local] Hint Resolve srv_pure_ret srv_pure_throw srv_pure_gets srv_pure_mbind
  srv_pure_bind srv_pure_send srv_pure_console_log srv_pure_get_prop
  srv_pure_call_trim srv_pure_if srv_pure_broadcast : srv_pure.

Lemma srv_pure_draw_end data : srv_pure (case_draw_end data).
Proof.
  apply srv_pure_mbind; [apply srv_pure_gets|]. intros cs.
  apply srv_pure_forEach. intros [c rs]. auto 6 with srv_pure.
Qed.

Lemma srv_pure_chat_message o userId data :
  srv_pure (case_chat_message o userId data).
Proof.
  apply srv_pure_mbind; [apply srv_pure_gets|]. intros [u|]; [|apply srv_pure_ret].
  apply srv_pure_mbind; [apply srv_pure_get_prop|]. intros m.
  apply srv_pure_if; [|apply srv_pure_ret].
  apply srv_pure_mbind; [apply srv_pure_call_trim|]. intros t.
  apply srv_pure_if; [|apply srv_pure_ret].
  apply srv_pure_mbind; [apply srv_pure_get_prop|]. intros ts.
  apply srv_pure_mbind; [apply srv_pure_broadcast|]. intros _.
  apply srv_pure_console_log.
Qed.

Lemma srv_pure_user_typing ws userId data :
  srv_pure (case_user_typing ws userId data).
Proof. unfold case_user_typing. auto 6 with srv_pure. Qed.

(** *** The remaining cases *)

Lemma draw_end_ok data w :
  nullish data = false →
  case_draw_end data w =
  (Normal tt,
   add_outbox (to_all (wss_clients (server w)) (MsgDrawEnd (prop data "strokeId")))
              w).
Proof.
  intros Hd. unfold case_draw_end. run_monad.
  rewrite (forEach_sends _ (λ c : Ws * ReadyState,
    if is_open c.2 then [(c.1, MsgDrawEnd (prop data "strokeId"))] else [])).
  - by rewrite concat_map_open.
  - intros [c rs] w'. simpl. destruct (is_open rs).
    + by rewrite get_prop_ok by done.
    + by rewrite add_outbox_nil.
Qed.

Lemma clear_canvas_ok w :
  case_clear_canvas w =
  (Normal tt,
   add_outbox (to_all (wss_clients (server w)) MsgClearCanvas)
              (set_strokes (λ _, []) w)).
Proof.
  unfold case_clear_canvas. run_monad.
  rewrite (forEach_sends _ (λ c : Ws * ReadyState,
    if is_open c.2 then [(c.1, MsgClearCanvas)] else [])).
  - by rewrite concat_map_open.
  - intros [c rs] w'. simpl. destruct (is_open rs); [done|].
    by rewrite add_outbox_nil.
Qed.

Lemma cursor_move_unknown ws userId data w :
  users_get userId (users (canvasState (server w))) = None →
  case_cursor_move ws userId data w = (Normal tt, w).
Proof. intros Hu. unfold case_cursor_move. run_monad. by rewrite Hu. Qed.

Lemma cursor_move_ok ws k u data w :
  nullish data = false →
  JSMap.get k (users (canvasState (server w))) = Some u →
  case_cursor_move ws (Some k) data w =
  (Normal tt,
   add_outbox
     (to_others ws (wss_clients (server w))
        (MsgCursorMove (Some k) (prop data "x") (prop data "y") (user_color u)))
     (set_users
        (JSMap.alter (set_cursor (mkPoint (prop data "x") (prop data "y"))) k)
        w)).
Proof.
  intros Hd Hu. unfold case_cursor_move. run_monad. rewrite Hu.
  rewrite !(get_prop_ok data) by done. simpl.
  by rewrite broadcast_others.
Qed.

Lemma cursor_move_nullish ws userId data w :
  nullish data = true →
  ∃ r, case_cursor_move ws userId data w = (r, w).
Proof.
  intros Hd. unfold case_cursor_move. run_monad.
  destruct (users_get _ _) as [u|]; [|by eexists].
  destruct userId as [k|]; [|by eexists].
  rewrite get_prop_nullish by done. by eexists.
Qed.

End CaseFacts.

(** ** The message handler as a whole *)

Section MessageHandler.
Context {Num : Type} `{RT : JSRuntime Num}.
Implicit Types w : World Num.
Implicit Types data : JSValue Num.

Lemma nullish_envelope type data :
  nullish (JObj [("type", JStr type); ("data", data)] : JSValue Num) = false.
Proof. done. Qed.

Lemma on_message_envelope ws cl o type data w :
  on_message ws cl o (envelope type data) w =
  try_catch
    (let userId := connectedClients (server w) !! ws in
     if bool_decide ("draw-start" = type)
     then case_draw_start ws cl o userId data
     else if bool_decide ("draw-continue" = type)
     then case_draw_continue ws userId data
     else if bool_decide ("draw-end" = type) then case_draw_end data
     else if bool_decide ("cursor-move" = type)
     then case_cursor_move ws userId data
     else if bool_decide ("clear-canvas" = type) then case_clear_canvas
     else if bool_decide ("chat-message" = type)
     then case_chat_message o userId data
     else if bool_decide ("user-typing" = type)
     then case_user_typing ws userId data
     else console_log LogUnknownType)
    (λ error, console_log (LogParseError error)) w.
Proof.
  unfold on_message, envelope, try_catch.
  by rewrite message_body_parsed by apply nullish_envelope.
Qed.

(** Whatever the frame, the handler returns. *)
Lemma on_message_returns ws cl o (message : Inbound Num) w :
  (on_message ws cl o message w).1 = Normal tt.
Proof.
  unfold on_message, try_catch.
  by destruct (message_body ws cl o message w) as [[[]|e] w'].
Qed.

Lemma elem_of_to_all c (m message : ServerMsg Num) cs :
  (c, m) ∈ to_all cs message ↔ m = message ∧ (c, OPEN) ∈ cs.
Proof.
  unfold to_all, open_clients. rewrite list_elem_of_fmap. split.
  - intros (c' & [= -> ->] & Hin). split; [done|].
    apply list_elem_of_fmap in Hin as ([c2 rs] & -> & Hin).
    apply list_elem_of_filter in Hin as [Hrs Hin]. simpl in *. by subst.
  - intros [-> Hin]. exists c. split; [done|].
    apply list_elem_of_fmap. exists (c, OPEN). split; [done|].
    by apply list_elem_of_filter.
Qed.

Lemma elem_of_to_others c ws (m message : ServerMsg Num) cs :
  (c, m) ∈ to_others ws cs message ↔ m = message ∧ c ≠ ws ∧ (c, OPEN) ∈ cs.
Proof.
  unfold to_others, open_clients. rewrite list_elem_of_fmap. split.
  - intros (c' & [= -> ->] & Hin).
    apply list_elem_of_filter in Hin as [Hne Hin]. split_and!; [done..|].
    apply list_elem_of_fmap in Hin as ([c2 rs] & -> & Hin).
    apply list_elem_of_filter in Hin as [Hrs Hin]. simpl in *. by subst.
  - intros (-> & Hne & Hin). exists c. split; [done|].
    apply list_elem_of_filter. split; [done|].
    apply list_elem_of_fmap. exists (c, OPEN). split; [done|].
    by apply list_elem_of_filter.
Qed.

Lemma alter_push_point (p : Point Num) i (ss : list (Stroke Num)) s :
  ss !! i = Some s →
  alter (push_point p) i ss =
  <[i := mkStroke (stroke_id s) (stroke_userId s) (stroke_color s)
                  (stroke_width s) (stroke_points s ++ [p])
                  (stroke_timestamp s)]> ss.
Proof.
  intros Hs. apply list_eq. intros j. destruct (decide (j = i)) as [->|Hne].
  - rewrite list_lookup_alter, Hs, decide_True by done.
    rewrite list_lookup_insert_eq by by eapply lookup_lt_Some. reflexivity.
  - rewrite list_lookup_alter, decide_False by done.
    by rewrite list_lookup_insert_ne.
Qed.

(** C1 (as amended): a ['draw-continue'] appends its point to the first
    stroke that has the named id and is owned by the session the message
    is processed for: afterwards the strokes are the strokes before with,
    at that position, the same stroke with the point added at the end of
    its points; nothing else of the server state changes, and the
    continuation is written to every open socket.  When no stroke has
    that id and that owner, the handler returns with the server state
    unchanged and nothing sent. *)
Theorem draw_continue_by_owner ws cl o data w :
  let userId := connectedClients (server w) !! ws in
  let sid := prop data "strokeId" in
  let x := prop data "x" in
  let y := prop data "y" in
  let ss := strokes (canvasState (server w)) in
  let handled := on_message ws cl o (envelope "draw-continue" data) w in
  handled.1 = Normal tt
  ∧ (∀ i s, first_owned userId sid ss i → ss !! i = Some s →
       strokes (canvasState (server handled.2)) =
         <[i := mkStroke (stroke_id s) (stroke_userId s) (stroke_color s)
                         (stroke_width s) (stroke_points s ++ [mkPoint x y])
                         (stroke_timestamp s)]> ss
       ∧ users (canvasState (server handled.2)) = users (canvasState (server w))
       ∧ connectedClients (server handled.2) = connectedClients (server w)
       ∧ wss_clients (server handled.2) = wss_clients (server w)
       ∧ outbox handled.2 =
         outbox w ++ to_all (wss_clients (server w)) (MsgDrawContinue sid x y)
       ∧ ∀ c, (c, OPEN) ∈ wss_clients (server w) →
              (c, MsgDrawContinue sid x y) ∈ outbox handled.2)
  ∧ ((∀ s, s ∈ ss → ¬ owned_by userId sid s) →
     server handled.2 = server w ∧ outbox handled.2 = outbox w).
Proof.
  intros userId sid x y ss handled. split; [apply on_message_returns|].
  subst userId sid x y ss handled. split.
  - intros i s Hi Hs. rewrite on_message_envelope. unfold try_catch. simpl.
    assert (nullish data = false) as Hd.
    { destruct Hi as [(s0 & _ & _ & Hid) _]. by destruct data. }
    rewrite (draw_continue_found _ _ _ _ i) by done. simpl.
    split_and!; try done.
    + by apply alter_push_point.
    + intros c Hc. apply elem_of_app. right. by apply elem_of_to_all.
  - intros Hno.
    rewrite on_message_envelope. unfold try_catch. simpl.
    destruct (nullish data) eqn:Hd.
    + destruct (draw_continue_nullish ws
                  (connectedClients (server w) !! ws) data w Hd) as [r ->].
      by destruct r.
    + by rewrite draw_continue_not_found.
Qed.

(** C2 (as amended): a ['draw-start'] with a payload appends exactly one
    stroke: afterwards the strokes are the strokes before followed by a
    stroke whose points are the one point of the payload, whose id is the
    identifier the server generated, whose owner is the sender's session,
    and whose colour is the requested colour when that value is truthy and
    the colour assigned to the connection otherwise; nothing else of the
    server state changes, and the stroke is written to every open socket,
    the sender's included. *)
Theorem draw_start_appends_stroke ws cl o data w :
  nullish data = false →
  let handled := on_message ws cl o (envelope "draw-start" data) w in
  let stroke :=
    mkStroke (uuid_a o) (connectedClients (server w) !! ws)
             (if truthy (prop data "color") then prop data "color"
              else JStr (userColor cl))
             (if truthy (prop data "width") then prop data "width"
              else JNum (num_of_Z 2))
             [mkPoint (prop data "x") (prop data "y")] (now o) in
  handled.1 = Normal tt
  ∧ strokes (canvasState (server handled.2)) =
    strokes (canvasState (server w)) ++ [stroke]
  ∧ users (canvasState (server handled.2)) = users (canvasState (server w))
  ∧ connectedClients (server handled.2) = connectedClients (server w)
  ∧ wss_clients (server handled.2) = wss_clients (server w)
  ∧ outbox handled.2 =
    outbox w ++ to_all (wss_clients (server w)) (MsgDrawStart stroke)
  ∧ ∀ c, (c, OPEN) ∈ wss_clients (server w) →
         (c, MsgDrawStart stroke) ∈ outbox handled.2.
Proof.
  intros Hd handled stroke. subst handled stroke.
  rewrite on_message_envelope. unfold try_catch. simpl.
  rewrite draw_start_ok by done. simpl. split_and!; try done.
  intros c Hc. apply elem_of_app. right. by apply elem_of_to_all.
Qed.

(** C4: a ['clear-canvas'] processed when there is no stroke leaves the
    server state as it is and still sends ['clear-canvas'] to every open
    socket; clearing twice leaves the state of clearing once. *)
Theorem clear_canvas_idempotent ws cl o data w :
  let cleared := on_message ws cl o (envelope "clear-canvas" data) w in
  cleared.1 = Normal tt
  ∧ outbox cleared.2 =
    outbox w ++ to_all (wss_clients (server w)) MsgClearCanvas
  ∧ strokes (canvasState (server cleared.2)) = []
  ∧ (strokes (canvasState (server w)) = [] → server cleared.2 = server w)
  ∧ ∀ ws' cl' o' data',
      server (on_message ws' cl' o' (envelope "clear-canvas" data') cleared.2).2
      = server cleared.2.
Proof.
  intros cleared. subst cleared. rewrite on_message_envelope.
  unfold try_catch. simpl. rewrite clear_canvas_ok. simpl.
  split_and!; try done.
  - intros Hs. destruct w as [[[ss us] cc cs] ob co]. simpl in *. by subst.
  - intros ws' cl' o' data'. rewrite on_message_envelope.
    unfold try_catch. simpl. by rewrite clear_canvas_ok.
Qed.

(** C8: a ['cursor-move'] processed for a session that is not in the
    sessions map changes nothing and sends nothing; for a registered
    session it stores the position as the cursor of that session, leaving
    its id, connection id and colour, every other session, the strokes
    and the connections as they were, and writes the move to every open
    socket except the sender's. *)
Theorem cursor_move_registered_only ws cl o data w :
  let userId := connectedClients (server w) !! ws in
  let us := users (canvasState (server w)) in
  let handled := on_message ws cl o (envelope "cursor-move" data) w in
  let us' := users (canvasState (server handled.2)) in
  let x := prop data "x" in
  let y := prop data "y" in
  handled.1 = Normal tt
  ∧ (users_get userId us = None →
     server handled.2 = server w ∧ outbox handled.2 = outbox w)
  ∧ (nullish data = false →
     ∀ k u, userId = Some k → JSMap.get k us = Some u →
       JSMap.get k us'
       = Some (mkUserInfo (user_id u) (user_socketId u) (user_color u)
                          (mkPoint x y))
       ∧ (∀ k', k' ≠ k → JSMap.get k' us' = JSMap.get k' us)
       ∧ JSMap.keys us' = JSMap.keys us
       ∧ strokes (canvasState (server handled.2))
         = strokes (canvasState (server w))
       ∧ connectedClients (server handled.2) = connectedClients (server w)
       ∧ wss_clients (server handled.2) = wss_clients (server w)
       ∧ outbox handled.2 =
         outbox w
         ++ to_others ws (wss_clients (server w))
              (MsgCursorMove (Some k) x y (user_color u))
       ∧ (∀ c, c ≠ ws → (c, OPEN) ∈ wss_clients (server w) →
               (c, MsgCursorMove (Some k) x y (user_color u))
               ∈ outbox handled.2)
       ∧ ∀ c m, (c, m) ∈ outbox handled.2 → (c, m) ∉ outbox w → c ≠ ws).
Proof.
  intros userId us handled us' x y. split; [apply on_message_returns|].
  subst handled us' us x y.
  rewrite on_message_envelope. unfold try_catch. simpl. split.
  - intros Hu. by rewrite cursor_move_unknown.
  - intros Hd k u Hk Hu. fold userId. rewrite Hk.
    rewrite (cursor_move_ok _ _ u) by done. simpl. split_and!; try done.
    + by rewrite jsmap_get_alter, Hu.
    + intros k' Hne. by apply jsmap_get_alter_ne.
    + apply jsmap_keys_alter.
    + intros c Hne Hc. apply elem_of_app. right. by apply elem_of_to_others.
    + intros c m Hin Hnot.
      apply elem_of_app in Hin as [Hin|Hin]; [done|].
      by apply elem_of_to_others in Hin as (_ & Hne & _).
Qed.

(** C9: a frame that does not parse, or whose type the handler does not
    know, is dropped: the handler returns normally, the server state is
    unchanged and no frame is sent. *)
Theorem malformed_message_dropped ws cl o (message : Inbound Num) w :
  malformed message →
  let handled := on_message ws cl o message w in
  handled.1 = Normal tt
  ∧ server handled.2 = server w
  ∧ outbox handled.2 = outbox w.
Proof.
  intros Hbad handled. subst handled. split; [apply on_message_returns|].
  unfold on_message, try_catch.
  destruct message as [|v].
  - destruct (message_body_bad ws cl o Unparseable w I) as [e ->]. done.
  - destruct (nullish v) eqn:Hv.
    + destruct (message_body_bad ws cl o (Parsed v) w Hv) as [e ->]. done.
    + destruct Hbad as [Hbad|Hbad]; [congruence|].
      rewrite message_body_parsed by done. simpl.
      unfold recognized in Hbad. rewrite !orb_false_iff in Hbad.
      destruct Hbad as [[[[[[-> ->] ->] ->] ->] ->] ->]. done.
Qed.

End MessageHandler.

(** ** Connections and disconnections *)

Section Sessions.
Context {Num : Type} `{RT : JSRuntime Num}.
Implicit Types w : World Num.

(** The session record a connection creates. *)
Lemma on_connection_spec ws (o : Oracle Num) w :
  on_connection ws o w =
  let userInfo :=
    mkUserInfo (uuid_b o) (uuid_a o) (generateUserColor (random_index o))
               (mkPoint (JNum (num_of_Z 0)) (JNum (num_of_Z 0))) in
  let s := server w in
  let users' := JSMap.set (uuid_b o) userInfo (users (canvasState s)) in
  let direct :=
    if is_open (readyState_in ws (wss_clients s))
    then [(ws, MsgCanvasState (strokes (canvasState s)) (JSMap.values users'));
          (ws, MsgUserInfo userInfo)]
    else [] in
  (Normal (mkClosure (uuid_a o) (generateUserColor (random_index o))),
   mkWorld
     (mkServer (mkCanvasState (strokes (canvasState s)) users')
               (<[ws := uuid_b o]> (connectedClients s)) (wss_clients s))
     (outbox w ++ direct ++ to_others ws (wss_clients s) (MsgUserJoined userInfo))
     (console w ++ [LogUserConnected (uuid_a o)])).
Proof.
  unfold on_connection, sendToClient.
  unfold mbind, M_bind, mret, M_ret, bind, ret, gets, modify, send, console_log.
  cbn -[broadcast generateUserColor].
  destruct (is_open (readyState_in ws (wss_clients (server w)))) eqn:Hopen;
    cbn -[broadcast generateUserColor]; rewrite ?Hopen;
    cbn -[broadcast generateUserColor];
    rewrite broadcast_others; unfold add_outbox; simpl;
    by rewrite <- ?app_assoc.
Qed.

Lemma on_close_spec ws cl k w :
  connectedClients (server w) !! ws = Some k → k ≠ "" →
  on_close ws cl w =
  let s := server w in
  (Normal tt,
   mkWorld
     (mkServer (mkCanvasState (strokes (canvasState s))
                              (JSMap.delete k (users (canvasState s))))
               (delete ws (connectedClients s)) (wss_clients s))
     (outbox w ++ to_all (wss_clients s) (MsgUserLeft k))
     (console w ++ [LogUserDisconnected (connectionId cl)])).
Proof.
  intros Hk Hne. unfold on_close.
  unfold mbind, M_bind, mret, M_ret, bind, ret, gets, modify, send, console_log.
  cbn -[broadcast]. rewrite Hk. cbn -[broadcast].
  rewrite bool_decide_eq_false_2 by done. cbn -[broadcast].
  by rewrite broadcast_all.
Qed.

Lemma on_close_unregistered ws cl w :
  id_truthy (connectedClients (server w) !! ws) = false →
  on_close ws cl w =
  (Normal tt, add_console (LogUserDisconnected (connectionId cl)) w).
Proof.
  intros Hk. unfold on_close.
  unfold mbind, M_bind, mret, M_ret, bind, ret, gets, modify, send, console_log.
  cbn -[broadcast id_truthy].
  destruct (connectedClients (server w) !! ws) as [k|] eqn:E; [|done].
  by rewrite Hk.
Qed.

(** A close never touches the strokes and never throws. *)
Lemma on_close_effect ws cl w :
  ∃ w', on_close ws cl w = (Normal tt, w')
        ∧ strokes (canvasState (server w')) = strokes (canvasState (server w))
        ∧ (users (canvasState (server w')) = users (canvasState (server w))
           ∨ ∃ k, users (canvasState (server w'))
                  = JSMap.delete k (users (canvasState (server w)))).
Proof.
  destruct (id_truthy (connectedClients (server w) !! ws)) eqn:Hk.
  - destruct (connectedClients (server w) !! ws) as [k|] eqn:E; [|done].
    simpl in Hk. apply negb_true_iff, bool_decide_eq_false in Hk.
    rewrite (on_close_spec _ _ k) by done. eexists. split; [done|].
    simpl. split; [done|]. right. by exists k.
  - rewrite on_close_unregistered by done. eexists. split; [done|].
    split; [done|]. by left.
Qed.

End Sessions.

(** ** What a message can do to the server state *)

Section Effects.
Context {Num : Type} `{RT : JSRuntime Num}.
Implicit Types w : World Num.
Implicit Types data : JSValue Num.

Lemma effect_same log (s s' : Server Num) : s' = s → message_effect log s s'.
Proof. intros ->. split_and!; try done; by left. Qed.

(** A body that preserves the server state, under the handler's [catch]. *)
Lemma effect_srv_pure log (m : M (World Num) unit) w :
  srv_pure m →
  message_effect log (server w)
    (server (try_catch m (λ error, console_log (LogParseError error)) w).2).
Proof.
  intros Hm. apply effect_same.
  apply (srv_pure_try_catch _ _ Hm). intros e. apply srv_pure_console_log.
Qed.

(** A body that either throws or completes without touching the world. *)
Lemma effect_unchanged log (m : M (World Num) unit) w :
  (∃ r, m w = (r, w)) →
  message_effect log (server w)
    (server (try_catch m (λ error, console_log (LogParseError error)) w).2).
Proof.
  intros [r Hr]. apply effect_same. unfold try_catch. rewrite Hr.
  by destruct r.
Qed.

Lemma first_owned_of_find userId (strokeId : JSValue Num) ss i s :
  list_find (λ s, ownedb userId strokeId s = true) ss = Some (i, s) →
  first_owned userId strokeId ss i ∧ ss !! i = Some s ∧ stroke_userId s = userId.
Proof.
  intros (Hi & Ho & Hfirst)%list_find_Some.
  apply ownedb_true in Ho as Ho'. split_and!; [|done|by destruct Ho'].
  split; [by exists s|].
  intros j s' Hlt Hj Hown. apply ownedb_true in Hown. by eapply Hfirst.
Qed.

Lemma none_owned_of_find userId (strokeId : JSValue Num) ss :
  list_find (λ s, ownedb userId strokeId s = true) ss = None →
  ∀ s, s ∈ ss → ¬ owned_by userId strokeId s.
Proof.
  intros Hnone%list_find_None s Hs Hown. apply ownedb_true in Hown.
  rewrite Forall_forall in Hnone. by eapply Hnone.
Qed.

Lemma on_message_effect ws cl o (message : Inbound Num) w :
  message_effect (carried_point (connectedClients (server w) !! ws) message)
                 (server w) (server (on_message ws cl o message w).2).
Proof.
  unfold on_message. destruct message as [|v].
  { apply effect_unchanged.
    destruct (message_body_bad ws cl o Unparseable w I) as [e ->]. by eexists. }
  destruct (nullish v) eqn:Hv.
  { apply effect_unchanged.
    destruct (message_body_bad ws cl o (Parsed v) w Hv) as [e ->]. by eexists. }
  unfold try_catch. rewrite message_body_parsed by done.
  unfold carried_point. cbv zeta.
  set (type := prop v "type"). set (data := prop v "data").
  set (userId := connectedClients (server w) !! ws).
  destruct (str_strict_eq "draw-start" type) eqn:H1.
  { destruct (nullish data) eqn:Hd; simpl.
    - rewrite draw_start_nullish by done. by apply effect_same.
    - rewrite draw_start_ok by done. simpl. split_and!; [done|done|by left|].
      right; right; left. eexists _, _. split_and!; [done|done|].
      simpl. by apply list_elem_of_singleton. }
  destruct (str_strict_eq "draw-continue" type) eqn:H2.
  { destruct (nullish data) eqn:Hd; simpl.
    - destruct (draw_continue_nullish ws userId data w Hd) as [r ->].
      apply effect_same. by destruct r.
    - destruct (list_find (λ s, ownedb userId (prop data "strokeId") s = true)
                  (strokes (canvasState (server w)))) as [[i s]|] eqn:Hfind.
      + apply first_owned_of_find in Hfind as (Hfirst & Hi & Hown).
        rewrite (draw_continue_found _ _ _ _ i) by done. simpl.
        split_and!; [done|done|by left|].
        right; right; right. eexists i, s, _. split_and!; [done|done|].
        rewrite Hown. by apply list_elem_of_singleton.
      + rewrite draw_continue_not_found
          by (done || by apply none_owned_of_find).
        by apply effect_same. }
  destruct (str_strict_eq "draw-end" type) eqn:H3.
  { apply (effect_srv_pure _ _ w (srv_pure_draw_end data)). }
  destruct (str_strict_eq "cursor-move" type) eqn:H4.
  { destruct (nullish data) eqn:Hd.
    - destruct (cursor_move_nullish ws userId data w Hd) as [r ->].
      apply effect_same. by destruct r.
    - destruct (users_get userId (users (canvasState (server w)))) as [u|] eqn:Hu.
      + destruct userId as [k|] eqn:Hk; [|done]. simpl in Hu.
        rewrite (cursor_move_ok _ _ u) by done. simpl.
        split_and!; [done|done| |by left]. right. by eexists _, _.
      + rewrite cursor_move_unknown by done. simpl. by apply effect_same. }
  destruct (str_strict_eq "clear-canvas" type) eqn:H5.
  { rewrite clear_canvas_ok. simpl. rewrite andb_false_r.
    split_and!; [done|done|by left|]. right. by left. }
  destruct (str_strict_eq "chat-message" type) eqn:H6.
  { apply (effect_srv_pure _ _ w (srv_pure_chat_message o userId data)). }
  destruct (str_strict_eq "user-typing" type) eqn:H7.
  { apply (effect_srv_pure _ _ w (srv_pure_user_typing ws userId data)). }
  by apply effect_same.
Qed.

End Effects.

(** ** The advisory end of a stroke *)

Section Advisory.
Context {Num : Type} `{RT : JSRuntime Num}.
Implicit Types w : World Num.
Implicit Types data : JSValue Num.

Lemma first_owned_decide userId (sid : JSValue Num) (ss : list (Stroke Num)) :
  (∃ i s, first_owned userId sid ss i ∧ ss !! i = Some s)
  ∨ (∀ s, s ∈ ss → ¬ owned_by userId sid s).
Proof.
  destruct (list_find (λ s, ownedb userId sid s = true) ss)
    as [[i s]|] eqn:Hfind.
  - left. exists i, s. by apply first_owned_of_find in Hfind as (? & ? & _).
  - right. by apply none_owned_of_find.
Qed.

(** C3 (as amended): a ['draw-end'] leaves the server state (the
    strokes, the sessions, the connections) as it is, whatever its payload
    and whatever the state; a ['draw-continue'] processed after it is
    handled as it would have been without it, whoever sends it; and one
    processed for the owner of the stroke it names still appends its point
    to that stroke. *)
Theorem draw_end_is_advisory ws cl o dend w :
  let ended := on_message ws cl o (envelope "draw-end" dend) w in
  let w1 := ended.2 in
  let ss := strokes (canvasState (server w)) in
  ended.1 = Normal tt
  ∧ strokes (canvasState (server w1)) = ss
  ∧ users (canvasState (server w1)) = users (canvasState (server w))
  ∧ server w1 = server w
  ∧ ∀ ws' cl' o' data,
      let direct := on_message ws' cl' o' (envelope "draw-continue" data) w in
      let after := on_message ws' cl' o' (envelope "draw-continue" data) w1 in
      (after.1 = direct.1
       ∧ server after.2 = server direct.2
       ∧ ∃ new, outbox direct.2 = outbox w ++ new
                ∧ outbox after.2 = outbox w1 ++ new)
      ∧ ∀ i s,
          first_owned (connectedClients (server w) !! ws')
                      (prop data "strokeId") ss i →
          ss !! i = Some s →
          strokes (canvasState (server after.2)) =
          <[i := mkStroke (stroke_id s) (stroke_userId s) (stroke_color s)
                          (stroke_width s)
                          (stroke_points s
                           ++ [mkPoint (prop data "x") (prop data "y")])
                          (stroke_timestamp s)]> ss.
Proof.
  intros ended w1 ss.
  assert (server w1 = server w) as Hw1.
  { subst w1 ended. rewrite on_message_envelope. simpl.
    apply (srv_pure_try_catch _ _ (srv_pure_draw_end dend)).
    intros e. apply srv_pure_console_log. }
  split_and!; [apply on_message_returns|by rewrite Hw1..|done|].
  intros ws' cl' o' data direct after.
  assert (∀ i s,
    first_owned (connectedClients (server w) !! ws') (prop data "strokeId")
                ss i → ss !! i = Some s →
    direct = (Normal tt,
              add_outbox (to_all (wss_clients (server w))
                            (MsgDrawContinue (prop data "strokeId")
                               (prop data "x") (prop data "y")))
                (set_strokes
                   (alter (push_point (mkPoint (prop data "x") (prop data "y"))) i)
                   w))
    ∧ after = (Normal tt,
               add_outbox (to_all (wss_clients (server w))
                             (MsgDrawContinue (prop data "strokeId")
                                (prop data "x") (prop data "y")))
                 (set_strokes
                    (alter (push_point (mkPoint (prop data "x") (prop data "y"))) i)
                    w1))) as Hfound.
  { intros i s Hi Hs.
    assert (nullish data = false) as Hd.
    { destruct Hi as [(s0 & _ & _ & Hid) _]. by destruct data. }
    subst direct after. rewrite !on_message_envelope. unfold try_catch. simpl.
    rewrite (draw_continue_found _ _ _ w i) by done.
    rewrite (draw_continue_found _ _ _ w1 i) by (done || by rewrite Hw1).
    rewrite Hw1. split; reflexivity. }
  split.
  - destruct (first_owned_decide (connectedClients (server w) !! ws')
                (prop data "strokeId") ss) as [(i & s & Hi & Hs)|Hno].
    + destruct (Hfound i s Hi Hs) as [-> ->]. simpl. rewrite Hw1.
      split_and!; [done|done|]. by eexists.
    + subst direct after. rewrite !on_message_envelope. unfold try_catch.
      simpl. destruct (nullish data) eqn:Hd.
      * destruct (draw_continue_nullish ws'
                    (connectedClients (server w) !! ws') data w Hd) as [r ->].
        destruct (draw_continue_nullish ws'
                    (connectedClients (server w1) !! ws') data w1 Hd)
          as [r1 ->].
        destruct r as [[]|e], r1 as [[]|e1]; simpl; rewrite ?Hw1;
          (split_and!; [done|done|exists []; by rewrite !app_nil_r]).
      * rewrite (draw_continue_not_found _ _ _ w) by done.
        rewrite (draw_continue_not_found _ _ _ w1) by (done || by rewrite Hw1).
        split_and!; [done|done|exists []; by rewrite !app_nil_r].
  - intros i s Hi Hs. destruct (Hfound i s Hi Hs) as [_ ->]. simpl.
    rewrite Hw1. by apply alter_push_point.
Qed.

End Advisory.

(** ** The server over any sequence of events *)

Section Reachable.
Context {Num : Type} `{RT : JSRuntime Num}.
Implicit Types sys : System Num.
Implicit Types w : World Num.

Lemma step_crashed ev sys : crashed sys = true → step ev sys = sys.
Proof. intros H. unfold step. by rewrite H. Qed.

Lemma step_connection o sys :
  crashed sys = false →
  step (EvConnection o) sys =
  let ws := next_ws sys in
  let r := on_connection ws o (clients_add ws (world sys)) in
  mkSystem r.2
    (<[ws := mkClosure (uuid_a o) (generateUserColor (random_index o))]>
       (handlers sys))
    (S ws) false.
Proof. intros H. unfold step. rewrite H. by rewrite on_connection_spec. Qed.

Lemma step_message ws cl o (message : Inbound Num) sys :
  crashed sys = false → handlers sys !! ws = Some cl →
  step (EvMessage ws o message) sys =
  mkSystem (on_message ws cl o message (world sys)).2 (handlers sys)
           (next_ws sys) false.
Proof.
  intros H Hcl. unfold step. rewrite H, Hcl.
  pose proof (on_message_returns ws cl o message (world sys)) as Hr.
  destruct (on_message ws cl o message (world sys)) as [r w']. simpl in *.
  by subst r.
Qed.

Lemma step_close ws cl sys :
  crashed sys = false → handlers sys !! ws = Some cl →
  step (EvClose ws) sys =
  mkSystem (on_close ws cl (clients_delete ws (world sys))).2
           (delete ws (handlers sys)) (next_ws sys) false.
Proof.
  intros H Hcl. unfold step. rewrite H, Hcl.
  destruct (on_close_effect ws cl (clients_delete ws (world sys)))
    as (w' & -> & _). done.
Qed.

Lemma users_ok_set k (u : UserInfo Num) m :
  user_id u = k → users_ok m → users_ok (JSMap.set k u m).
Proof.
  intros Hk [Hwf Hid]. split; [by apply jsmap_wf_set|].
  by apply jsmap_Forall_set.
Qed.

Lemma users_ok_delete k (m : JSMap.t string (UserInfo Num)) :
  users_ok m → users_ok (JSMap.delete k m).
Proof.
  intros [Hwf Hid]. split; [by apply jsmap_wf_delete|].
  by apply jsmap_Forall_delete.
Qed.

Lemma users_ok_alter p k (m : JSMap.t string (UserInfo Num)) :
  users_ok m → users_ok (JSMap.alter (set_cursor p) k m).
Proof.
  intros [Hwf Hid]. split.
  - unfold JSMap.wf. by rewrite jsmap_keys_alter.
  - by apply jsmap_Forall_alter.
Qed.

(** Establish. *)
Lemma sys_inv_initial : sys_inv (@initial Num).
Proof.
  split_and!; [done| |by constructor].
  split; [apply NoDup_nil_2 | by constructor].
Qed.

(** Preserve. *)
Lemma sys_inv_step ev sys : sys_inv sys → sys_inv (step ev sys).
Proof.
  intros (Hc & Hu & Hws). destruct ev as [o|ws o message|ws|ws].
  - rewrite step_connection by done. cbv zeta.
    rewrite on_connection_spec. unfold sys_inv, users_of. simpl.
    split_and!; [done|by apply users_ok_set|].
    apply Forall_app. split.
    + eapply Forall_impl; [done|]. simpl. lia.
    + constructor; [simpl; lia|done].
  - destruct (handlers sys !! ws) as [cl|] eqn:Hcl.
    + rewrite (step_message _ cl) by done.
      destruct (on_message_effect ws cl o message (world sys))
        as (_ & Hcs & Husers & _).
      unfold sys_inv, users_of. simpl. split_and!; [done| |by rewrite Hcs].
      destruct Husers as [->|(p & k & ->)]; [done|by apply users_ok_alter].
    + unfold step. by rewrite Hc, Hcl.
  - unfold step. rewrite Hc. destruct (handlers sys !! ws); [|done].
    unfold sys_inv, users_of. simpl. split_and!; [done..|].
    apply Forall_fmap. eapply Forall_impl; [done|].
    intros [c0 rs0] Hlt. simpl in *. by case_decide.
  - destruct (handlers sys !! ws) as [cl|] eqn:Hcl.
    + rewrite (step_close _ cl) by done.
      assert (Forall (λ c, (c.1 < next_ws sys)%nat)
                (wss_clients (server (clients_delete ws (world sys))))) as Hws'.
      { simpl. rewrite Forall_forall in Hws. apply Forall_forall.
        intros x [_ Hx]%list_elem_of_filter. by apply Hws. }
      destruct (id_truthy (connectedClients (server (world sys)) !! ws)) eqn:Hk.
      * destruct (connectedClients (server (world sys)) !! ws) as [k|] eqn:E;
          [|done].
        simpl in Hk. apply negb_true_iff, bool_decide_eq_false in Hk.
        rewrite (on_close_spec _ _ k) by done.
        unfold sys_inv, users_of. simpl.
        split_and!; [done|by apply users_ok_delete|done].
      * rewrite on_close_unregistered by done. by split_and!.
    + unfold step. by rewrite Hc, Hcl.
Qed.

Lemma sys_inv_run evs sys : sys_inv sys → sys_inv (run evs sys).
Proof.
  revert sys. induction evs as [|ev evs IH]; intros sys Hinv; [done|].
  simpl. by apply IH, sys_inv_step.
Qed.

(** Use. *)
Lemma reachable_inv evs : sys_inv (run evs (@initial Num)).
Proof. apply sys_inv_run, sys_inv_initial. Qed.

Lemma readyState_in_fresh ws (cs : list (Ws * ReadyState)) :
  Forall (λ c, (c.1 < ws)%nat) cs → readyState_in ws (cs ++ [(ws, OPEN)]) = OPEN.
Proof.
  induction 1 as [|[c rs] cs Hc Hcs IH]; simpl.
  - by rewrite decide_True.
  - simpl in Hc. rewrite decide_False by lia. done.
Qed.

Lemma to_all_delete ws (cs : list (Ws * ReadyState)) (message : ServerMsg Num) :
  to_all (filter (λ c, c.1 ≠ ws) cs) message = to_others ws cs message.
Proof.
  unfold to_all, to_others, open_clients. f_equal.
  induction cs as [|[c rs] cs IH]; [done|].
  rewrite !filter_cons. simpl.
  destruct (decide (c ≠ ws)), (decide (rs = OPEN)); simpl;
    rewrite ?filter_cons; simpl;
    rewrite ?decide_True by done; rewrite ?decide_False by done;
    csimpl; rewrite ?filter_cons; simpl;
    rewrite ?decide_True by done; rewrite ?decide_False by done;
    by rewrite IH.
Qed.

End Reachable.

(** ** Provenance of points *)

Section Provenance.
Context {Num : Type} `{RT : JSRuntime Num}.
Implicit Types sys : System Num.

Lemma points_from_owner_mono log log' (ss : list (Stroke Num)) :
  points_from_owner log ss → points_from_owner (log ++ log') ss.
Proof. intros H s p Hs Hp. apply elem_of_app. left. by eapply H. Qed.

Lemma points_from_owner_effect log log' (ss ss' : list (Stroke Num)) :
  points_from_owner log ss → strokes_effect log' ss ss' →
  points_from_owner (log ++ log') ss'.
Proof.
  intros Hss [->|[->|[(st & p & -> & Hp & Hlog)|(i & st & p & Hi & -> & Hlog)]]].
  - by apply points_from_owner_mono.
  - intros s p Hs. by apply elem_of_nil in Hs.
  - intros s q [Hs|Hs]%elem_of_app Hq.
    + apply elem_of_app. left. by eapply Hss.
    + apply list_elem_of_singleton in Hs as ->. rewrite Hp in Hq.
      apply list_elem_of_singleton in Hq as ->. apply elem_of_app. by right.
  - intros s q Hs Hq. apply list_elem_of_lookup in Hs as [j Hj].
    rewrite list_lookup_alter in Hj. case_decide as Hij.
    + subst j. rewrite Hi in Hj. simpl in Hj. injection Hj as <-.
      simpl in *. apply elem_of_app in Hq as [Hq|Hq].
      * apply elem_of_app. left. eapply Hss; [|done].
        by eapply list_elem_of_lookup_2.
      * apply list_elem_of_singleton in Hq as ->. apply elem_of_app. by right.
    + apply elem_of_app. left. eapply Hss; [|done].
      by eapply list_elem_of_lookup_2.
Qed.

Lemma strokes_of_step ev sys :
  strokes_effect (submitted sys ev) (strokes_of sys) (strokes_of (step ev sys)).
Proof.
  destruct (crashed sys) eqn:Hc.
  { rewrite step_crashed by done. by left. }
  destruct ev as [o|ws o message|ws|ws].
  - rewrite step_connection by done. cbv zeta. rewrite on_connection_spec.
    by left.
  - simpl. destruct (handlers sys !! ws) as [cl|] eqn:Hcl.
    + rewrite (step_message _ cl) by done.
      by destruct (on_message_effect ws cl o message (world sys))
        as (_ & _ & _ & Hs).
    + unfold step. rewrite Hc, Hcl. by left.
  - unfold step. rewrite Hc. destruct (handlers sys !! ws); by left.
  - destruct (handlers sys !! ws) as [cl|] eqn:Hcl.
    + rewrite (step_close _ cl) by done.
      destruct (on_close_effect ws cl (clients_delete ws (world sys)))
        as (w' & -> & Hs & _).
      left. unfold strokes_of. simpl. by rewrite Hs.
    + unfold step. rewrite Hc, Hcl. by left.
Qed.

Lemma points_from_owner_run evs sys log :
  points_from_owner log (strokes_of sys) →
  points_from_owner (log ++ submissions evs sys) (strokes_of (run evs sys)).
Proof.
  revert sys log. induction evs as [|ev evs IH]; intros sys log Hlog; simpl.
  - by rewrite app_nil_r.
  - rewrite app_assoc. apply IH.
    eapply points_from_owner_effect; [done|apply strokes_of_step].
Qed.

(** C10: a ['draw-continue'] processed for a session that owns no stroke
    of the named id changes nothing and sends nothing, whoever is
    registered; and after any sequence of events every point of every
    stroke was submitted in a drawing message processed for the stroke's
    owner. *)
Theorem continue_only_by_owner evs ws cl o (data : JSValue Num) (w : World Num) :
  ((∀ s, s ∈ strokes (canvasState (server w)) →
         JStr (stroke_id s) = prop data "strokeId" →
         stroke_userId s ≠ connectedClients (server w) !! ws) →
   let handled := on_message ws cl o (envelope "draw-continue" data) w in
   server handled.2 = server w ∧ outbox handled.2 = outbox w)
  ∧ points_from_owner (submissions evs initial) (strokes_of (run evs initial)).
Proof.
  split.
  - intros Hother handled. subst handled.
    rewrite on_message_envelope. unfold try_catch. simpl.
    destruct (nullish data) eqn:Hd.
    + destruct (draw_continue_nullish ws (connectedClients (server w) !! ws)
                  data w Hd) as [r ->]. by destruct r.
    + rewrite draw_continue_not_found; [done..|].
      intros s Hs [Hu Hid]. by eapply Hother.
  - apply (points_from_owner_run evs initial []).
    intros s p Hs. by apply elem_of_nil in Hs.
Qed.

End Provenance.

(** ** Snapshots and disconnections *)

Section Snapshot.
Context {Num : Type} `{RT : JSRuntime Num}.
Implicit Types sys : System Num.
Implicit Types c : Client Num.

Lemma forEach_modify {S A} (f : A → S → S) (l : list A) (st : S) :
  forEach l (λ a, modify (f a)) st = (Normal tt, foldl (λ st a, f a st) st l).
Proof.
  revert st. induction l as [|a l IH]; intros st; [done|].
  simpl. unfold bind, modify at 1. by rewrite IH.
Qed.

Lemma bind_modify {S B} (f : S → S) (k : unit → M S B) (st : S) :
  bind (modify f) k st = k tt (f st).
Proof. done. Qed.

Lemma bind_forEach_modify {S A B} (f : A → S → S) (l : list A)
    (k : unit → M S B) (st : S) :
  bind (forEach l (λ a, modify (f a))) k st
  = k tt (foldl (λ st a, f a st) st l).
Proof. unfold bind at 1. by rewrite forEach_modify. Qed.

Lemma rebuild_users (acc m : JSMap.t string (UserInfo Num)) :
  JSMap.wf (acc ++ m) → Forall (λ e, user_id e.2 = e.1) m →
  foldl (λ acc u, JSMap.set (user_id u) u acc) acc (JSMap.values m) = acc ++ m.
Proof.
  revert acc. induction m as [|[k u] m IH]; intros acc Hwf Hid.
  - by rewrite app_nil_r.
  - apply Forall_cons in Hid as [Hk Hid]. simpl in Hk. csimpl. rewrite Hk.
    assert (k ∉ JSMap.keys acc) as Hfresh.
    { unfold JSMap.wf, JSMap.keys in *. rewrite fmap_app in Hwf.
      apply NoDup_app in Hwf as (_ & Hdisj & _). intros Hin.
      apply (Hdisj k Hin). csimpl. left. }
    rewrite jsmap_set_fresh by done.
    rewrite IH; [by rewrite <- app_assoc| |done].
    by rewrite <- app_assoc.
Qed.

Lemma fold_set_users (us : list (UserInfo Num)) c :
  foldl (λ st u, set_connectedUsers (JSMap.set (user_id u) u) st) c us
  = set_connectedUsers
      (λ m, foldl (λ acc u, JSMap.set (user_id u) u acc) m us) c.
Proof.
  revert c. induction us as [|u us IH]; intros c; simpl.
  - by destruct c.
  - by rewrite IH.
Qed.

(** The snapshot handler replaces the mirror, whatever the page. *)
Lemma handleCanvasState_mirror ss (us : list (UserInfo Num)) c :
  let c' := client_step (CeCanvasState ss us) c in
  canvasStrokes c' = ss
  ∧ connectedUsers c' =
    foldl (λ acc u, JSMap.set (user_id u) u acc) JSMap.empty us.
Proof.
  unfold client_step, onmessage_canvas_state, handleCanvasState, try_catch.
  unfold mbind, M_bind. rewrite !bind_modify, bind_forEach_modify.
  rewrite fold_set_users.
  unfold updateUserCount, redrawCanvas, mbind, M_bind, bind, gets, modify,
    throw, ret.
  cbn beta.
  match goal with |- context [el_userCount ?d] =>
    destruct (el_userCount d) end; done.
Qed.


(** C6: when a registered session closes, at any moment and so also
    between its ['draw-start'] and any ['draw-end'], its id leaves the
    sessions map while every other session stays, ['user-left'] naming it
    is written to every socket that is still open, and the strokes are as
    they were: every stroke, the ones it started included, is still there
    with the same points, colour and width. *)
Theorem disconnect_keeps_strokes (evs : list (Event Num)) ws cl uid :
  let sys := run evs initial in
  handlers sys !! ws = Some cl →
  connectedClients (server (world sys)) !! ws = Some uid →
  uid ≠ "" →
  let sys2 := step (EvClose ws) sys in
  strokes_of sys2 = strokes_of sys
  ∧ (∀ s, s ∈ strokes_of sys → stroke_userId s = Some uid →
          s ∈ strokes_of sys2)
  ∧ JSMap.get uid (users_of sys2) = None
  ∧ (∀ k, k ≠ uid → JSMap.get k (users_of sys2) = JSMap.get k (users_of sys))
  ∧ connectedClients (server (world sys2)) !! ws = None
  ∧ outbox (world sys2) =
    outbox (world sys)
    ++ to_others ws (wss_clients (server (world sys))) (MsgUserLeft uid)
  ∧ (∀ peer, peer ≠ ws → (peer, OPEN) ∈ wss_clients (server (world sys)) →
             (peer, MsgUserLeft uid) ∈ outbox (world sys2))
  ∧ crashed sys2 = false.
Proof.
  intros sys Hcl Huid Hne sys2.
  destruct (reachable_inv evs) as (Hc & [Hwf Hid] & Hws).
  fold sys in Hc, Hwf, Hid, Hws.
  subst sys2.
  rewrite (step_close _ cl) by done. simpl.
  rewrite (on_close_spec _ _ uid) by done.
  unfold strokes_of, users_of. simpl. rewrite to_all_delete.
  split_and!; try done.
  - by apply jsmap_get_delete.
  - intros k Hk. by apply jsmap_get_delete_ne.
  - apply lookup_delete_eq.
  - intros peer Hpeer Hopen. apply elem_of_app. right.
    by apply elem_of_to_others.
Qed.

End Snapshot.

(** ** The reconnection controller *)

Section Reconnect.
Context {Num : Type}.
Implicit Types c : Client Num.
Local Open Scope Z_scope.

Lemma attemptReconnect_below c :
  reconnectAttempts c < maxReconnectAttempts c →
  attemptReconnect c =
  (Normal tt,
   setTimeout (reconnectDelay c * 2 ^ (reconnectAttempts c + 1 - 1))
              (set_reconnectAttempts (reconnectAttempts c + 1) c)).
Proof.
  intros Hlt. unfold attemptReconnect, mbind, M_bind, bind, gets, modify.
  apply Z.ltb_lt in Hlt. by rewrite Hlt.
Qed.

Lemma attemptReconnect_capped c :
  ¬ reconnectAttempts c < maxReconnectAttempts c →
  attemptReconnect c = showConnectionError c.
Proof.
  intros Hge. unfold attemptReconnect, mbind, M_bind, bind, gets.
  apply Z.ltb_nlt in Hge. by rewrite Hge.
Qed.

Lemma showConnectionError_spec c :
  ∃ d, showConnectionError c = (Normal tt, set_dom (λ _, d) c)
       ∧ el_connectionStatus d = el_connectionStatus (dom c)
       ∧ el_connection_error d = error_shown (el_connection_error (dom c)).
Proof.
  unfold showConnectionError, mbind, M_bind, bind, gets, modify, ret.
  destruct (el_connection_error (dom c)) as [e|] eqn:He.
  - by eexists (mkDom _ _ _).
  - exists (dom c). split; [by destruct c|]. by rewrite He.
Qed.

Lemma updateConnectionStatus_ok connected c :
  is_Some (el_connectionStatus (dom c)) →
  ∃ badge,
    updateConnectionStatus connected c =
    (Normal tt,
     set_dom (λ d, mkDom (Some badge) (el_connection_error d) (el_userCount d)) c).
Proof.
  intros [b Hb].
  unfold updateConnectionStatus, mbind, M_bind, bind, gets, modify.
  rewrite Hb. by eexists.
Qed.

(** A connection loss below the cap: the counter goes up by one and one
    retry is scheduled. *)
Lemma close_below c :
  client_inv c → reconnectAttempts c < 10 →
  let c' := client_step CeClose c in
  client_inv c'
  ∧ reconnectAttempts c' = reconnectAttempts c + 1
  ∧ timeouts c' = timeouts c ++ [1000 * 2 ^ (reconnectAttempts c' - 1)]
  ∧ el_connection_error (dom c') = el_connection_error (dom c).
Proof.
  intros (Hmax & Hdelay & Hrange & Hstatus) Hlt.
  unfold client_step, onclose, mbind, M_bind, bind.
  destruct (updateConnectionStatus_ok false c Hstatus) as [badge ->].
  rewrite attemptReconnect_below by (simpl; lia). simpl.
  rewrite Hdelay. unfold client_inv. simpl. split_and!; first [done | lia].
Qed.

(** A connection loss at the cap: nothing is scheduled, the banner shows. *)
Lemma close_capped c :
  client_inv c → reconnectAttempts c = 10 →
  let c' := client_step CeClose c in
  client_inv c'
  ∧ reconnectAttempts c' = 10
  ∧ timeouts c' = timeouts c
  ∧ el_connection_error (dom c') = error_shown (el_connection_error (dom c)).
Proof.
  intros (Hmax & Hdelay & Hrange & Hstatus) Hcap.
  unfold client_step, onclose, mbind, M_bind, bind.
  destruct (updateConnectionStatus_ok false c Hstatus) as [badge ->].
  rewrite attemptReconnect_capped by (simpl; lia).
  destruct (showConnectionError_spec
    (set_dom (λ d, mkDom (Some badge) (el_connection_error d) (el_userCount d)) c))
    as (d & -> & Hst & Herr).
  unfold client_inv. simpl in *. rewrite Hst.
  split_and!; first [done | lia].
Qed.

Lemma open_resets c :
  client_inv c →
  let c' := client_step CeOpen c in
  client_inv c' ∧ reconnectAttempts c' = 0 ∧ timeouts c' = timeouts c
  ∧ el_connection_error (dom c') = el_connection_error (dom c).
Proof.
  intros (Hmax & Hdelay & Hrange & Hstatus).
  unfold client_step, onopen, mbind, M_bind. rewrite bind_modify.
  destruct (updateConnectionStatus_ok true (set_reconnectAttempts 0 c) Hstatus)
    as [badge ->].
  unfold client_inv. simpl. split_and!; first [done | lia].
Qed.

(** The counter is reset before the badge is touched: it is reset on any
    page. *)
Lemma open_resets_any c : reconnectAttempts (client_step CeOpen c) = 0.
Proof.
  unfold client_step, onopen, mbind, M_bind. rewrite bind_modify.
  unfold updateConnectionStatus, mbind, M_bind, bind, gets, modify, throw.
  by destruct (el_connectionStatus (dom (set_reconnectAttempts 0 c))).
Qed.

Lemma timeout_created c : client_step (CeTimeout true) c = c.
Proof. done. Qed.

Lemma client_inv_step (ev : ClientEvent Num) c :
  client_inv c → client_inv (client_step ev c).
Proof.
  intros Hinv. destruct ev as [| | |created|ss us].
  - by apply open_resets.
  - destruct (decide (reconnectAttempts c < 10)) as [Hlt|Hge].
    + by apply close_below.
    + apply close_capped; [done|]. destruct Hinv as (_ & _ & ? & _). lia.
  - destruct Hinv as (Hmax & Hdelay & Hrange & Hstatus).
    unfold client_step, onerror.
    destruct (updateConnectionStatus_ok false c Hstatus) as [badge ->].
    unfold client_inv. simpl. split_and!; first [done | lia].
  - destruct created; [done|].
    destruct Hinv as (Hmax & Hdelay & Hrange & Hstatus).
    unfold client_step, connectWebSocket, try_catch, throw.
    destruct (decide (reconnectAttempts c < 10)) as [Hlt|Hge].
    + rewrite attemptReconnect_below by lia. unfold client_inv. simpl.
      split_and!; first [done | lia].
    + rewrite attemptReconnect_capped by lia.
      destruct (showConnectionError_spec c) as (d & -> & Hst & Herr).
      unfold client_inv. simpl. rewrite Hst. split_and!; first [done | lia].
  - destruct Hinv as (Hmax & Hdelay & Hrange & Hstatus).
    unfold client_step, onmessage_canvas_state, handleCanvasState, try_catch.
    unfold mbind, M_bind. rewrite !bind_modify, bind_forEach_modify.
    rewrite fold_set_users.
    unfold updateUserCount, redrawCanvas, mbind, M_bind, bind, gets, modify,
      throw, ret.
    cbn beta.
    match goal with |- context [el_userCount ?d] =>
      destruct (el_userCount d) end; unfold client_inv; simpl;
      split_and!; first [done | lia].
Qed.

Lemma client_inv_run (evs : list (ClientEvent Num)) c :
  client_inv c → client_inv (client_run evs c).
Proof.
  revert c. induction evs as [|ev evs IH]; intros c Hinv; [done|].
  simpl. by apply IH, client_inv_step.
Qed.

Lemma client_inv_constructed page created :
  is_Some (el_connectionStatus page) →
  client_inv (@constructed Num page created).
Proof.
  intros Hpage. unfold constructed.
  apply (client_inv_step (CeTimeout created)).
  unfold client_inv. simpl. split_and!; first [done | lia].
Qed.

Lemma backoff_S a n : backoff a (S n) = 1000 * 2 ^ a :: backoff (a + 1) n.
Proof.
  unfold backoff. simpl. rewrite Z.add_0_r. f_equal.
  rewrite <- seq_shift, map_map. apply map_ext. intros i.
  do 2 f_equal. lia.
Qed.

Lemma losses_S n c : losses (S n) c = losses n (client_step CeClose c).
Proof. done. Qed.

Lemma losses_add n k c : losses (n + k) c = losses k (losses n c).
Proof.
  unfold losses, client_run. by rewrite replicate_add, concat_app, foldl_app.
Qed.

(** Below the cap every loss schedules the next delay of the sequence. *)
Lemma losses_below n c a :
  client_inv c → reconnectAttempts c = a → a + Z.of_nat n ≤ 10 →
  let c' := losses n c in
  client_inv c'
  ∧ reconnectAttempts c' = a + Z.of_nat n
  ∧ timeouts c' = timeouts c ++ backoff a n
  ∧ el_connection_error (dom c') = el_connection_error (dom c).
Proof.
  revert c a. induction n as [|n IH]; intros c a Hinv Ha Hle.
  - change (losses 0 c) with c. unfold backoff. simpl. rewrite app_nil_r.
    split_and!; [done|lia|done|done].
  - rewrite losses_S.
    destruct (close_below c Hinv) as (Hinv1 & Ha1 & Ht1 & He1); [lia|].
    destruct (IH (client_step CeClose c) (a + 1) Hinv1) as (Hinv' & Ha' & Ht' & He');
      [lia|lia|].
    cbv zeta in *. split_and!; [done|lia| |congruence].
    rewrite Ht', Ht1, Ha1, Ha, backoff_S, <- app_assoc. simpl.
    by replace (a + 1 - 1) with a by lia.
Qed.

Lemma error_shown_twice e : error_shown (error_shown e) = error_shown e.
Proof. by destruct e. Qed.

(** At the cap nothing more is scheduled, however many losses follow. *)
Lemma losses_capped n c :
  client_inv c → reconnectAttempts c = 10 →
  let c' := losses n c in
  client_inv c'
  ∧ reconnectAttempts c' = 10
  ∧ timeouts c' = timeouts c
  ∧ el_connection_error (dom c') =
    match n with
    | O => el_connection_error (dom c)
    | S _ => error_shown (el_connection_error (dom c))
    end.
Proof.
  revert c. induction n as [|n IH]; intros c Hinv Ha.
  { change (losses 0 c) with c. by split_and!. }
  rewrite losses_S.
  destruct (close_capped c Hinv Ha) as (Hinv1 & Ha1 & Ht1 & He1).
  destruct (IH (client_step CeClose c) Hinv1 Ha1) as (Hinv' & Ha' & Ht' & He').
  cbv zeta in *. split_and!; [done|done|congruence|].
  rewrite He', He1. destruct n; [done|apply error_shown_twice].
Qed.

(** C7: after the constructor and any events, once a connection has
    opened the attempt counter is 0.  On a page that has the status badge,
    the cap is 10 and the base delay 1000 ms; of the connection losses
    that follow in a row, the k-th (k = 1..10) raises the counter to k and
    schedules a retry after 1000 * 2^(k-1) ms; every loss after the tenth
    leaves the counter at 10, schedules nothing and shows the connection
    error banner where the page has one. *)
Theorem reconnect_backoff page created (evs : list (ClientEvent Num)) (n : nat) :
  let c := client_step CeOpen (client_run evs (constructed page created)) in
  let failed := losses n c in
  reconnectAttempts c = 0
  ∧ (is_Some (el_connectionStatus page) →
     maxReconnectAttempts failed = 10
     ∧ reconnectDelay failed = 1000
     ∧ ((n ≤ 10)%nat →
        reconnectAttempts failed = Z.of_nat n
        ∧ timeouts failed =
          timeouts c ++ map (λ i, 1000 * 2 ^ Z.of_nat i) (seq 0 n)
        ∧ el_connection_error (dom failed) = el_connection_error (dom c))
     ∧ ((10 < n)%nat →
        reconnectAttempts failed = 10
        ∧ timeouts failed =
          timeouts c ++ map (λ i, 1000 * 2 ^ Z.of_nat i) (seq 0 10)
        ∧ el_connection_error (dom failed)
          = error_shown (el_connection_error (dom c)))).
Proof.
  intros c failed. split; [apply open_resets_any|]. intros Hpage.
  assert (client_inv c ∧ reconnectAttempts c = 0) as [Hinv H0].
  { destruct (open_resets (client_run evs (constructed page created)))
      as (? & ? & _); [|done].
    by apply client_inv_run, client_inv_constructed. }
  assert (client_inv failed) as (Hmax & Hdelay & _).
  { by apply (client_inv_run (concat (replicate n [CeClose; CeTimeout true]))). }
  split_and!; [done..| |].
  - intros Hn.
    destruct (losses_below n c 0 Hinv H0) as (_ & Ha & Ht & He); [lia|].
    split_and!; [exact Ha|exact Ht|exact He].
  - intros Hn. subst failed. clear Hmax Hdelay.
    replace n with (10 + S (n - 11))%nat by lia.
    rewrite losses_add.
    destruct (losses_below 10 c 0 Hinv H0) as (Hinv10 & Ha10 & Ht10 & He10);
      [lia|].
    destruct (losses_capped (S (n - 11)) (losses 10 c) Hinv10)
      as (_ & Ha & Ht & He); [by rewrite Ha10|].
    cbv zeta in *. split_and!; [done| |by rewrite He, He10].
    rewrite Ht. exact Ht10.
Qed.

End Reconnect.

(** ** The statements at work *)

Lemma ex_sys_strokes : strokes_of ex_sys = [ex_stroke].
Proof. vm_compute. reflexivity. Qed.

Lemma ex_sys_owner : connectedClients (server (world ex_sys)) !! 0%nat = Some "user-a".
Proof. vm_compute. reflexivity. Qed.

Lemma ex_sys_other : connectedClients (server (world ex_sys)) !! 1%nat = Some "user-b".
Proof. vm_compute. reflexivity. Qed.

Lemma ex_first_owned :
  first_owned (connectedClients (server (world ex_sys)) !! 0%nat)
              (prop ex_continue "strokeId")
              (strokes (canvasState (server (world ex_sys)))) 0.
Proof.
  rewrite ex_sys_owner. change (strokes _) with (strokes_of ex_sys).
  rewrite ex_sys_strokes. split.
  - exists ex_stroke. by split.
  - intros j s' Hj. lia.
Qed.

Lemma ex_joined_handler : handlers (run ex_joined (@initial Z)) !! 0%nat = Some ex_clA.
Proof. vm_compute. reflexivity. Qed.

Lemma ex_joined_owner :
  connectedClients (server (world (run ex_joined (@initial Z)))) !! 0%nat
  = Some "user-a".
Proof. vm_compute. reflexivity. Qed.

Lemma ex_sys_lookup : strokes (canvasState (server (world ex_sys))) !! 0%nat = Some ex_stroke.
Proof. vm_compute. reflexivity. Qed.

(** The owner continues its stroke: the stroke has two points and both
    sockets are told. *)
Lemma draw_continue_by_owner_witness :
  let handled := on_message 0%nat ex_clA ex_oS
                            (envelope "draw-continue" ex_continue)
                            (world ex_sys) in
  strokes (canvasState (server handled.2)) = [ex_stroke2]
  ∧ outbox handled.2 =
    outbox (world ex_sys)
    ++ [(0%nat, MsgDrawContinue (JStr "stroke-1") (JNum 11%Z) (JNum 12%Z));
        (1%nat, MsgDrawContinue (JStr "stroke-1") (JNum 11%Z) (JNum 12%Z))].
Proof.
  destruct (draw_continue_by_owner 0%nat ex_clA ex_oS ex_continue
              (world ex_sys)) as (_ & Hfound & _).
  destruct (Hfound 0%nat ex_stroke ex_first_owned ex_sys_lookup)
    as (Hstrokes & _ & _ & _ & Hout & _).
  split.
  - etrans; [exact Hstrokes|]. vm_compute. reflexivity.
  - etrans; [exact Hout|]. f_equal; vm_compute; reflexivity.
Defined.

(** C1, as stated, fails: the stroke named exists and its owner is
    registered, yet a ['draw-continue'] processed for the other registered
    session appends nothing and sends nothing. *)
Lemma draw_continue_other_session_counterexample :
  strokes_of ex_sys = [ex_stroke]
  ∧ is_Some (JSMap.get "user-a" (users_of ex_sys))
  ∧ connectedClients (server (world ex_sys)) !! 1%nat = Some "user-b"
  ∧ is_Some (JSMap.get "user-b" (users_of ex_sys))
  ∧ on_message 1%nat ex_clB ex_oS (envelope "draw-continue" ex_continue)
               (world ex_sys)
    = (Normal tt, world ex_sys).
Proof.
  split_and!; [apply ex_sys_strokes| |apply ex_sys_other| |].
  - vm_compute. by eexists.
  - vm_compute. by eexists.
  - vm_compute. reflexivity.
Qed.

(** A stroke begun in red is stored and sent in red. *)
Lemma draw_start_appends_stroke_witness :
  let handled := on_message 0%nat ex_clA ex_oS (envelope "draw-start" ex_begin)
                            (world (run ex_joined initial)) in
  strokes (canvasState (server handled.2)) = [ex_stroke]
  ∧ outbox handled.2 =
    outbox (world (run ex_joined initial))
    ++ [(0%nat, MsgDrawStart ex_stroke); (1%nat, MsgDrawStart ex_stroke)].
Proof.
  destruct (draw_start_appends_stroke 0%nat ex_clA ex_oS ex_begin
              (world (run ex_joined initial)) eq_refl)
    as (_ & Hstrokes & _ & _ & _ & Hout & _).
  split.
  - etrans; [exact Hstrokes|]. vm_compute. reflexivity.
  - etrans; [exact Hout|]. f_equal; vm_compute; reflexivity.
Defined.

(** C2, as stated, fails: a ['draw-start'] that requests the empty
    string as its colour yields a stroke in the colour of the connection. *)
Lemma draw_start_empty_colour_counterexample :
  prop ex_begin_no_colour "color" = JStr ""
  ∧ strokes_of (step (EvMessage 0%nat ex_oS
                        (envelope "draw-start" ex_begin_no_colour))
                     (run ex_joined initial))
    = [mkStroke "stroke-1" (Some "user-a") (JStr "#FF6B6B") (JNum 3%Z)
                [mkPoint (JNum 10%Z) (JNum 10%Z)] 3000%Z]
  ∧ JStr "#FF6B6B" ≠ prop ex_begin_no_colour "color".
Proof. split_and!; [reflexivity|vm_compute; reflexivity|discriminate]. Qed.

(** The stroke is continued by its owner after its ['draw-end']. *)
Lemma draw_end_is_advisory_witness :
  let w1 := (on_message 0%nat ex_clA ex_oS (envelope "draw-end" ex_end)
                        (world ex_sys)).2 in
  let w2 := (on_message 0%nat ex_clA ex_oS
                        (envelope "draw-continue" ex_continue) w1).2 in
  strokes (canvasState (server w1)) = [ex_stroke]
  ∧ strokes (canvasState (server w2)) = [ex_stroke2].
Proof.
  destruct (draw_end_is_advisory 0%nat ex_clA ex_oS ex_end (world ex_sys))
    as (_ & Hsame & _ & _ & Hcontinue).
  destruct (Hcontinue 0%nat ex_clA ex_oS ex_continue) as [_ Hfound].
  split.
  - etrans; [exact Hsame|]. exact ex_sys_strokes.
  - etrans; [exact (Hfound 0%nat ex_stroke ex_first_owned ex_sys_lookup)|].
    vm_compute. reflexivity.
Defined.

(** C3, as stated, fails: after the ['draw-end'] a ['draw-continue'] for
    the same stroke id, processed for the other registered session,
    appends nothing. *)
Lemma draw_end_then_other_session_counterexample :
  let w1 := (on_message 0%nat ex_clA ex_oS (envelope "draw-end" ex_end)
                        (world ex_sys)).2 in
  let w2 := (on_message 1%nat ex_clB ex_oS
                        (envelope "draw-continue" ex_continue) w1).2 in
  prop ex_end "strokeId" = prop ex_continue "strokeId"
  ∧ strokes (canvasState (server w1)) = [ex_stroke]
  ∧ JStr (stroke_id ex_stroke) = prop ex_continue "strokeId"
  ∧ strokes (canvasState (server w2)) = [ex_stroke]
  ∧ stroke_points ex_stroke = [mkPoint (JNum 10%Z) (JNum 10%Z)]
  ∧ outbox w2 = outbox w1.
Proof. split_and!; vm_compute; reflexivity. Qed.

(** Clearing the canvas of two sessions that have drawn nothing. *)
Lemma clear_canvas_idempotent_witness :
  let cleared := on_message 0%nat ex_clA ex_oS (envelope "clear-canvas" (JObj []))
                            (world (run ex_joined initial)) in
  server cleared.2 = server (world (run ex_joined initial))
  ∧ outbox cleared.2 =
    outbox (world (run ex_joined initial))
    ++ [(0%nat, MsgClearCanvas); (1%nat, MsgClearCanvas)].
Proof.
  destruct (clear_canvas_idempotent 0%nat ex_clA ex_oS (JObj [])
              (world (run ex_joined initial)))
    as (_ & Hout & _ & Hsame & _).
  split; [by apply Hsame|exact Hout].
Defined.

Lemma ex_in_progress_handler :
  handlers (run ex_in_progress (@initial Z)) !! 0%nat = Some ex_clA.
Proof. vm_compute. reflexivity. Qed.

Lemma ex_in_progress_owner :
  connectedClients (server (world (run ex_in_progress (@initial Z)))) !! 0%nat
  = Some "user-a".
Proof. vm_compute. reflexivity. Qed.

(** The first session closes while its stroke of two points is in
    progress. *)
Lemma disconnect_keeps_strokes_witness :
  let sys := run ex_in_progress initial in
  let sys2 := step (EvClose 0%nat) sys in
  strokes_of sys2 = [ex_stroke2]
  ∧ JSMap.get "user-a" (users_of sys2) = None
  ∧ JSMap.keys (users_of sys2) = ["user-b"]
  ∧ outbox (world sys2) = outbox (world sys) ++ [(1%nat, MsgUserLeft "user-a")].
Proof.
  destruct (disconnect_keeps_strokes ex_in_progress 0%nat ex_clA "user-a"
              ex_in_progress_handler ex_in_progress_owner
              ltac:(discriminate))
    as (Hkept & _ & Hgone & _ & _ & Hleft & _).
  split_and!.
  - etrans; [exact Hkept|]. vm_compute. reflexivity.
  - exact Hgone.
  - vm_compute. reflexivity.
  - etrans; [exact Hleft|]. f_equal; vm_compute; reflexivity.
Defined.

(** Three losses in a row after a connection. *)
Lemma reconnect_backoff_witness :
  let c := client_step CeOpen (@constructed Z ex_page true) in
  reconnectAttempts (losses 3 c) = 3%Z
  ∧ timeouts (losses 3 c) = [1000; 2000; 4000]%Z.
Proof.
  destruct (reconnect_backoff ex_page true ([] : list (ClientEvent Z)) 3)
    as [_ Hpage].
  destruct Hpage as (_ & _ & Hbelow & _); [by eexists|].
  destruct Hbelow as (Hattempts & Htimeouts & _); [lia|].
  split; [exact Hattempts|exact Htimeouts].
Defined.

(** The first session moves its cursor: the position is stored and only
    the second is told. *)
Lemma cursor_move_registered_only_witness :
  let handled := on_message 0%nat ex_clA ex_oS (envelope "cursor-move" ex_cursor)
                            (world ex_sys) in
  JSMap.get "user-a" (users (canvasState (server handled.2)))
  = Some (mkUserInfo "user-a" "conn-a" "#FF6B6B"
                     (mkPoint (JNum 5%Z) (JNum 6%Z)))
  ∧ outbox handled.2
    = outbox (world ex_sys)
      ++ [(1%nat, MsgCursorMove (Some "user-a") (JNum 5%Z) (JNum 6%Z) "#FF6B6B")].
Proof.
  destruct (cursor_move_registered_only 0%nat ex_clA ex_oS ex_cursor
              (world ex_sys)) as (_ & _ & Hreg).
  destruct (Hreg eq_refl "user-a"
              (mkUserInfo "user-a" "conn-a" "#FF6B6B"
                          (mkPoint (JNum 0%Z) (JNum 0%Z)))
              ex_sys_owner ltac:(vm_compute; reflexivity))
    as (Hget & _ & _ & _ & _ & _ & Hout & _).
  split; [exact Hget|]. etrans; [exact Hout|]. f_equal; vm_compute; reflexivity.
Defined.

(** A frame that is not JSON is dropped. *)
Lemma malformed_message_dropped_witness :
  let handled := on_message 0%nat ex_clA ex_oS Unparseable (world ex_sys) in
  handled.1 = Normal tt
  ∧ server handled.2 = server (world ex_sys)
  ∧ outbox handled.2 = outbox (world ex_sys).
Proof.
  exact (malformed_message_dropped 0%nat ex_clA ex_oS Unparseable
           (world ex_sys) I).
Defined.

(** The second session cannot continue the stroke of the first. *)
Lemma continue_only_by_owner_witness :
  let handled := on_message 1%nat ex_clB ex_oS
                            (envelope "draw-continue" ex_continue)
                            (world ex_sys) in
  (server handled.2 = server (world ex_sys)
   ∧ outbox handled.2 = outbox (world ex_sys))
  ∧ points_from_owner (submissions ex_trace initial) (strokes_of ex_sys).
Proof.
  destruct (continue_only_by_owner ex_trace 1%nat ex_clB ex_oS ex_continue
              (world ex_sys)) as [Hother Hprov].
  split; [|exact Hprov]. apply Hother.
  intros s Hs _. change (strokes _) with (strokes_of ex_sys) in Hs.
  rewrite ex_sys_strokes in Hs. apply list_elem_of_singleton in Hs as ->.
  intros Heq. cut (Some "user-a" = Some "user-b"); [discriminate|].
  etrans; [exact Heq|exact ex_sys_other].
Defined.

(** ** Every path through the message handler *)

Section Paths.
Context {Num : Type} `{RT : JSRuntime Num}.
Implicit Types w : World Num.
Implicit Types data : JSValue Num.

Lemma users_get_Some userId (m : JSMap.t string (UserInfo Num)) u :
  users_get userId m = Some u ↔ ∃ k, userId = Some k ∧ JSMap.get k m = Some u.
Proof.
  destruct userId as [k|]; simpl; split.
  - intros Hu. by exists k.
  - by intros (k' & [= <-] & Hu).
  - done.
  - by intros (k' & ? & _).
Qed.

(** A chat message that is sent: from a registered session, a string
    that is not empty and does not trim to nothing. *)
Lemma chat_message_sent o userId u data s w :
  users_get userId (users (canvasState (server w))) = Some u →
  prop data "message" = JStr s → s ≠ "" → str_trim s ≠ "" →
  case_chat_message o userId data w =
  (Normal tt,
   add_console (LogChat userId)
     (add_outbox
        (to_all (wss_clients (server w))
           (MsgChatMessage
              (mkChatMessage (uuid_a o) userId (user_color u) (str_trim s)
                 (js_or (prop data "timestamp") (JNum (now o))))))
        w)).
Proof.
  intros Hu Hm Hs Ht.
  assert (nullish data = false) as Hd by (by destruct data).
  unfold case_chat_message.
  unfold mbind, M_bind, mret, M_ret, bind, ret, gets, modify, console_log.
  cbn -[broadcast]. rewrite Hu. rewrite (get_prop_ok data) by done.
  rewrite Hm. cbn -[broadcast].
  rewrite (bool_decide_eq_false_2 _ Hs). cbn -[broadcast].
  rewrite (bool_decide_eq_false_2 _ Ht). cbn -[broadcast].
  rewrite (get_prop_ok data) by done. by rewrite broadcast_all.
Qed.

(** Every other chat message leaves the world as it is: nothing is sent
    for a session that is not registered, for a payload that is missing,
    for a message that is falsy, that is not a string (the call of [trim]
    throws) or that trims to the empty string. *)
Lemma chat_message_cases o userId data w :
  (∃ r, case_chat_message o userId data w = (r, w))
  ∨ ∃ u s,
      users_get userId (users (canvasState (server w))) = Some u
      ∧ prop data "message" = JStr s ∧ s ≠ "" ∧ str_trim s ≠ "".
Proof.
  destruct (users_get userId (users (canvasState (server w)))) as [u|] eqn:Hu.
  2: { left. unfold case_chat_message.
       unfold mbind, M_bind, bind, gets. rewrite Hu. by eexists. }
  destruct (nullish data) eqn:Hd.
  { left. unfold case_chat_message. unfold mbind, M_bind, bind, gets.
    rewrite Hu. rewrite get_prop_nullish by done. by eexists. }
  destruct (prop data "message") as [| |b|n|s|l|fs] eqn:Hm.
  5: { destruct (decide (s = "")) as [Hs|Hs].
       { left. unfold case_chat_message. unfold mbind, M_bind, bind, gets.
         rewrite Hu. rewrite get_prop_ok by done. rewrite Hm. simpl.
         rewrite (bool_decide_eq_true_2 _ Hs). by eexists. }
       destruct (decide (str_trim s = "")) as [Ht|Ht].
       { left. unfold case_chat_message. unfold mbind, M_bind, bind, gets.
         rewrite Hu. rewrite get_prop_ok by done. rewrite Hm. simpl.
         rewrite (bool_decide_eq_false_2 _ Hs). simpl.
         rewrite (bool_decide_eq_true_2 _ Ht). by eexists. }
       right. by exists u, s. }
  all: left; unfold case_chat_message; unfold mbind, M_bind, bind, gets;
    rewrite Hu; rewrite get_prop_ok by done; rewrite Hm; simpl;
    try destruct b; try destruct (num_falsy n); by eexists.
Qed.

Lemma user_typing_sent ws k data w :
  k ≠ "" → nullish data = false →
  case_user_typing ws (Some k) data w =
  (Normal tt,
   add_outbox
     (to_others ws (wss_clients (server w))
                (MsgUserTyping (Some k) (prop data "typing")))
     w).
Proof.
  intros Hk Hd. unfold case_user_typing, id_truthy.
  rewrite (bool_decide_eq_false_2 _ Hk).
  unfold mbind, M_bind, bind. cbn -[broadcast].
  rewrite get_prop_ok by done. by rewrite broadcast_others.
Qed.

Lemma user_typing_cases ws userId data w :
  (∃ r, case_user_typing ws userId data w = (r, w))
  ∨ ∃ k, userId = Some k ∧ k ≠ "" ∧ nullish data = false.
Proof.
  destruct userId as [k|].
  2: { left. by eexists. }
  destruct (decide (k = "")) as [Hk|Hk].
  { left. unfold case_user_typing, id_truthy.
    rewrite (bool_decide_eq_true_2 _ Hk). by eexists. }
  destruct (nullish data) eqn:Hd.
  { left. unfold case_user_typing, id_truthy.
    rewrite (bool_decide_eq_false_2 _ Hk).
    unfold mbind, M_bind, bind. cbn -[broadcast].
    rewrite get_prop_nullish by done. by eexists. }
  right. by exists k.
Qed.

(** A loop over the sockets whose body throws at every open one writes
    nothing. *)
Lemma forEach_throws (f : Ws * ReadyState → M (World Num) unit)
    (cs : list (Ws * ReadyState)) w :
  (∀ c w', f c w' = if is_open c.2 then (Throw TypeError, w')
                    else (Normal tt, w')) →
  ∃ r, forEach cs f w = (r, w).
Proof.
  intros Hf. induction cs as [|c cs IH]; simpl.
  - by eexists.
  - unfold bind. rewrite Hf. destruct (is_open c.2); [by eexists|done].
Qed.

Lemma draw_end_nullish data w :
  nullish data = true → ∃ r, case_draw_end data w = (r, w).
Proof.
  intros Hd. unfold case_draw_end. unfold mbind, M_bind, bind, gets.
  apply forEach_throws. intros [c rs] w'. simpl.
  destruct (is_open rs); [|done]. by rewrite get_prop_nullish by done.
Qed.

Lemma outcome_of_unchanged ws o message (m : M (World Num) unit) w :
  (∃ r, m w = (r, w)) →
  message_outcome ws o message w
    (try_catch m (λ error, console_log (LogParseError error)) w).2.
Proof.
  intros [r Hr]. unfold try_catch. rewrite Hr.
  destruct r; by apply outcome_dropped.
Qed.

(** The handler takes one of its paths, whatever the frame. *)
Lemma on_message_outcome ws cl o (message : Inbound Num) w :
  message_outcome ws o message w (on_message ws cl o message w).2.
Proof.
  unfold on_message. destruct message as [|v].
  { apply outcome_of_unchanged.
    destruct (message_body_bad ws cl o Unparseable w I) as [e ->]. by eexists. }
  destruct (nullish v) eqn:Hv.
  { apply outcome_of_unchanged.
    destruct (message_body_bad ws cl o (Parsed v) w Hv) as [e ->]. by eexists. }
  set (type := prop v "type"). set (data := prop v "data").
  set (userId := connectedClients (server w) !! ws).
  assert (message_body ws cl o (Parsed v) w =
    (if str_strict_eq "draw-start" type then case_draw_start ws cl o userId data
     else if str_strict_eq "draw-continue" type
     then case_draw_continue ws userId data
     else if str_strict_eq "draw-end" type then case_draw_end data
     else if str_strict_eq "cursor-move" type
     then case_cursor_move ws userId data
     else if str_strict_eq "clear-canvas" type then case_clear_canvas
     else if str_strict_eq "chat-message" type
     then case_chat_message o userId data
     else if str_strict_eq "user-typing" type
     then case_user_typing ws userId data
     else console_log LogUnknownType) w) as Hbody.
  { by rewrite message_body_parsed. }
  destruct (str_strict_eq "draw-start" type) eqn:H1.
  { apply str_strict_eq_true in H1. destruct (nullish data) eqn:Hd.
    - apply outcome_of_unchanged. rewrite Hbody.
      rewrite draw_start_nullish by done. by eexists.
    - unfold try_catch. rewrite Hbody. rewrite draw_start_ok by done.
      cbv zeta.
      by apply (outcome_draw_start _ _ _ _ _
        (mkStroke (uuid_a o) userId
           (js_or (prop data "color") (JStr (userColor cl)))
           (js_or (prop data "width") (JNum (num_of_Z 2)))
           [mkPoint (prop data "x") (prop data "y")] (now o))
        (mkPoint (prop data "x") (prop data "y"))). }
  destruct (str_strict_eq "draw-continue" type) eqn:H2.
  { apply str_strict_eq_true in H2. destruct (nullish data) eqn:Hd.
    - apply outcome_of_unchanged. rewrite Hbody.
      by apply draw_continue_nullish.
    - destruct (list_find (λ s, ownedb userId (prop data "strokeId") s = true)
                  (strokes (canvasState (server w)))) as [[i s]|] eqn:Hfind.
      + apply first_owned_of_find in Hfind as (Hfirst & _ & _).
        unfold try_catch. rewrite Hbody.
        rewrite (draw_continue_found _ _ _ _ i) by done.
        by apply (outcome_draw_continue _ _ _ _ _ i (prop data "strokeId")
                    (prop data "x") (prop data "y")).
      + apply outcome_of_unchanged. rewrite Hbody.
        rewrite draw_continue_not_found
          by (done || by apply none_owned_of_find).
        by eexists. }
  destruct (str_strict_eq "draw-end" type) eqn:H3.
  { apply str_strict_eq_true in H3. destruct (nullish data) eqn:Hd.
    - apply outcome_of_unchanged. rewrite Hbody. by apply draw_end_nullish.
    - unfold try_catch. rewrite Hbody. rewrite draw_end_ok by done.
      by apply (outcome_draw_end _ _ _ _ _ (prop data "strokeId")). }
  destruct (str_strict_eq "cursor-move" type) eqn:H4.
  { apply str_strict_eq_true in H4. destruct (nullish data) eqn:Hd.
    - apply outcome_of_unchanged. rewrite Hbody.
      by apply cursor_move_nullish.
    - destruct (users_get userId (users (canvasState (server w))))
        as [u|] eqn:Hu.
      + apply users_get_Some in Hu as (k & Hk & Hu).
        unfold try_catch. rewrite Hbody, Hk.
        rewrite (cursor_move_ok _ _ u) by done.
        by apply (outcome_cursor_move _ _ _ _ _ k u (prop data "x")
                    (prop data "y")).
      + apply outcome_of_unchanged. rewrite Hbody.
        rewrite cursor_move_unknown by done. by eexists. }
  destruct (str_strict_eq "clear-canvas" type) eqn:H5.
  { apply str_strict_eq_true in H5.
    unfold try_catch. rewrite Hbody. rewrite clear_canvas_ok.
    by apply outcome_clear_canvas. }
  destruct (str_strict_eq "chat-message" type) eqn:H6.
  { apply str_strict_eq_true in H6.
    destruct (chat_message_cases o userId data w)
      as [Hsame|(u & s & Hu & Hm & Hs & Ht)].
    - apply outcome_of_unchanged. by rewrite Hbody.
    - unfold try_catch. rewrite Hbody.
      rewrite (chat_message_sent _ _ u _ s) by done.
      apply users_get_Some in Hu as (k & Hk & Hu).
      assert (nullish data = false) as Hd by (by destruct data).
      subst userId. rewrite Hk.
      by apply (outcome_chat_message _ _ _ _ _ k u
        (mkChatMessage (uuid_a o) (Some k) (user_color u) (str_trim s)
           (js_or (prop data "timestamp") (JNum (now o))))). }
  destruct (str_strict_eq "user-typing" type) eqn:H7.
  { apply str_strict_eq_true in H7.
    destruct (user_typing_cases ws userId data w)
      as [Hsame|(k & Hk & Hne & Hd)].
    - apply outcome_of_unchanged. by rewrite Hbody.
    - unfold try_catch. rewrite Hbody, Hk.
      rewrite user_typing_sent by done.
      by apply (outcome_user_typing _ _ _ _ _ k (prop data "typing")). }
  unfold try_catch. rewrite Hbody. by apply outcome_dropped.
Qed.

End Paths.

(** ** The server, beyond the single message *)

Section ServerWide.
Context {Num : Type} `{RT : JSRuntime Num}.
Implicit Types sys : System Num.
Implicit Types w : World Num.

Lemma outcome_outbox ws o (message : Inbound Num) w w' :
  message_outcome ws o message w w' →
  ∃ new, outbox w' = outbox w ++ new
         ∧ ∀ c m, (c, m) ∈ new → (c, OPEN) ∈ wss_clients (server w).
Proof.
  intros [Hs Ho|st p _ _ _ _ _ _ Ho|i sid x y _ _ _ _ Ho|sid _ _ _ Ho
         |k u x y _ _ _ _ _ Ho|_ _ Ho|k u cm _ _ _ _ _ _ _ _ _ Ho
         |k ty _ _ _ _ _ Ho].
  - exists []. rewrite app_nil_r. split; [done|].
    intros c m Hin. by apply elem_of_nil in Hin.
  - eexists. split; [done|]. intros c m Hin.
    by apply elem_of_to_all in Hin as [_ Hin].
  - eexists. split; [done|]. intros c m Hin.
    by apply elem_of_to_all in Hin as [_ Hin].
  - eexists. split; [done|]. intros c m Hin.
    by apply elem_of_to_all in Hin as [_ Hin].
  - eexists. split; [done|]. intros c m Hin.
    by apply elem_of_to_others in Hin as (_ & _ & Hin).
  - eexists. split; [done|]. intros c m Hin.
    by apply elem_of_to_all in Hin as [_ Hin].
  - eexists. split; [done|]. intros c m Hin.
    by apply elem_of_to_all in Hin as [_ Hin].
  - eexists. split; [done|]. intros c m Hin.
    by apply elem_of_to_others in Hin as (_ & _ & Hin).
Qed.

Lemma readyState_in_open ws (cs : list (Ws * ReadyState)) :
  readyState_in ws cs = OPEN → (ws, OPEN) ∈ cs.
Proof.
  induction cs as [|[c rs] cs IH]; simpl; [done|].
  case_decide as Hc.
  - intros ->. subst c. left.
  - intros Hrs. right. by apply IH.
Qed.

(** What an event writes, and to whom: the outbox only grows, and every
    frame written goes to a socket that is open in [wss.clients] when the
    handler runs. *)
Lemma step_outbox ev sys :
  ∃ new, outbox (world (step ev sys)) = outbox (world sys) ++ new
         ∧ ∀ c m, (c, m) ∈ new →
                  (c, OPEN) ∈ wss_clients (server (world (step ev sys))).
Proof.
  destruct (crashed sys) eqn:Hc.
  { rewrite step_crashed by done. exists []. rewrite app_nil_r.
    split; [done|]. intros c m Hin. by apply elem_of_nil in Hin. }
  destruct ev as [o|ws o message|ws|ws].
  - rewrite step_connection by done. cbv zeta. rewrite on_connection_spec.
    simpl. eexists. split; [done|]. intros c m Hin.
    apply elem_of_app in Hin as [Hin|Hin].
    + destruct (is_open (readyState_in (next_ws sys)
                  (wss_clients (server (world sys)) ++ [(next_ws sys, OPEN)])))
        eqn:Hopen; [|by apply elem_of_nil in Hin].
      apply bool_decide_eq_true in Hopen. apply readyState_in_open in Hopen.
      apply elem_of_cons in Hin as [[= -> _]|Hin]; [done|].
      apply list_elem_of_singleton in Hin as [= -> _]. done.
    + by apply elem_of_to_others in Hin as (_ & _ & Hin).
  - destruct (handlers sys !! ws) as [cl|] eqn:Hcl.
    + rewrite (step_message _ cl) by done. simpl.
      destruct (outcome_outbox _ _ _ _ _
                  (on_message_outcome ws cl o message (world sys)))
        as (new & Hnew & Hopen).
      exists new. split; [done|]. intros c m Hin.
      destruct (on_message_effect ws cl o message (world sys))
        as (_ & -> & _). by apply (Hopen c m).
    + unfold step. rewrite Hc, Hcl. exists []. rewrite app_nil_r.
      split; [done|]. intros c m Hin. by apply elem_of_nil in Hin.
  - unfold step. rewrite Hc.
    destruct (handlers sys !! ws) as [cl|]; exists []; rewrite app_nil_r;
      (split; [done|]); intros c m Hin; by apply elem_of_nil in Hin.
  - destruct (handlers sys !! ws) as [cl|] eqn:Hcl.
    + rewrite (step_close _ cl) by done. simpl.
      destruct (id_truthy (connectedClients (server (world sys)) !! ws)) eqn:Hk.
      * destruct (connectedClients (server (world sys)) !! ws) as [k|] eqn:E;
          [|done].
        simpl in Hk. apply negb_true_iff, bool_decide_eq_false in Hk.
        rewrite (on_close_spec _ _ k) by done. simpl.
        eexists. split; [done|]. intros c m Hin.
        by apply elem_of_to_all in Hin as [_ Hin].
      * rewrite on_close_unregistered by done. simpl.
        exists []. rewrite app_nil_r. split; [done|].
        intros c m Hin. by apply elem_of_nil in Hin.
    + unfold step. rewrite Hc, Hcl. exists []. rewrite app_nil_r.
      split; [done|]. intros c m Hin. by apply elem_of_nil in Hin.
Qed.

Lemma outbox_emitted ev sys :
  outbox (world (step ev sys)) = outbox (world sys) ++ emitted ev sys.
Proof.
  destruct (step_outbox ev sys) as (new & Hnew & _).
  unfold emitted. rewrite Hnew. by rewrite drop_app_length.
Qed.

(** X1: whatever the events, no exception escapes a handler: the
    connection and close handlers do not throw, and the message handler
    catches what its body throws. *)
Theorem no_exception_escapes (evs : list (Event Num)) ws cl o
    (message : Inbound Num) w :
  crashed (run evs initial) = false
  ∧ (on_connection ws o w).1
    = Normal (mkClosure (uuid_a o) (generateUserColor (random_index o)))
  ∧ (on_message ws cl o message w).1 = Normal tt
  ∧ (on_close ws cl w).1 = Normal tt.
Proof.
  split_and!.
  - by destruct (reachable_inv evs) as (Hc & _).
  - by rewrite on_connection_spec.
  - apply on_message_returns.
  - by destruct (on_close_effect ws cl w) as (w' & -> & _).
Qed.

(** X2: after any sequence of events the sessions map holds every
    session under its own id: two entries never share an id, so a
    snapshot never lists a session twice. *)
Theorem sessions_well_keyed (evs : list (Event Num)) :
  let us := users_of (run evs initial) in
  NoDup (user_id <$> JSMap.values us)
  ∧ ∀ k u, JSMap.get k us = Some u → user_id u = k.
Proof.
  intros us. destruct (reachable_inv evs) as (_ & [Hwf Hid] & _).
  fold us in Hwf, Hid. split.
  - unfold JSMap.wf, JSMap.keys, JSMap.values in *.
    replace (user_id <$> us.*2) with (us.*1); [done|].
    clear Hwf. induction Hid as [|[k u] m Hk Hm IH]; [done|].
    csimpl. simpl in Hk. by rewrite Hk, IH.
  - clear Hwf. induction Hid as [|[k' u'] m Hk Hm IH]; intros k u; [done|].
    simpl. case_decide; [|by apply IH]. intros [= <-]. by subst.
Qed.

(** X3: every frame an event writes is addressed to a socket that is in
    [wss.clients] and open; nothing is ever written to a socket that is
    closing or gone. *)
Theorem frames_only_to_open ev sys c (m : ServerMsg Num) :
  (c, m) ∈ emitted ev sys →
  (c, OPEN) ∈ wss_clients (server (world (step ev sys))).
Proof.
  destruct (step_outbox ev sys) as (new & Hnew & Hopen).
  unfold emitted. rewrite Hnew, drop_app_length. apply Hopen.
Qed.

(** X4: a message without a payload ([data] undefined or null) changes
    nothing and sends nothing, unless it is a ['clear-canvas'], which
    reads no payload. *)
Theorem missing_payload_dropped ws cl o (message : Inbound Num) w :
  nullish (message_data message) = true →
  message_type message ≠ JStr "clear-canvas" →
  let handled := on_message ws cl o message w in
  handled.1 = Normal tt
  ∧ server handled.2 = server w
  ∧ outbox handled.2 = outbox w.
Proof.
  intros Hd Htype handled. subst handled.
  split; [apply on_message_returns|].
  destruct (on_message_outcome ws cl o message w)
    as [Hs Ho|st p _ Hn|i sid x y _ Hn|sid _ Hn|k u x y _ Hn|Hc
       |k u m _ Hn|k ty _ Hn]; try congruence.
  done.
Qed.

Lemma stroke_grown_refl (s : Stroke Num) : stroke_grown s s.
Proof. by split_and!. Qed.

Lemma stroke_grown_trans (s1 s2 s3 : Stroke Num) :
  stroke_grown s1 s2 → stroke_grown s2 s3 → stroke_grown s1 s3.
Proof.
  intros (? & ? & ? & ? & ? & ?) (? & ? & ? & ? & ? & ?).
  split_and!; try congruence. by etrans.
Qed.

Lemma stroke_grown_push p (s : Stroke Num) : stroke_grown s (push_point p s).
Proof. split_and!; try done. simpl. by apply prefix_app_r. Qed.

Lemma Forall2_grown_refl (ss : list (Stroke Num)) : Forall2 stroke_grown ss ss.
Proof. induction ss; constructor; [apply stroke_grown_refl|done]. Qed.

Lemma Forall2_grown_alter p i (ss : list (Stroke Num)) :
  Forall2 stroke_grown ss (alter (push_point p) i ss).
Proof.
  revert i. induction ss as [|s ss IH]; intros [|i].
  - constructor.
  - constructor.
  - constructor; [apply stroke_grown_push|apply Forall2_grown_refl].
  - constructor; [apply stroke_grown_refl|apply IH].
Qed.

Lemma strokes_grown_refl (ss : list (Stroke Num)) : strokes_grown ss ss.
Proof.
  exists ss, []. rewrite app_nil_r. split; [done|apply Forall2_grown_refl].
Qed.

Lemma strokes_grown_trans (ss1 ss2 ss3 : list (Stroke Num)) :
  strokes_grown ss1 ss2 → strokes_grown ss2 ss3 → strokes_grown ss1 ss3.
Proof.
  intros (k1 & a1 & -> & H1) (k2 & a2 & -> & H2).
  apply Forall2_app_inv_l in H2 as (k2a & k2b & Hk & Ha & ->).
  exists k2a, (k2b ++ a2). split; [by rewrite app_assoc|].
  clear Ha. revert k2a Hk. induction H1 as [|s1 s2 l1 l2 Hs Hl IH];
    intros k2a Hk.
  - by apply Forall2_nil_inv_l in Hk as ->.
  - apply Forall2_cons_inv_l in Hk as (s3 & l3 & Hs3 & Hl3 & ->).
    constructor; [by eapply stroke_grown_trans|by apply IH].
Qed.

Lemma strokes_grown_step ev sys :
  ¬ clears ev → strokes_grown (strokes_of sys) (strokes_of (step ev sys)).
Proof.
  intros Hclear. destruct (crashed sys) eqn:Hc.
  { rewrite step_crashed by done. apply strokes_grown_refl. }
  destruct ev as [o|ws o message|ws|ws].
  - rewrite step_connection by done. cbv zeta. rewrite on_connection_spec.
    apply strokes_grown_refl.
  - destruct (handlers sys !! ws) as [cl|] eqn:Hcl.
    2: { unfold step. rewrite Hc, Hcl. apply strokes_grown_refl. }
    rewrite (step_message _ cl) by done. unfold strokes_of. simpl.
    destruct (on_message_outcome ws cl o message (world sys))
      as [-> _|st p _ _ _ _ _ -> _|i sid x y _ _ _ -> _|sid _ _ -> _
         |k u x y _ _ _ _ -> _|Hty _ _|k u cm _ _ _ _ _ _ _ _ -> _
         |k ty _ _ _ _ -> _]; simpl; try apply strokes_grown_refl.
    + eexists _, [st]. split; [done|apply Forall2_grown_refl].
    + eexists _, []. rewrite app_nil_r. split; [done|].
      apply Forall2_grown_alter.
    + by destruct Hclear.
  - unfold step. rewrite Hc.
    destruct (handlers sys !! ws); apply strokes_grown_refl.
  - destruct (handlers sys !! ws) as [cl|] eqn:Hcl.
    2: { unfold step. rewrite Hc, Hcl. apply strokes_grown_refl. }
    rewrite (step_close _ cl) by done.
    destruct (on_close_effect ws cl (clients_delete ws (world sys)))
      as (w' & -> & Hs & _).
    unfold strokes_of. simpl. rewrite Hs. apply strokes_grown_refl.
Qed.

(** X5: between two clears the strokes only grow: over any events none
    of which is a ['clear-canvas'], every stroke is still at its place
    with the same id, owner, colour, width and time and its earlier points
    first, and new strokes come after the old ones. *)
Theorem strokes_append_only (evs : list (Event Num)) sys :
  Forall (λ ev, ¬ clears ev) evs →
  strokes_grown (strokes_of sys) (strokes_of (run evs sys)).
Proof.
  revert sys. induction evs as [|ev evs IH]; intros sys Hevs.
  - apply strokes_grown_refl.
  - apply Forall_cons in Hevs as [Hev Hevs]. simpl.
    eapply strokes_grown_trans; [by apply strokes_grown_step|by apply IH].
Qed.

Lemma stroke_ids_alter p i (ss : list (Stroke Num)) :
  stroke_ids (alter (push_point p) i ss) = stroke_ids ss.
Proof.
  unfold stroke_ids. revert i.
  induction ss as [|s ss IH]; intros [|i]; csimpl; by rewrite ?IH.
Qed.

Lemma stroke_ids_step ev sys :
  let ids := stroke_ids (strokes_of sys) in
  let ids' := stroke_ids (strokes_of (step ev sys)) in
  ids' = ids ∨ ids' = [] ∨ ids' ++ [] = ids ++ drawn_ids [ev].
Proof.
  intros ids ids'. subst ids ids'. destruct (crashed sys) eqn:Hc.
  { rewrite step_crashed by done. by left. }
  destruct ev as [o|ws o message|ws|ws].
  - rewrite step_connection by done. cbv zeta. rewrite on_connection_spec.
    by left.
  - destruct (handlers sys !! ws) as [cl|] eqn:Hcl.
    2: { unfold step. rewrite Hc, Hcl. by left. }
    rewrite (step_message _ cl) by done. unfold strokes_of. simpl.
    destruct (on_message_outcome ws cl o message (world sys))
      as [-> _|st p _ _ Hid _ _ -> _|i sid x y _ _ _ -> _|sid _ _ -> _
         |k u x y _ _ _ _ -> _|_ -> _|k u cm _ _ _ _ _ _ _ _ -> _
         |k ty _ _ _ _ -> _]; simpl; try by left.
    + right; right. unfold stroke_ids. rewrite fmap_app, app_nil_r. simpl.
      by rewrite Hid.
    + left. apply stroke_ids_alter.
    + right. by left.
  - unfold step. rewrite Hc. destruct (handlers sys !! ws); by left.
  - destruct (handlers sys !! ws) as [cl|] eqn:Hcl.
    2: { unfold step. rewrite Hc, Hcl. by left. }
    rewrite (step_close _ cl) by done.
    destruct (on_close_effect ws cl (clients_delete ws (world sys)))
      as (w' & -> & Hs & _).
    left. unfold strokes_of. simpl. by rewrite Hs.
Qed.

Lemma drawn_ids_cons (ev : Event Num) evs :
  drawn_ids (ev :: evs) = drawn_ids [ev] ++ drawn_ids evs.
Proof. unfold drawn_ids. simpl. by destruct ev. Qed.

Lemma unique_ids_run (evs : list (Event Num)) sys :
  NoDup (stroke_ids (strokes_of sys) ++ drawn_ids evs) →
  NoDup (stroke_ids (strokes_of (run evs sys))).
Proof.
  revert sys. induction evs as [|ev evs IH]; intros sys Hnd.
  - simpl. by rewrite app_nil_r in Hnd.
  - simpl. apply IH. rewrite drawn_ids_cons in Hnd.
    destruct (stroke_ids_step ev sys) as [->|[->|Heq]].
    + eapply sublist_NoDup; [exact Hnd|].
      apply sublist_app; [done|]. by apply sublist_inserts_l.
    + eapply sublist_NoDup; [exact Hnd|]. simpl.
      apply sublist_inserts_l. by apply sublist_inserts_l.
    + rewrite app_nil_r in Heq. rewrite Heq. by rewrite <- app_assoc.
Qed.

(** X6: if the identifiers [uuidv4()] returns to the message handlers
    are pairwise distinct, no two strokes ever share an id. *)
Theorem stroke_ids_unique (evs : list (Event Num)) :
  NoDup (drawn_ids evs) →
  NoDup (stroke_ids (strokes_of (run evs initial))).
Proof. intros Hnd. by apply unique_ids_run. Qed.

(** X7: a chat message from a registered session whose text is a string
    that is not empty after trimming is sent to every open socket, the
    sender's included, with the trimmed text, the sender's id and colour
    and a fresh id; the server state is unchanged. *)
Theorem chat_message_broadcast ws cl o k u data s w :
  connectedClients (server w) !! ws = Some k →
  JSMap.get k (users (canvasState (server w))) = Some u →
  prop data "message" = JStr s → s ≠ "" → str_trim s ≠ "" →
  let handled := on_message ws cl o (envelope "chat-message" data) w in
  let chat :=
    mkChatMessage (uuid_a o) (Some k) (user_color u) (str_trim s)
                  (js_or (prop data "timestamp") (JNum (now o))) in
  handled.1 = Normal tt
  ∧ server handled.2 = server w
  ∧ outbox handled.2 =
    outbox w ++ to_all (wss_clients (server w)) (MsgChatMessage chat).
Proof.
  intros Hk Hu Hm Hs Ht handled chat. subst handled chat.
  rewrite on_message_envelope. unfold try_catch. simpl. rewrite Hk.
  by rewrite (chat_message_sent _ _ u _ s).
Qed.

(** X8: a chat message is dropped, with the state unchanged and nothing
    sent, when the sender has no session or when the text is anything but
    a string that is not empty after trimming: an absent, empty or blank
    text, and also a number, a boolean, an array or an object. *)
Theorem chat_message_rejected ws cl o data w :
  users_get (connectedClients (server w) !! ws)
            (users (canvasState (server w))) = None
  ∨ (∀ s, prop data "message" = JStr s → s = "" ∨ str_trim s = "") →
  let handled := on_message ws cl o (envelope "chat-message" data) w in
  handled.1 = Normal tt
  ∧ server handled.2 = server w
  ∧ outbox handled.2 = outbox w.
Proof.
  intros Hbad handled. subst handled.
  split; [apply on_message_returns|].
  rewrite on_message_envelope. unfold try_catch. simpl.
  destruct (chat_message_cases o (connectedClients (server w) !! ws) data w)
    as [[r ->]|(u & s & Hu & Hm & Hs & Ht)]; [by destruct r|].
  destruct Hbad as [Hnone|Hblank]; [congruence|].
  by destruct (Hblank s Hm).
Qed.

(** X9: a typing notice from a session with an id goes to every open
    socket except the sender's and changes no state; without a session
    nothing is sent. *)
Theorem user_typing_to_others ws cl o data w :
  let userId := connectedClients (server w) !! ws in
  let handled := on_message ws cl o (envelope "user-typing" data) w in
  server handled.2 = server w
  ∧ (id_truthy userId = false → outbox handled.2 = outbox w)
  ∧ (nullish data = false → ∀ k, userId = Some k → k ≠ "" →
     outbox handled.2 =
     outbox w
     ++ to_others ws (wss_clients (server w))
          (MsgUserTyping (Some k) (prop data "typing")))
  ∧ ∀ c m, (c, m) ∈ outbox handled.2 → (c, m) ∉ outbox w → c ≠ ws.
Proof.
  intros userId handled. subst handled userId.
  rewrite on_message_envelope. unfold try_catch. simpl.
  destruct (user_typing_cases ws (connectedClients (server w) !! ws) data w)
    as [[r Hr]|(k & Hk & Hne & Hd)].
  - rewrite Hr.
    assert (∀ k, connectedClients (server w) !! ws = Some k → k ≠ "" →
      nullish data = false →
      to_others ws (wss_clients (server w))
                (MsgUserTyping (Some k) (prop data "typing")) = [])
      as Hnone.
    { intros k Hk Hne Hd. rewrite Hk in Hr.
      rewrite user_typing_sent in Hr by done. injection Hr as _ Hw.
      apply (f_equal outbox) in Hw. simpl in Hw.
      rewrite <- (app_nil_r (outbox w)) in Hw at 2.
      by apply app_inv_head in Hw. }
    destruct r; simpl; (split_and!; [done|done| |done]);
      intros Hd k Hk Hne; by rewrite Hnone, app_nil_r.
  - rewrite Hk. rewrite user_typing_sent by done. simpl.
    split_and!; try done.
    + by rewrite (bool_decide_eq_false_2 _ Hne).
    + intros _ k' [= <-] _. done.
    + intros c m Hin Hnot. apply elem_of_app in Hin as [Hin|Hin]; [done|].
      by apply elem_of_to_others in Hin as (_ & Hc & _).
Qed.

(** X10: no message adds, removes or renames a session, whatever it is:
    the ids in the sessions map, each session's id, socket id and colour,
    the map from sockets to sessions and the set of sockets are what they
    were; only a connection or a close changes them. *)
Theorem messages_keep_sessions ws cl o (message : Inbound Num) w :
  let w' := (on_message ws cl o message w).2 in
  connectedClients (server w') = connectedClients (server w)
  ∧ wss_clients (server w') = wss_clients (server w)
  ∧ Forall2 (λ e e', e'.1 = e.1 ∧ user_id e'.2 = user_id e.2
                     ∧ user_socketId e'.2 = user_socketId e.2
                     ∧ user_color e'.2 = user_color e.2)
            (users (canvasState (server w))) (users (canvasState (server w'))).
Proof.
  intros w'. subst w'.
  destruct (on_message_effect ws cl o message w) as (Hcc & Hcs & Hus & _).
  split_and!; [done|done|].
  assert (∀ m : JSMap.t string (UserInfo Num),
    Forall2 (λ e e', e'.1 = e.1 ∧ user_id e'.2 = user_id e.2
                     ∧ user_socketId e'.2 = user_socketId e.2
                     ∧ user_color e'.2 = user_color e.2) m m) as Hrefl.
  { intros m. induction m; by constructor. }
  destruct Hus as [->|(p & k & ->)]; [apply Hrefl|].
  induction (users (canvasState (server w))) as [|[k' u'] m IH]; simpl;
    [constructor|].
  case_decide; constructor; done.
Qed.

(** X11: a ['draw-continue'] that arrives after a ['clear-canvas'] finds
    no stroke: it changes nothing and sends nothing. *)
Theorem continue_after_clear_is_stale ws cl o data ws' cl' o' data' w :
  let w1 := (on_message ws cl o (envelope "clear-canvas" data) w).2 in
  let handled := on_message ws' cl' o' (envelope "draw-continue" data') w1 in
  handled.1 = Normal tt
  ∧ server handled.2 = server w1
  ∧ outbox handled.2 = outbox w1.
Proof.
  intros w1 handled. subst handled. split; [apply on_message_returns|].
  assert (strokes (canvasState (server w1)) = []) as Hempty.
  { subst w1. rewrite on_message_envelope. unfold try_catch. simpl.
    by rewrite clear_canvas_ok. }
  rewrite on_message_envelope. unfold try_catch. simpl.
  destruct (nullish data') eqn:Hd.
  - destruct (draw_continue_nullish ws' (connectedClients (server w1) !! ws')
                data' w1 Hd) as [r ->]. by destruct r.
  - rewrite draw_continue_not_found; [done..|].
    rewrite Hempty. intros s Hs. by apply elem_of_nil in Hs.
Qed.

Lemma to_others_fresh ws (cs : list (Ws * ReadyState))
    (message : ServerMsg Num) :
  Forall (λ c, (c.1 < ws)%nat) cs →
  to_others ws (cs ++ [(ws, OPEN)]) message
  = map (λ c, (c, message)) (open_clients cs).
Proof.
  intros Hcs. unfold to_others, open_clients. f_equal.
  induction Hcs as [|[c rs] cs Hc Hcs IH]; simpl in *.
  - rewrite filter_cons. by rewrite decide_False by (by intros []).
  - rewrite !(filter_cons _ (c, rs)). simpl.
    destruct (decide (rs = OPEN)) as [->|Hrs]; csimpl; [|done].
    rewrite filter_cons. rewrite decide_True by lia. f_equal. exact IH.
Qed.

(** X12: on a connection after any events, the new socket is sent the
    snapshot and then its own session, every other open socket is sent
    ['user-joined'] with that session, and the new socket is not. *)
Theorem connection_frames (evs : list (Event Num)) o :
  let sys := run evs initial in
  let ws := next_ws sys in
  let sys' := step (EvConnection o) sys in
  let userInfo :=
    mkUserInfo (uuid_b o) (uuid_a o) (generateUserColor (random_index o))
               (mkPoint (JNum (num_of_Z 0)) (JNum (num_of_Z 0))) in
  emitted (EvConnection o) sys =
  [(ws, MsgCanvasState (strokes_of sys') (JSMap.values (users_of sys')));
   (ws, MsgUserInfo userInfo)]
  ++ map (λ c, (c, MsgUserJoined userInfo))
         (open_clients (wss_clients (server (world sys)))).
Proof.
  intros sys ws sys' userInfo.
  destruct (reachable_inv evs) as (Hc & _ & Hws). fold sys in Hc, Hws.
  unfold emitted. subst sys'. rewrite step_connection by done. cbv zeta.
  rewrite on_connection_spec. unfold strokes_of, users_of. simpl.
  fold ws. rewrite readyState_in_fresh by done. simpl.
  rewrite drop_app_length. do 2 f_equal. by apply to_others_fresh.
Qed.

End ServerWide.

(** ** The client's copy and the server's state *)

Section Mirror.
Context {Num : Type} `{RT : JSRuntime Num} `{JR : JSONRuntime Num}.
Implicit Types (sys : System Num) (cv : Canvas Num) (ws : Ws) (w : World Num).

Lemma inbox_app ws (a b : list (Ws * ServerMsg Num)) :
  inbox ws (a ++ b) = inbox ws a ++ inbox ws b.
Proof. unfold inbox. by rewrite filter_app, fmap_app. Qed.

Lemma inbox_map ws (message : ServerMsg Num) (l : list Ws) :
  NoDup l →
  inbox ws (map (λ c, (c, message)) l) = if decide (ws ∈ l) then [message] else [].
Proof.
  unfold inbox. induction 1 as [|c l Hc Hl IH]; [done|].
  simpl. rewrite filter_cons. simpl.
  destruct (decide (c = ws)) as [->|Hne].
  - rewrite decide_True by left. csimpl. f_equal.
    etrans; [exact IH|]. by rewrite decide_False.
  - etrans; [exact IH|]. destruct (decide (ws ∈ l)) as [Hin|Hin].
    + rewrite decide_True; [done|by right].
    + rewrite decide_False; [done|]. intros [?|?]%elem_of_cons; congruence.
Qed.

Lemma open_clients_NoDup (cs : list (Ws * ReadyState)) :
  NoDup cs.*1 → NoDup (open_clients cs).
Proof.
  intros Hcs. unfold open_clients.
  apply (sublist_NoDup _ _ Hcs), fmap_sublist, sublist_filter.
Qed.

Lemma elem_of_open_clients ws (cs : list (Ws * ReadyState)) :
  ws ∈ open_clients cs ↔ (ws, OPEN) ∈ cs.
Proof.
  unfold open_clients. rewrite list_elem_of_fmap. split.
  - intros ([c rs] & -> & [Hrs Hin]%list_elem_of_filter). simpl in *. by subst.
  - intros Hin. exists (ws, OPEN). split; [done|].
    by apply list_elem_of_filter.
Qed.

Lemma inbox_to_all ws (cs : list (Ws * ReadyState)) (message : ServerMsg Num) :
  NoDup cs.*1 → (ws, OPEN) ∈ cs → inbox ws (to_all cs message) = [message].
Proof.
  intros Hcs Hin. unfold to_all.
  rewrite inbox_map by by apply open_clients_NoDup.
  rewrite decide_True; [done|]. by apply elem_of_open_clients.
Qed.

Lemma inbox_to_others ws c (cs : list (Ws * ReadyState))
    (message : ServerMsg Num) :
  NoDup cs.*1 → (ws, OPEN) ∈ cs →
  inbox ws (to_others c cs message) = if decide (ws = c) then [] else [message].
Proof.
  intros Hcs Hin. unfold to_others.
  rewrite inbox_map.
  2:{ apply (sublist_NoDup _ _ (open_clients_NoDup _ Hcs)), sublist_filter. }
  destruct (decide (ws = c)) as [->|Hne].
  - rewrite decide_False; [done|]. by intros [? _]%list_elem_of_filter.
  - rewrite decide_True; [done|]. apply list_elem_of_filter. split; [done|].
    by apply elem_of_open_clients.
Qed.

Lemma inbox_cons_other ws c (message : ServerMsg Num) frames :
  c ≠ ws → inbox ws ((c, message) :: frames) = inbox ws frames.
Proof.
  intros Hne. unfold inbox. rewrite filter_cons. simpl.
  by rewrite decide_False.
Qed.

Lemma sessions_set k (u u' : UserInfo Num) (m m' : JSMap.t string (UserInfo Num)) :
  sessions m = sessions m' → session_of (k, u) = session_of (k, u') →
  sessions (JSMap.set k u m) = sessions (JSMap.set k u' m').
Proof.
  unfold sessions. intros Hm Hu. revert m' Hm.
  induction m as [|[k1 u1] m IH]; intros [|[k2 u2] m'] Hm; try done.
  - csimpl. by rewrite Hu.
  - csimpl in Hm. injection Hm as Hk Hid Hsock Hcol Hrest. simpl in *. subst k2.
    destruct (decide (k = k1)) as [->|Hne]; csimpl.
    + f_equal; [done|exact Hrest].
    + f_equal; [unfold session_of; simpl; congruence|]. by apply IH.
Qed.

Lemma sessions_delete k (m m' : JSMap.t string (UserInfo Num)) :
  sessions m = sessions m' →
  sessions (JSMap.delete k m) = sessions (JSMap.delete k m').
Proof.
  unfold sessions. revert m'.
  induction m as [|[k1 u1] m IH]; intros [|[k2 u2] m'] Hm; try done.
  csimpl in Hm. injection Hm as Hk Hid Hsock Hcol Hrest. simpl in *. subst k2.
  destruct (decide (k = k1)) as [->|Hne]; csimpl.
  - exact Hrest.
  - f_equal; [unfold session_of; simpl; congruence|]. by apply IH.
Qed.

Lemma sessions_cursor p k (m : JSMap.t string (UserInfo Num)) :
  sessions (JSMap.alter (set_cursor p) k m) = sessions m.
Proof.
  unfold sessions. induction m as [|[k1 u1] m IH]; [done|].
  simpl. destruct (decide (k = k1)) as [->|Hne]; csimpl; [done|].
  f_equal. exact IH.
Qed.

Ltac run_canvas :=
  unfold receive, socket_onmessage, handleServerMessage, handleUserInfo,
    handleUserJoined, handleUserLeft, handleDrawStart, drawStrokeStart,
    handleDrawContinue, drawStrokeContinue, handleDrawEnd, handleCursorMove,
    updateRemoteCursor, handleClearCanvas, clearCanvas, handleChatMessage,
    displayChatMessage, showChatNotification, handleUserTyping,
    removeUserCursor, in_client, updateUserCount, try_catch, mbind, M_bind,
    bind, gets, modify, throw, ret, mret, M_ret.

Lemma receive_canvas_state ss (us : list (UserInfo Num)) cv :
  client (receive (MsgCanvasState ss us) cv)
  = client_step (CeCanvasState ss us) (client cv)
  ∧ userInfo (receive (MsgCanvasState ss us) cv) = userInfo cv.
Proof.
  unfold receive, socket_onmessage, handleServerMessage, in_client,
    client_step, onmessage_canvas_state, try_catch.
  simpl. by destruct (handleCanvasState ss us (client cv)) as [[a|e] c'].
Qed.

(** What a frame does to the strokes, the users and the session record
    the client holds. *)
Lemma receive_mirror (message : ServerMsg Num) cv :
  let c := client cv in
  let cv' := receive message cv in
  canvasStrokes (client cv') =
    match message with
    | MsgCanvasState ss _ => ss
    | MsgDrawStart st => canvasStrokes c ++ [st]
    | MsgDrawContinue sid x y =>
        match list_find (λ s, str_strict_eq (stroke_id s) sid = true)
                        (canvasStrokes c) with
        | Some (i, _) => alter (push_point (mkPoint x y)) i (canvasStrokes c)
        | None => canvasStrokes c
        end
    | MsgClearCanvas => []
    | _ => canvasStrokes c
    end
  ∧ connectedUsers (client cv') =
    match message with
    | MsgCanvasState _ us =>
        foldl (λ acc u, JSMap.set (user_id u) u acc) JSMap.empty us
    | MsgUserJoined u => JSMap.set (user_id u) u (connectedUsers c)
    | MsgUserLeft k => JSMap.delete k (connectedUsers c)
    | _ => connectedUsers c
    end
  ∧ userInfo cv' =
    match message with
    | MsgUserInfo u => Some u
    | _ => userInfo cv
    end.
Proof.
  destruct message as [ss us|u|u|k|st|sid x y|sid|k x y col| |m|k t]; intros c cv'.
  - destruct (receive_canvas_state ss us cv) as [Hc Hu].
    destruct (handleCanvasState_mirror ss us (client cv)) as [Hs Hm].
    subst cv'. by rewrite Hc, Hs, Hm, Hu.
  - done.
  - subst cv' c. run_canvas. simpl.
    by destruct (el_userCount (dom (client cv))).
  - subst cv' c. run_canvas. simpl.
    by destruct (el_userCount (dom (client cv))).
  - subst cv' c. run_canvas. unfold userInfo_id.
    destruct cv as [c d cs col [u|] act co ecm etc snt lg]; simpl;
      repeat (match goal with |- context [if ?b then _ else _] => destruct b end; simpl);
      by destruct (stroke_points st).
  - subst cv' c. run_canvas. simpl.
    by destruct (list_find _ _) as [[i s]|].
  - subst cv' c. run_canvas. simpl. destruct sid; try done.
    by case_bool_decide.
  - done.
  - done.
  - subst cv' c. run_canvas. unfold userInfo_id.
    destruct cv as [c d cs col ui act [|] [l|] [|] snt lg]; simpl;
      destruct (opt_strict_eq _ _); simpl; try done;
      by destruct (chat_userId m).
  - done.
Qed.

(** Where ids are unique, the client's search by id finds the stroke the
    server found by owner and id. *)
Lemma find_by_id userId sid (ss : list (Stroke Num)) i :
  NoDup (stroke_ids ss) → first_owned userId sid ss i →
  ∃ s, list_find (λ s, str_strict_eq (stroke_id s) sid = true) ss = Some (i, s).
Proof.
  intros Hnd [(s & Hs & Ho & <-) _]. exists s. apply list_find_Some.
  split_and!; [done|simpl; by rewrite bool_decide_eq_true|].
  intros j s' Hs' Hlt. simpl. rewrite bool_decide_eq_true. intros Heq.
  assert (j = i); [|lia].
  apply (NoDup_lookup _ _ _ (stroke_id s) Hnd); unfold stroke_ids;
    rewrite list_lookup_fmap; [rewrite Hs'; simpl; by f_equal|by rewrite Hs].
Qed.

Lemma emitted_eq ev sys new :
  outbox (world (step ev sys)) = outbox (world sys) ++ new →
  emitted ev sys = new.
Proof. unfold emitted. intros ->. by rewrite drop_app_length. Qed.

Lemma run_outbox evs sys :
  outbox (world (run evs sys)) = outbox (world sys) ++ emitted_run evs sys.
Proof.
  assert (∃ new, outbox (world (run evs sys)) = outbox (world sys) ++ new)
    as [new Hnew].
  { revert sys. induction evs as [|ev evs IH]; intros sys.
    - exists []. simpl. by rewrite app_nil_r.
    - destruct (IH (step ev sys)) as [new Hnew].
      exists (emitted ev sys ++ new). simpl.
      etrans; [exact Hnew|]. by rewrite outbox_emitted, <-app_assoc. }
  unfold emitted_run. rewrite Hnew. by rewrite drop_app_length.
Qed.

Lemma emitted_run_cons ev evs sys :
  emitted_run (ev :: evs) sys = emitted ev sys ++ emitted_run evs (step ev sys).
Proof.
  apply (app_inv_head (outbox (world sys))).
  rewrite <-run_outbox, app_assoc, <-outbox_emitted, <-run_outbox. done.
Qed.

Lemma deliver_app (a b : list (ServerMsg Num)) cv :
  deliver (a ++ b) cv = deliver b (deliver a cv).
Proof. apply foldl_app. Qed.

Lemma deliver_one (message : ServerMsg Num) cv :
  deliver [message] cv = receive message cv.
Proof. done. Qed.

Lemma inbox_cons_same ws (message : ServerMsg Num) frames :
  inbox ws ((ws, message) :: frames) = message :: inbox ws frames.
Proof. unfold inbox. rewrite filter_cons. simpl. by rewrite decide_True. Qed.

Lemma fresh_NoDup ws (cs : list (Ws * ReadyState)) :
  Forall (λ c, (c.1 < ws)%nat) cs → NoDup cs.*1 →
  NoDup (cs ++ [(ws, OPEN)]).*1.
Proof.
  intros Hfresh Hnd. rewrite fmap_app. apply NoDup_app.
  split_and!; [done| |csimpl; apply NoDup_singleton].
  intros c Hc Hc'. csimpl in Hc'. apply list_elem_of_singleton in Hc'. subst c.
  apply list_elem_of_fmap in Hc as ([c rs] & Heq & Hc).
  rewrite Forall_forall in Hfresh. specialize (Hfresh _ Hc). simpl in *. lia.
Qed.

Lemma arrives_app ws (a b : list (Ws * ServerMsg Num)) :
  arrives ws (a ++ b) = arrives ws a ++ arrives ws b.
Proof. unfold arrives. by rewrite inbox_app, fmap_app. Qed.

Lemma sessions_fold (us : list (UserInfo Num))
    (acc acc' : JSMap.t string (UserInfo Num)) :
  sessions acc = sessions acc' →
  sessions (foldl (λ m u, JSMap.set (user_id u) u m) acc (json_user <$> us))
  = sessions (foldl (λ m u, JSMap.set (user_id u) u m) acc' us).
Proof.
  revert acc acc'. induction us as [|u us IH]; intros acc acc' Hacc; [done|].
  csimpl. apply IH. by apply sessions_set.
Qed.

(** Where ids are unique, the client's search by id in its copy finds
    the stroke the server found by owner and id. *)
Lemma find_by_id_json userId sid (ss : list (Stroke Num)) i :
  NoDup (stroke_ids ss) → first_owned userId sid ss i →
  json_value sid = sid
  ∧ ∃ s, list_find (λ s, str_strict_eq (stroke_id s) sid = true)
                   (json_stroke <$> ss) = Some (i, s).
Proof.
  intros Hnd Hfirst. pose proof Hfirst as [(s0 & _ & _ & <-) _].
  split; [done|].
  destruct (find_by_id _ _ _ _ Hnd Hfirst) as [s Hfind].
  exists (json_stroke s). rewrite list_find_fmap.
  by erewrite list_find_ext, Hfind.
Qed.

Lemma alter_json (p : Point Num) i (ss : list (Stroke Num)) :
  alter (push_point (json_point p)) i (json_stroke <$> ss)
  = json_stroke <$> alter (push_point p) i ss.
Proof.
  revert i. induction ss as [|s ss IH]; intros [|i]; csimpl; try done.
  - f_equal. unfold json_stroke, push_point. simpl. f_equal.
    by rewrite fmap_app.
  - f_equal. apply IH.
Qed.

Lemma sync_connection ws o sys cv :
  synced ws sys cv →
  synced ws (step (EvConnection o) sys)
         (deliver (arrives ws (emitted (EvConnection o) sys)) cv).
Proof.
  intros (Hinv & Hlt & Hopen & Hnd & Hss & Hus & Hid).
  pose proof (sys_inv_step (EvConnection o) sys Hinv) as Hinv'.
  destruct Hinv as (Hcr & Hok & Hfresh).
  pose proof (step_connection o sys Hcr) as Hstep.
  cbv zeta in Hstep. rewrite on_connection_spec in Hstep. simpl in Hstep.
  rewrite readyState_in_fresh in Hstep by done. simpl in Hstep.
  rewrite to_others_fresh in Hstep by done.
  set (u := mkUserInfo _ _ _ _) in Hstep.
  erewrite emitted_eq; [|rewrite Hstep; simpl; reflexivity].
  unfold arrives. rewrite !inbox_cons_other by lia.
  change (map (λ c, (c, MsgUserJoined u)) (open_clients ?cs))
    with (to_all cs (MsgUserJoined u)).
  rewrite inbox_to_all by done.
  change (deliver (json_frame <$> [?m]) cv) with (receive (json_frame m) cv).
  destruct (receive_mirror (json_frame (MsgUserJoined u)) cv)
    as (Hs' & Hu' & Hi').
  cbv beta iota zeta delta [json_frame] in Hs', Hu', Hi'.
  unfold synced, strokes_of, users_of, userInfo_id.
  change (json_frame (MsgUserJoined u)) with (MsgUserJoined (json_user u)).
  rewrite Hs', Hu', Hi'.
  rewrite Hstep in Hinv' |- *. simpl. split_and!.
  - done.
  - lia.
  - apply elem_of_app. by left.
  - by apply fresh_NoDup.
  - done.
  - by apply sessions_set.
  - rewrite lookup_insert_ne by lia. done.
Qed.

(** The first two frames of a connection bring the client in step. *)
Lemma sync_start o sys cv :
  sys_inv sys → NoDup (wss_clients (server (world sys))).*1 →
  synced (next_ws sys) (step (EvConnection o) sys)
         (deliver (arrives (next_ws sys) (emitted (EvConnection o) sys)) cv).
Proof.
  intros Hinv Hnd.
  pose proof (sys_inv_step (EvConnection o) sys Hinv) as Hinv'.
  destruct Hinv as (Hcr & Hok & Hfresh).
  pose proof (step_connection o sys Hcr) as Hstep.
  cbv zeta in Hstep. rewrite on_connection_spec in Hstep. simpl in Hstep.
  rewrite readyState_in_fresh in Hstep by done. simpl in Hstep.
  rewrite to_others_fresh in Hstep by done.
  set (u := mkUserInfo _ _ _ _) in Hstep.
  erewrite emitted_eq; [|rewrite Hstep; simpl; reflexivity].
  unfold arrives. rewrite !inbox_cons_same.
  rewrite inbox_map by by apply open_clients_NoDup.
  rewrite decide_False.
  2:{ intros Hin%elem_of_open_clients. rewrite Forall_forall in Hfresh.
      specialize (Hfresh _ Hin). simpl in Hfresh. lia. }
  change (deliver (json_frame <$> [?a; ?b]) cv)
    with (receive (json_frame b) (receive (json_frame a) cv)).
  match goal with
  | |- context [receive (json_frame (MsgUserInfo u))
                        (receive (json_frame (MsgCanvasState ?ss ?us)) cv)] =>
      change (json_frame (MsgUserInfo u)) with (MsgUserInfo (json_user u));
      change (json_frame (MsgCanvasState ss us))
        with (MsgCanvasState (json_stroke <$> ss) (json_user <$> us));
      destruct (receive_mirror (MsgUserInfo (json_user u))
                  (receive (MsgCanvasState (json_stroke <$> ss)
                                           (json_user <$> us)) cv))
        as (Hs' & Hu' & Hi');
      destruct (receive_mirror (MsgCanvasState (json_stroke <$> ss)
                                               (json_user <$> us)) cv)
        as (Hs1 & Hu1 & _)
  end.
  cbv beta iota zeta in Hs', Hu', Hi', Hs1, Hu1.
  unfold synced, strokes_of, users_of, userInfo_id. rewrite Hs', Hu', Hi', Hs1, Hu1.
  pose proof Hinv' as (_ & [Hwf Hkeys] & _). unfold users_of in Hwf, Hkeys.
  rewrite Hstep in Hinv', Hwf, Hkeys |- *. simpl in Hwf, Hkeys |- *.
  rewrite (sessions_fold _ JSMap.empty JSMap.empty) by done.
  rewrite (rebuild_users JSMap.empty) by done. simpl. split_and!.
  - exact Hinv'.
  - lia.
  - apply elem_of_app. right. by left.
  - by apply fresh_NoDup.
  - done.
  - done.
  - by rewrite lookup_insert_eq.
Qed.

Lemma clients_nodup_step ev sys :
  sys_inv sys → NoDup (wss_clients (server (world sys))).*1 →
  NoDup (wss_clients (server (world (step ev sys)))).*1.
Proof.
  intros (Hcr & Hok & Hfresh) Hnd. destruct ev as [o|ws o message|ws|ws].
  - rewrite step_connection by done. cbv zeta. rewrite on_connection_spec.
    simpl. by apply fresh_NoDup.
  - destruct (handlers sys !! ws) as [cl|] eqn:Hcl.
    + rewrite (step_message ws cl) by done. simpl.
      destruct (on_message_outcome ws cl o message (world sys))
        as [Hs _|st p _ _ _ _ _ Hs _|i sid x y _ _ _ Hs _|sid _ _ Hs _
            |k u x y _ _ _ _ Hs _|_ Hs _|k u m _ _ _ _ _ _ _ _ Hs _
            |k t _ _ _ _ Hs _]; by rewrite Hs.
    + unfold step. by rewrite Hcr, Hcl.
  - unfold step. rewrite Hcr. destruct (handlers sys !! ws); [|done].
    simpl. rewrite <-list_fmap_compose.
    erewrite list_fmap_ext; [exact Hnd|]. intros i [c0 rs] _. simpl.
    by case_decide.
  - destruct (handlers sys !! ws) as [cl|] eqn:Hcl.
    + rewrite (step_close ws cl) by done. simpl.
      assert (wss_clients (server (on_close ws cl (clients_delete ws (world sys))).2)
              = filter (λ c, c.1 ≠ ws) (wss_clients (server (world sys)))) as ->.
      { destruct (id_truthy (connectedClients (server (world sys)) !! ws)) eqn:Hid.
        - destruct (connectedClients (server (world sys)) !! ws) as [k|] eqn:Hk;
            [|done].
          rewrite (on_close_spec ws cl k); [done|done|].
          simpl in Hid. intros ->. done.
        - by rewrite on_close_unregistered. }
      apply (sublist_NoDup _ _ Hnd), fmap_sublist, sublist_filter.
    + unfold step. by rewrite Hcr, Hcl.
Qed.

Lemma clients_nodup_run evs :
  NoDup (wss_clients (server (world (run evs (@initial Num))))).*1.
Proof.
  induction evs as [|ev evs IH] using rev_ind; [by constructor|].
  unfold run. rewrite foldl_app. simpl.
  apply clients_nodup_step; [apply reachable_inv|exact IH].
Qed.

(** The client stays in step over an event that leaves the sockets and
    the registrations alone, when the frames it receives do to its copy
    what the event did to the server. *)
Lemma sync_by ws sys sys' cv cv' :
  synced ws sys cv → sys_inv sys' →
  next_ws sys' = next_ws sys →
  wss_clients (server (world sys')) = wss_clients (server (world sys)) →
  connectedClients (server (world sys')) = connectedClients (server (world sys)) →
  userInfo cv' = userInfo cv →
  canvasStrokes (client cv') = json_stroke <$> strokes_of sys' →
  sessions (connectedUsers (client cv')) = sessions (users_of sys') →
  synced ws sys' cv'.
Proof.
  intros (Hinv & Hlt & Hopen & Hnd & Hss & Hus & Hid) Hinv' Hn Hcs Hcc Hi Hs Hu.
  unfold synced, userInfo_id. rewrite Hn, Hcs, Hcc, Hi. by split_and!.
Qed.

Lemma sync_idle ws ev sys cv :
  step ev sys = sys → synced ws sys cv →
  synced ws (step ev sys) (deliver (arrives ws (emitted ev sys)) cv).
Proof.
  intros Hstep Hsync. rewrite (emitted_eq _ _ []).
  - by rewrite Hstep.
  - by rewrite Hstep, app_nil_r.
Qed.

Lemma sync_message ws ws0 o (message : Inbound Num) sys cv :
  synced ws sys cv → NoDup (stroke_ids (strokes_of sys)) →
  synced ws (step (EvMessage ws0 o message) sys)
         (deliver (arrives ws (emitted (EvMessage ws0 o message) sys)) cv).
Proof.
  intros Hsync Hids.
  pose proof Hsync as (Hinv & Hlt & Hopen & Hnd & Hss & Hus & Hid).
  pose proof (sys_inv_step (EvMessage ws0 o message) sys Hinv) as Hinv'.
  destruct Hinv as (Hcr & Hok & Hfresh).
  destruct (handlers sys !! ws0) as [cl|] eqn:Hcl.
  2:{ apply sync_idle; [|done]. unfold step. by rewrite Hcr, Hcl. }
  pose proof (step_message ws0 cl o message sys Hcr Hcl) as Hstep.
  set (w' := (on_message ws0 cl o message (world sys)).2) in Hstep.
  assert (∀ new, outbox w' = outbox (world sys) ++ new →
                 emitted (EvMessage ws0 o message) sys = new) as Hnew.
  { intros new Hnew. apply emitted_eq. by rewrite Hstep. }
  assert (∀ frames,
    server w' = server (world sys) →
    canvasStrokes (client (deliver frames cv)) = canvasStrokes (client cv) →
    connectedUsers (client (deliver frames cv)) = connectedUsers (client cv) →
    userInfo (deliver frames cv) = userInfo cv →
    synced ws (step (EvMessage ws0 o message) sys) (deliver frames cv)) as Hsame.
  { intros frames Hs Hs' Hu' Hi'.
    apply (sync_by ws sys _ cv); try done; unfold strokes_of, users_of;
      rewrite Hstep; cbn [world next_ws]; rewrite ?Hs;
      cbn [server set_strokes set_users canvasState strokes users
           wss_clients connectedClients]; try done.
    - by rewrite Hs'.
    - by rewrite Hu'. }
  unfold arrives.
  destruct (on_message_outcome ws0 cl o message (world sys))
    as [Hs Ho|st p _ _ _ _ _ Hs Ho|i sid x y _ _ Hfirst Hs Ho|sid _ _ Hs Ho
        |k u x y _ _ _ _ Hs Ho|_ Hs Ho|k u m _ _ _ _ _ _ _ _ Hs Ho
        |k t _ _ _ _ Hs Ho]; fold w' in Hs, Ho.
  - rewrite (Hnew []) by by rewrite app_nil_r. by apply (Hsame []).
  - rewrite (Hnew _ Ho), inbox_to_all by done.
    change (deliver (json_frame <$> [?m]) cv) with (receive (json_frame m) cv).
    destruct (receive_mirror (json_frame (MsgDrawStart st)) cv)
      as (Hs' & Hu' & Hi').
    apply (sync_by ws sys _ cv); try done; unfold strokes_of, users_of;
      rewrite Hstep; cbn [world next_ws]; rewrite ?Hs;
      cbn [server set_strokes set_users canvasState strokes users
           wss_clients connectedClients]; try done.
    + rewrite Hs'. cbn [json_frame]. rewrite Hss, fmap_app. done.
    + by rewrite Hu'.
  - rewrite (Hnew _ Ho), inbox_to_all by done.
    change (deliver (json_frame <$> [?m]) cv) with (receive (json_frame m) cv).
    destruct (receive_mirror (json_frame (MsgDrawContinue sid x y)) cv)
      as (Hs' & Hu' & Hi').
    cbv beta iota zeta delta [json_frame] in Hs'. rewrite Hss in Hs'.
    destruct (find_by_id_json _ _ _ _ Hids Hfirst) as [Hsid [s Hfind]].
    rewrite Hsid in Hs'. rewrite Hfind in Hs'.
    change (mkPoint (json_value x) (json_value y))
      with (json_point (mkPoint x y)) in Hs'.
    rewrite alter_json in Hs'.
    apply (sync_by ws sys _ cv); try done; unfold strokes_of, users_of;
      rewrite Hstep; cbn [world next_ws]; rewrite ?Hs;
      cbn [server set_strokes set_users canvasState strokes users
           wss_clients connectedClients]; try done.
    + cbn [json_frame]. rewrite Hsid. exact Hs'.
    + by rewrite Hu'.
  - rewrite (Hnew _ Ho), inbox_to_all by done.
    destruct (receive_mirror (json_frame (MsgDrawEnd sid)) cv)
      as (Hs' & Hu' & Hi').
    by apply (Hsame [json_frame (MsgDrawEnd sid)]).
  - rewrite (Hnew _ Ho), inbox_to_others by done.
    assert (∃ frames, json_frame <$>
                        (if decide (ws = ws0) then []
                         else [MsgCursorMove (Some k) x y (user_color u)])
                      = frames
                      ∧ canvasStrokes (client (deliver frames cv))
                        = canvasStrokes (client cv)
                      ∧ connectedUsers (client (deliver frames cv))
                        = connectedUsers (client cv)
                      ∧ userInfo (deliver frames cv) = userInfo cv)
      as (frames & -> & Hs' & Hu' & Hi').
    { case_decide; eexists; (split; [done|]); [done|].
      apply (receive_mirror (MsgCursorMove _ _ _ _)). }
    apply (sync_by ws sys _ cv); try done; unfold strokes_of, users_of;
      rewrite Hstep; cbn [world next_ws]; rewrite ?Hs;
      cbn [server set_strokes set_users canvasState strokes users
           wss_clients connectedClients]; try done.
    + by rewrite Hs'.
    + rewrite Hu'. simpl. by rewrite sessions_cursor.
  - rewrite (Hnew _ Ho), inbox_to_all by done.
    change (deliver (json_frame <$> [?m]) cv) with (receive (json_frame m) cv).
    destruct (receive_mirror (json_frame MsgClearCanvas) cv)
      as (Hs' & Hu' & Hi').
    apply (sync_by ws sys _ cv); try done; unfold strokes_of, users_of;
      rewrite Hstep; cbn [world next_ws]; rewrite ?Hs;
      cbn [server set_strokes set_users canvasState strokes users
           wss_clients connectedClients]; done.
  - rewrite (Hnew _ Ho), inbox_to_all by done.
    destruct (receive_mirror (json_frame (MsgChatMessage m)) cv)
      as (Hs' & Hu' & Hi').
    by apply (Hsame [json_frame (MsgChatMessage m)]).
  - rewrite (Hnew _ Ho), inbox_to_others by done.
    case_decide; [by apply (Hsame [])|].
    destruct (receive_mirror (json_frame (MsgUserTyping (Some k) t)) cv)
      as (Hs' & Hu' & Hi').
    by apply (Hsame [json_frame (MsgUserTyping (Some k) t)]).
Qed.

Lemma sync_closing ws ws' sys cv :
  ws' ≠ ws → synced ws sys cv →
  synced ws (step (EvClosing ws') sys)
         (deliver (arrives ws (emitted (EvClosing ws') sys)) cv).
Proof.
  intros Hne Hsync.
  pose proof Hsync as (Hinv & Hlt & Hopen & Hnd & Hss & Hus & Hid).
  pose proof (sys_inv_step (EvClosing ws') sys Hinv) as Hinv'.
  pose proof (clients_nodup_step (EvClosing ws') sys Hinv Hnd) as Hnd'.
  destruct Hinv as (Hcr & Hok & Hfresh).
  destruct (handlers sys !! ws') as [cl|] eqn:Hcl.
  2:{ apply sync_idle; [|done]. unfold step. by rewrite Hcr, Hcl. }
  assert (step (EvClosing ws') sys
          = mkSystem (clients_closing ws' (world sys)) (handlers sys)
                     (next_ws sys) false) as Hstep.
  { unfold step. by rewrite Hcr, Hcl. }
  rewrite (emitted_eq _ _ []) by (rewrite Hstep; simpl; by rewrite app_nil_r).
  unfold synced, strokes_of, users_of. rewrite Hstep in Hinv', Hnd' |- *.
  simpl in Hnd' |- *. split_and!; try done.
  apply list_elem_of_fmap. exists (ws, OPEN). split; [|done].
  simpl. by rewrite decide_False.
Qed.

Lemma sync_close ws ws' sys cv :
  ws' ≠ ws → synced ws sys cv →
  synced ws (step (EvClose ws') sys)
         (deliver (arrives ws (emitted (EvClose ws') sys)) cv).
Proof.
  intros Hne Hsync.
  pose proof Hsync as (Hinv & Hlt & Hopen & Hnd & Hss & Hus & Hid).
  pose proof (sys_inv_step (EvClose ws') sys Hinv) as Hinv'.
  pose proof (clients_nodup_step (EvClose ws') sys Hinv Hnd) as Hnd'.
  destruct Hinv as (Hcr & Hok & Hfresh).
  destruct (handlers sys !! ws') as [cl|] eqn:Hcl.
  2:{ apply sync_idle; [|done]. unfold step. by rewrite Hcr, Hcl. }
  pose proof (step_close ws' cl sys Hcr Hcl) as Hstep.
  assert ((ws, OPEN) ∈ filter (λ c : Ws * ReadyState, c.1 ≠ ws')
                              (wss_clients (server (world sys)))) as Hopen'.
  { apply list_elem_of_filter. split; [simpl; congruence|done]. }
  destruct (id_truthy (connectedClients (server (world sys)) !! ws')) eqn:Hreg.
  - destruct (connectedClients (server (world sys)) !! ws') as [k|] eqn:Hk;
      [|done].
    rewrite (on_close_spec ws' cl k) in Hstep;
      [|done|simpl in Hreg; by intros ->].
    simpl in Hstep.
    rewrite (emitted_eq _ _ _ ltac:(rewrite Hstep; simpl; reflexivity)).
    rewrite Hstep in Hinv', Hnd'. simpl in Hnd'.
    unfold arrives. rewrite inbox_to_all by done.
    destruct (receive_mirror (MsgUserLeft k) cv) as (Hs' & Hu' & Hi').
    cbv beta iota zeta in Hs', Hu', Hi'.
    unfold synced, strokes_of, users_of, userInfo_id.
    rewrite Hstep. cbn [world server canvasState strokes users next_ws
                        wss_clients connectedClients].
    change (deliver (json_frame <$> [MsgUserLeft k]) cv)
      with (receive (MsgUserLeft k) cv).
    rewrite Hs', Hu', Hi'.
    split_and!; try done.
    + by apply sessions_delete.
    + by rewrite lookup_delete_ne.
  - rewrite on_close_unregistered in Hstep by done. simpl in Hstep.
    rewrite (emitted_eq _ _ []) by (rewrite Hstep; simpl; by rewrite app_nil_r).
    unfold synced, strokes_of, users_of. rewrite Hstep in Hinv', Hnd' |- *.
    simpl in Hnd' |- *. by split_and!.
Qed.

Lemma sync_step ws ev sys cv :
  synced ws sys cv → NoDup (stroke_ids (strokes_of sys)) → ¬ closes ws ev →
  synced ws (step ev sys) (deliver (arrives ws (emitted ev sys)) cv).
Proof.
  intros Hsync Hids Hev. destruct ev as [o|ws0 o message|ws'|ws'].
  - by apply sync_connection.
  - by apply sync_message.
  - by apply sync_closing.
  - by apply sync_close.
Qed.

Lemma sync_run ws evs sys cv :
  synced ws sys cv →
  NoDup (stroke_ids (strokes_of sys) ++ drawn_ids evs) →
  stays_open ws evs →
  synced ws (run evs sys) (deliver (arrives ws (emitted_run evs sys)) cv).
Proof.
  revert sys cv. induction evs as [|ev evs IH]; intros sys cv Hsync Hids Hopen.
  - unfold emitted_run. simpl. by rewrite drop_all.
  - apply Forall_cons in Hopen as [Hev Hopen].
    rewrite emitted_run_cons, arrives_app, deliver_app.
    change (run (ev :: evs) sys) with (run evs (step ev sys)).
    apply IH; [|clear IH|done].
    + apply sync_step; [done| |done]. by apply NoDup_app in Hids as [? _].
    + rewrite drawn_ids_cons, app_assoc in Hids.
      destruct (stroke_ids_step ev sys) as [->|[->|Heq]].
      * apply NoDup_app in Hids as (Ha & Hb & Hc). apply NoDup_app.
        apply NoDup_app in Ha as (Ha & _ & _). split_and!; [done| |done].
        intros x Hx. apply Hb, elem_of_app. by left.
      * simpl. by apply NoDup_app in Hids as (_ & _ & ?).
      * rewrite app_nil_r in Heq. by rewrite Heq.
Qed.

Lemma stroke_ids_run evs sys :
  stroke_ids (strokes_of (run evs sys))
  `sublist_of` stroke_ids (strokes_of sys) ++ drawn_ids evs.
Proof.
  revert sys. induction evs as [|ev evs IH]; intros sys.
  - simpl. by rewrite app_nil_r.
  - change (run (ev :: evs) sys) with (run evs (step ev sys)).
    etrans; [apply IH|].
    rewrite (drawn_ids_cons ev evs), app_assoc. apply sublist_app; [|done].
    destruct (stroke_ids_step ev sys) as [->|[->|Heq]].
    + by apply sublist_inserts_r.
    + apply sublist_nil_l.
    + rewrite app_nil_r in Heq. by rewrite Heq.
Qed.

(** X13: a client that connects and stays connected holds the server's
    drawing as the wire carries it.  After any history, let a socket
    connect and let any events follow that do not close it, all ids drawn
    being different and every clock read being a number the wire carries.
    The client that has handled, in order, the frames written to its
    socket, each as [JSON.parse] returns it (whatever the client held
    before), has the strokes of the server with every value as JSON
    writes it: point for point where the strokes hold only values that
    JSON carries unchanged, and with [null] where the server holds an
    infinite number.  It has the same sessions in the same order (cursors
    apart) and knows itself by the id the server registered for its
    socket. *)
Theorem client_mirrors_server evs0 o evs cv :
  let sys0 := run evs0 initial in
  let ws := next_ws sys0 in
  let history := EvConnection o :: evs in
  let cv' := deliver (arrives ws (emitted_run history sys0)) cv in
  stays_open ws evs →
  NoDup (drawn_ids (evs0 ++ history)) →
  Forall clock_carried (evs0 ++ history) →
  canvasStrokes (client cv') = json_stroke <$> strokes_of (run history sys0)
  ∧ (Forall (λ s, json_stroke s = s) (strokes_of (run history sys0)) →
     canvasStrokes (client cv') = strokes_of (run history sys0))
  ∧ sessions (connectedUsers (client cv'))
    = sessions (users_of (run history sys0))
  ∧ userInfo_id cv'
    = connectedClients (server (world (run history sys0))) !! ws.
Proof.
  intros sys0 ws history cv' Hopen Hids _.
  assert (synced ws (run history sys0) cv') as (_ & _ & _ & _ & Hs & ? & ?).
  { subst cv' history. rewrite emitted_run_cons, arrives_app, deliver_app.
    change (run (?ev :: evs) sys0) with (run evs (step ev sys0)).
    apply sync_run; [| |done].
    - apply sync_start; [apply reachable_inv|apply clients_nodup_run].
    - unfold drawn_ids in Hids. rewrite omap_app in Hids. simpl in Hids.
      fold (drawn_ids evs0) (drawn_ids evs) in Hids.
      apply (sublist_NoDup _ _ Hids), sublist_app; [|done].
      etrans; [|apply (stroke_ids_run evs0 initial)].
      destruct (stroke_ids_step (EvConnection o) sys0) as [->|[->|Heq]].
      + done.
      + apply sublist_nil_l.
      + simpl in Heq. rewrite !app_nil_r in Heq. by rewrite Heq. }
  split_and!; [done| |done|done].
  intros Hcarried. rewrite Hs. clear Hs.
  induction Hcarried as [|s ss Heq _ IH]; [done|]. csimpl. by rewrite Heq, IH.
Qed.





Ltac run_actions :=
  unfold startDrawing, continueDrawing, stopDrawing, sendMessage, mbind,
    M_bind, bind, gets, modify, ret.

(** X15: Releasing the pointer before the server's echo of the
    ['draw-start'] has arrived ends nothing.  With no current stroke,
    [stopDrawing] sends no ['draw-end'] and leaves [isDrawing] set; once
    the echo of a stroke of this session arrives, a move of the pointer
    sends a ['draw-continue'] for it although the pointer is up. *)
Theorem release_before_echo cv u st x y width x' y' :
  currentStroke cv = None →
  userInfo cv = Some u →
  stroke_userId st = Some (user_id u) →
  let cv1 := (startDrawing true x y width cv).2 in
  let cv2 := (stopDrawing true cv1).2 in
  let cv3 := receive (MsgDrawStart st) cv2 in
  let cv4 := (continueDrawing true x' y' cv3).2 in
  cv2 = cv1
  ∧ isDrawing cv3 = true
  ∧ sent cv4 =
    sent cv1 ++ [("draw-continue",
                  JObj [("strokeId", JStr (stroke_id st)); ("x", x'); ("y", y')])].
Proof.
  intros Hcur Hu Hst. destruct cv as [c d cs col ui act co ecm etc snt lg].
  simpl in Hcur, Hu. subst cs ui. intros cv1 cv2 cv3 cv4.
  subst cv4 cv3 cv2 cv1. run_actions.
  unfold receive, socket_onmessage, handleServerMessage, handleDrawStart,
    drawStrokeStart, in_client, userInfo_id, try_catch, mbind, M_bind, bind,
    gets, modify, throw, ret.
  simpl. rewrite Hst. unfold opt_strict_eq.
  repeat (case_bool_decide; [simpl|congruence]). by destruct (stroke_points st).
Qed.

(** X16: A stroke the user begins and continues reaches the server
    whole.  For a client that knows itself by the id [k] its socket is
    registered under: the ['draw-start'] it sends makes the server append
    a stroke of [k] with the first point; when the server's echo has
    made that stroke current, the ['draw-continue'] the client sends
    names it, and the server appends the second point to it. *)
Theorem own_stroke_round_trip ws cl o o' k w cv x y width x' y' :
  connectedClients (server w) !! ws = Some k →
  userInfo_id cv = Some k →
  uuid_a o ∉ stroke_ids (strokes (canvasState (server w))) →
  let begin :=
    JObj [("x", x); ("y", y); ("color", JStr (canvas_userColor cv));
          ("width", width)] in
  let more := JObj [("strokeId", JStr (uuid_a o)); ("x", x'); ("y", y')] in
  let st :=
    mkStroke (uuid_a o) (Some k)
             (js_or (JStr (canvas_userColor cv)) (JStr (userColor cl)))
             (js_or width (JNum (num_of_Z 2))) [mkPoint x y] (now o) in
  let cv1 := (startDrawing true x y width cv).2 in
  let w1 := (on_message ws cl o (on_wire ("draw-start", begin)) w).2 in
  let cv2 := receive (MsgDrawStart st) cv1 in
  let cv3 := (continueDrawing true x' y' cv2).2 in
  let w2 := (on_message ws cl o' (on_wire ("draw-continue", more)) w1).2 in
  sent cv1 = sent cv ++ [("draw-start", begin)]
  ∧ strokes (canvasState (server w1)) = strokes (canvasState (server w)) ++ [st]
  ∧ sent cv3 = sent cv1 ++ [("draw-continue", more)]
  ∧ strokes (canvasState (server w2))
    = strokes (canvasState (server w)) ++ [push_point (mkPoint x' y') st].
Proof.
  intros Hk Hid Hfresh begin more st cv1 w1 cv2 cv3 w2.
  assert (w1 = add_outbox (to_all (wss_clients (server w)) (MsgDrawStart st))
                          (set_strokes (λ l, l ++ [st]) w)) as Hw1.
  { subst w1. unfold on_wire. simpl. rewrite on_message_envelope.
    rewrite bool_decide_eq_true_2 by done. unfold try_catch.
    rewrite draw_start_ok by done. by rewrite Hk. }
  assert (first_owned (Some k) (JStr (uuid_a o))
                      (strokes (canvasState (server w1)))
                      (length (strokes (canvasState (server w))))) as Hfirst.
  { rewrite Hw1. simpl. split.
    - exists st. split; [|done]. by rewrite lookup_app_r, Nat.sub_diag by lia.
    - intros j s' Hj Hs' [_ Heq]. apply Hfresh.
      rewrite lookup_app_l in Hs' by done. injection Heq as <-.
      unfold stroke_ids. apply list_elem_of_fmap. exists s'. split; [done|].
      by eapply list_elem_of_lookup_2. }
  split_and!.
  - done.
  - by rewrite Hw1.
  - subst cv3 cv2 cv1. clear Hk Hfresh Hfirst Hw1 w2 w1.
    destruct cv as [c d cs col ui act co ecm etc snt lg].
    unfold userInfo_id in Hid. simpl in Hid.
    destruct ui as [u|]; [|done]. simpl in Hid. injection Hid as Hid.
    unfold startDrawing, continueDrawing, sendMessage, mbind,
      M_bind, bind, gets, modify, ret.
    unfold receive, socket_onmessage, handleServerMessage, handleDrawStart,
      drawStrokeStart, in_client, userInfo_id, try_catch, mbind, M_bind, bind,
      gets, modify, throw, ret.
    simpl. unfold opt_strict_eq. rewrite Hid.
    repeat (case_bool_decide; [simpl|congruence]). by destruct (stroke_points st).
  - subst w2. unfold on_wire. simpl. rewrite on_message_envelope.
    rewrite bool_decide_eq_false_2 by done.
    rewrite bool_decide_eq_true_2 by done. unfold try_catch.
    assert (connectedClients (server w1) !! ws = Some k) as ->
      by by rewrite Hw1.
    rewrite (draw_continue_found ws (Some k) more w1 _ eq_refl Hfirst).
    rewrite Hw1. simpl.
    rewrite alter_app_r_alt, Nat.sub_diag by lia. done.
Qed.

End Mirror.

(** ** Every retry the client schedules *)

Section ReconnectBounds.
Context {Num : Type}.
Implicit Types c : Client Num.
Local Open Scope Z_scope.

Lemma timeouts_step (ev : ClientEvent Num) c :
  client_inv c →
  timeouts (client_step ev c) = timeouts c
  ∨ ∃ k : nat, (k < 10)%nat
      ∧ timeouts (client_step ev c) = timeouts c ++ [1000 * 2 ^ (0 + Z.of_nat k)].
Proof.
  intros Hinv. pose proof Hinv as (Hmax & Hdelay & Hrange & Hstatus).
  destruct ev as [| | |created|ss us].
  - left. by apply open_resets.
  - destruct (decide (reconnectAttempts c < 10)) as [Hlt|Hge].
    + right. destruct (close_below c Hinv Hlt) as (_ & Ha & Ht & _).
      exists (Z.to_nat (reconnectAttempts c)). split; [lia|].
      rewrite Ht, Ha.
      by replace (0 + Z.of_nat (Z.to_nat (reconnectAttempts c)))
        with (reconnectAttempts c + 1 - 1) by lia.
    + left. apply close_capped; [done|lia].
  - left. unfold client_step, onerror.
    by destruct (updateConnectionStatus_ok false c Hstatus) as [badge ->].
  - destruct created; [by left|].
    unfold client_step, connectWebSocket, try_catch, throw.
    destruct (decide (reconnectAttempts c < 10)) as [Hlt|Hge].
    + right. rewrite attemptReconnect_below by lia. simpl.
      exists (Z.to_nat (reconnectAttempts c)). split; [lia|].
      rewrite Hdelay.
      by replace (0 + Z.of_nat (Z.to_nat (reconnectAttempts c)))
        with (reconnectAttempts c + 1 - 1) by lia.
    + left. rewrite attemptReconnect_capped by lia.
      by destruct (showConnectionError_spec c) as (d & -> & _).
  - left.
    unfold client_step, onmessage_canvas_state, handleCanvasState, try_catch.
    unfold mbind, M_bind. rewrite !bind_modify, bind_forEach_modify.
    rewrite fold_set_users.
    unfold updateUserCount, redrawCanvas, mbind, M_bind, bind, gets, modify,
      throw, ret.
    cbn beta.
    match goal with |- context [el_userCount ?d] =>
      destruct (el_userCount d) end; done.
Qed.

Lemma backoff_table : backoff 0 10 =
  [1000; 2000; 4000; 8000; 16000; 32000; 64000; 128000; 256000; 512000].
Proof. reflexivity. Qed.

Lemma timeouts_run (evs : list (ClientEvent Num)) c :
  client_inv c →
  Forall (λ d, d ∈ backoff 0 10) (timeouts c) →
  Forall (λ d, d ∈ backoff 0 10) (timeouts (client_run evs c)).
Proof.
  revert c. induction evs as [|ev evs IH]; intros c Hinv Hall; [done|].
  simpl. apply IH; [by apply client_inv_step|].
  destruct (timeouts_step ev c Hinv) as [->|(k & Hk & ->)]; [done|].
  apply Forall_app. split; [done|]. apply Forall_singleton.
  unfold backoff. apply list_elem_of_fmap. exists k. split; [done|].
  apply elem_of_seq. lia.
Qed.

(** X17: Every retry is scheduled from the backoff table.  On a page
    with the status badge, whatever happens to the connection after the
    constructor has run, each delay ever given to [setTimeout] is one of
    the ten delays 1000 * 2^k, k < 10: at least one second and at most
    512 seconds. *)
Theorem retry_delays_from_table page created (evs : list (ClientEvent Num)) :
  is_Some (el_connectionStatus page) →
  Forall (λ d, d ∈ backoff 0 10 ∧ 1000 ≤ d ≤ 512000)
         (timeouts (client_run evs (constructed page created))).
Proof.
  intros Hpage.
  assert (Forall (λ d, d ∈ backoff 0 10)
                 (timeouts (client_run evs (@constructed Num page created))))
    as Hall.
  { apply timeouts_run; [by apply client_inv_constructed|].
    destruct created; [by constructor|].
    apply Forall_singleton. rewrite backoff_table. by left. }
  eapply Forall_impl; [exact Hall|]. intros d Hd. split; [done|].
  rewrite backoff_table in Hd.
  repeat (apply elem_of_cons in Hd as [->|Hd]; [lia|]).
  by apply elem_of_nil in Hd.
Qed.

(** X18: Without the status badge a lost connection is not retried.
    On a page that has no [#connectionStatus] element, [onclose] throws
    at the badge before it reaches [attemptReconnect]: after any number
    of connection losses the client is as it was, no retry scheduled and
    no error banner shown. *)
Theorem no_badge_no_retry (n : nat) c :
  el_connectionStatus (dom c) = None → losses n c = c.
Proof.
  intros Hnone.
  assert (client_step CeClose c = c) as Hclose.
  { unfold client_step, onclose, updateConnectionStatus, mbind, M_bind, bind,
      gets, throw. simpl. by rewrite Hnone. }
  unfold losses. induction n as [|n IH]; [done|].
  simpl. by rewrite Hclose.
Qed.

End ReconnectBounds.

(** ** Sessions at connection *)

Section Registration.
Context {Num : Type} `{RT : JSRuntime Num}.

(** X19: a connection registers a session.  After any events, a new
    socket gets a session stored under the fresh user id, with the
    connection id, a colour of the palette (the index drawn lies below
    its length) and the cursor at the origin; the socket is mapped to
    that id, is open, and has its handlers; the strokes are untouched. *)
Theorem connection_registers_session (evs : list (Event Num)) o :
  (random_index o < length colors)%nat →
  let sys := run evs initial in
  let ws := next_ws sys in
  let sys' := step (EvConnection o) sys in
  ∃ u,
    JSMap.get (uuid_b o) (users_of sys') = Some u
    ∧ user_id u = uuid_b o
    ∧ user_socketId u = uuid_a o
    ∧ user_color u ∈ colors
    ∧ user_cursor u = mkPoint (JNum (num_of_Z 0)) (JNum (num_of_Z 0))
    ∧ connectedClients (server (world sys')) !! ws = Some (uuid_b o)
    ∧ (ws, OPEN) ∈ wss_clients (server (world sys'))
    ∧ handlers sys' !! ws = Some (mkClosure (uuid_a o) (user_color u))
    ∧ strokes_of sys' = strokes_of sys.
Proof.
  intros Hrandom sys ws sys'.
  destruct (reachable_inv evs) as (Hcr & _ & _). fold sys in Hcr.
  subst sys'. rewrite step_connection by done. cbv zeta.
  rewrite on_connection_spec. fold ws. simpl.
  exists (mkUserInfo (uuid_b o) (uuid_a o)
                     (generateUserColor (random_index o))
                     (mkPoint (JNum (num_of_Z 0)) (JNum (num_of_Z 0)))).
  split_and!.
  - unfold users_of. simpl. apply jsmap_get_set.
  - done.
  - done.
  - simpl. unfold generateUserColor.
    destruct (lookup_lt_is_Some_2 colors (random_index o) Hrandom) as [c Hc].
    rewrite (nth_lookup_Some _ _ "" _ Hc). by eapply list_elem_of_lookup_2.
  - done.
  - by rewrite lookup_insert_eq.
  - apply elem_of_app. right. by left.
  - by rewrite lookup_insert_eq.
  - done.
Qed.

End Registration.

(** ** The further statements at work *)

(** The stroke the first session begins is announced to the second,
    whose socket is open. *)
Lemma frames_only_to_open_witness :
  (1%nat, OPEN)
  ∈ wss_clients (server (world
      (step (EvMessage 0%nat ex_oS (envelope "draw-start" ex_begin))
            (run ex_joined initial)))).
Proof.
  apply (frames_only_to_open _ _ _ (MsgDrawStart ex_stroke)).
  assert (emitted (EvMessage 0%nat ex_oS (envelope "draw-start" ex_begin))
                  (run ex_joined initial)
          = [(0%nat, MsgDrawStart ex_stroke); (1%nat, MsgDrawStart ex_stroke)])
    as -> by (vm_compute; reflexivity).
  apply elem_of_cons. right. apply elem_of_cons. by left.
Defined.

(** A ['draw-start'] without [data]. *)
Lemma missing_payload_dropped_witness :
  let handled := on_message 0%nat ex_clA ex_oS
                            (Parsed (JObj [("type", JStr "draw-start")]))
                            (world ex_sys) in
  handled.1 = Normal tt
  ∧ server handled.2 = server (world ex_sys)
  ∧ outbox handled.2 = outbox (world ex_sys).
Proof.
  apply (missing_payload_dropped 0%nat ex_clA ex_oS
           (Parsed (JObj [("type", JStr "draw-start")])) (world ex_sys)).
  - reflexivity.
  - intros H. vm_compute in H. discriminate H.
Defined.

(** The first stroke is continued, then the second session leaves. *)
Lemma strokes_append_only_witness :
  strokes_grown
    (strokes_of ex_sys)
    (strokes_of (run [EvMessage 0%nat ex_oT (envelope "draw-continue" ex_continue);
                      EvClose 1%nat] ex_sys)).
Proof.
  apply strokes_append_only. repeat constructor.
  - intros H. vm_compute in H. discriminate H.
  - intros H. exact H.
Defined.

(** One stroke drawn, one id. *)
Lemma stroke_ids_unique_witness : NoDup (stroke_ids (strokes_of ex_sys)).
Proof.
  apply (stroke_ids_unique ex_trace).
  vm_compute. apply NoDup_singleton.
Defined.

(** The first session says [" hi "]: both sessions are sent ["hi"]. *)
Lemma chat_message_broadcast_witness :
  let handled := on_message 0%nat ex_clA ex_oS
                            (envelope "chat-message" ex_chat) (world ex_sys) in
  let chat := mkChatMessage "stroke-1" (Some "user-a") "#FF6B6B" "hi"
                            (JNum 42%Z) in
  server handled.2 = server (world ex_sys)
  ∧ outbox handled.2 =
    outbox (world ex_sys)
    ++ [(0%nat, MsgChatMessage chat); (1%nat, MsgChatMessage chat)].
Proof.
  destruct (chat_message_broadcast 0%nat ex_clA ex_oS "user-a" ex_userA
              ex_chat " hi " (world ex_sys))
    as (_ & Hsame & Hout).
  - exact ex_sys_owner.
  - vm_compute. reflexivity.
  - reflexivity.
  - discriminate.
  - vm_compute. discriminate.
  - split; [exact Hsame|exact Hout].
Defined.

(** A blank text is not sent. *)
Lemma chat_message_rejected_witness :
  let handled := on_message 0%nat ex_clA ex_oS
                            (envelope "chat-message" ex_blank) (world ex_sys) in
  handled.1 = Normal tt
  ∧ server handled.2 = server (world ex_sys)
  ∧ outbox handled.2 = outbox (world ex_sys).
Proof.
  apply (chat_message_rejected 0%nat ex_clA ex_oS ex_blank (world ex_sys)).
  right. intros s Hs. vm_compute in Hs. injection Hs as <-. right.
  vm_compute. reflexivity.
Defined.

(** A third session connects, draws a stroke of two points and sees the
    first session leave: its client holds the stroke.  And a session
    that begins a stroke at an infinite [x]: the server holds the
    infinity, the client holds [null] in its place. *)
Lemma client_mirrors_server_witness :
  (let frames :=
     arrives 2%nat (emitted_run (EvConnection ex_oC :: ex_later)
                                (run ex_joined initial)) in
   let cv := deliver frames ex_canvas in
   canvasStrokes (client cv)
   = [mkStroke "stroke-1" (Some "user-c") (JStr "#FF0000") (JNum 3%Z)
               [mkPoint (JNum 10%Z) (JNum 10%Z);
                mkPoint (JNum 11%Z) (JNum 12%Z)]
               3000%Z]
   ∧ canvasStrokes (client cv)
     = strokes_of (run (EvConnection ex_oC :: ex_later) (run ex_joined initial))
   ∧ JSMap.keys (connectedUsers (client cv)) = ["user-b"; "user-c"]
   ∧ userInfo_id cv = Some "user-c")
  ∧ (let history := EvConnection ex_far_oA :: ex_far_later in
     let frames := arrives 0%nat (emitted_run history initial) in
     let cv := deliver frames ex_far_canvas in
     strokes_of (run history initial)
     = [mkStroke "stroke-1" (Some "user-a") (JStr "#FF0000")
                 (JNum (Finite 3))
                 [mkPoint (JNum Infinite) (JNum (Finite 10))] (Finite 3000)]
     ∧ canvasStrokes (client cv)
       = [mkStroke "stroke-1" (Some "user-a") (JStr "#FF0000")
                   (JNum (Finite 3))
                   [mkPoint JNull (JNum (Finite 10))] (Finite 3000)]).
Proof.
  split.
  - destruct (client_mirrors_server ex_joined ex_oC ex_later ex_canvas)
      as (Hstrokes & Hsame & Husers & Hid).
    + repeat constructor; intros H; vm_compute in H;
        first [exact H | discriminate H].
    + vm_compute. repeat constructor; intros H; vm_compute in H.
      * apply elem_of_cons in H as [H|H]; [discriminate H|].
        by apply elem_of_nil in H.
      * by apply elem_of_nil in H.
    + repeat constructor.
    + split_and!.
      * etrans; [exact Hstrokes|]. vm_compute. reflexivity.
      * apply Hsame. vm_compute. repeat constructor.
      * vm_compute. reflexivity.
      * etrans; [exact Hid|]. vm_compute. reflexivity.
  - destruct (client_mirrors_server [] ex_far_oA ex_far_later ex_far_canvas)
      as (Hstrokes & _).
    + repeat constructor; intros H; vm_compute in H; exact H.
    + vm_compute. repeat constructor; intros H; vm_compute in H;
        by apply elem_of_nil in H.
    + repeat constructor.
    + split.
      * vm_compute. reflexivity.
      * etrans; [exact Hstrokes|]. vm_compute. reflexivity.
Defined.


(** The pointer goes down at (1, 2), comes up, and the echo arrives. *)
Lemma release_before_echo_witness :
  let cv1 := (startDrawing true (JNum 1%Z) (JNum 2%Z) (JNum 3%Z) ex_canvas_a).2 in
  let cv2 := (stopDrawing true cv1).2 in
  let cv3 := receive (MsgDrawStart ex_stroke) cv2 in
  let cv4 := (continueDrawing true (JNum 4%Z) (JNum 5%Z) cv3).2 in
  cv2 = cv1
  ∧ isDrawing cv3 = true
  ∧ sent cv4 =
    sent cv1 ++ [("draw-continue",
                  JObj [("strokeId", JStr "stroke-1");
                        ("x", JNum 4%Z); ("y", JNum 5%Z)])].
Proof.
  exact (release_before_echo ex_canvas_a ex_userA ex_stroke
           (JNum 1%Z) (JNum 2%Z) (JNum 3%Z) (JNum 4%Z) (JNum 5%Z)
           eq_refl eq_refl eq_refl).
Defined.

(** The first session draws from (1, 2) to (4, 5). *)
Lemma own_stroke_round_trip_witness :
  let begin :=
    JObj [("x", JNum 1%Z); ("y", JNum 2%Z); ("color", JStr "#FF6B6B");
          ("width", JNum 3%Z)] in
  let more :=
    JObj [("strokeId", JStr "stroke-1"); ("x", JNum 4%Z); ("y", JNum 5%Z)] in
  let w := world (run ex_joined initial) in
  let w1 := (on_message 0%nat ex_clA ex_oS (on_wire ("draw-start", begin)) w).2 in
  let w2 := (on_message 0%nat ex_clA ex_oT (on_wire ("draw-continue", more)) w1).2 in
  strokes (canvasState (server w2))
  = [mkStroke "stroke-1" (Some "user-a") (JStr "#FF6B6B") (JNum 3%Z)
              [mkPoint (JNum 1%Z) (JNum 2%Z); mkPoint (JNum 4%Z) (JNum 5%Z)]
              3000%Z].
Proof.
  destruct (own_stroke_round_trip 0%nat ex_clA ex_oS ex_oT "user-a"
              (world (run ex_joined initial)) ex_canvas_a
              (JNum 1%Z) (JNum 2%Z) (JNum 3%Z) (JNum 4%Z) (JNum 5%Z))
    as (_ & _ & _ & Hstrokes).
  - exact ex_joined_owner.
  - reflexivity.
  - intros H. vm_compute in H. by apply elem_of_nil in H.
  - etrans; [exact Hstrokes|]. vm_compute. reflexivity.
Defined.

(** A socket that cannot be created, two losses, a connection, a loss. *)
Lemma retry_delays_from_table_witness :
  timeouts (client_run [CeClose; CeClose; CeOpen; CeClose]
                       (@constructed Z ex_page false))
  = [1000; 2000; 4000; 1000]%Z
  ∧ Forall (λ d, d ∈ @backoff 0 10 ∧ 1000 ≤ d ≤ 512000)%Z
           (timeouts (client_run [CeClose; CeClose; CeOpen; CeClose]
                                 (@constructed Z ex_page false))).
Proof.
  split; [vm_compute; reflexivity|].
  apply (retry_delays_from_table ex_page false). by eexists.
Defined.

(** Three losses on a page without the badge. *)
Lemma no_badge_no_retry_witness :
  timeouts (losses 3 (@constructed Z ex_bare_page true)) = [].
Proof.
  rewrite (no_badge_no_retry 3 (@constructed Z ex_bare_page true) eq_refl).
  reflexivity.
Defined.

(** A third socket connects. *)
Lemma connection_registers_session_witness :
  let sys' := step (EvConnection ex_oC) (run ex_joined initial) in
  JSMap.get "user-c" (users_of sys')
  = Some (mkUserInfo "user-c" "conn-c" "#45B7D1"
                     (mkPoint (JNum 0%Z) (JNum 0%Z)))
  ∧ connectedClients (server (world sys')) !! 2%nat = Some "user-c".
Proof.
  destruct (connection_registers_session ex_joined ex_oC)
    as (u & Hget & _ & _ & _ & _ & Hreg & _).
  - vm_compute. lia.
  - split; [vm_compute; reflexivity|exact Hreg].
Defined.
